(** * Bharath Bridge: eligibility and risk decision engine

    A shallow embedding of the scheme knowledge graph
    ([backend/knowledge/graph.py]), the scheme catalog
    ([backend/knowledge/schemes_data.py]), the rule-based risk scorer
    ([backend/engine/validation.py]), the feature-weighted scorer
    ([backend/engine/rejection_model.py]), the adversarial agent
    ([backend/agents/adversarial.py]) and the eligibility agent
    ([backend/agents/eligibility.py]).

    Modelling conventions.
    - Python [int] is [Z]; a finite Python [float] is an exact rational [Q]
      (binary rounding of the arithmetic is not modelled, [round(x, n)] is
      round-half-even on the exact value).  The float fields of citizens
      and schemes are finite; the result of [float(str)] also has the three
      non-finite values, see [pyfloat].
    - [str] is [string]; only ASCII case and white space are modelled.
    - A raised exception is the [Raise] case of [result]; code that cannot
      raise is a plain function.
    - Module-level globals ([SCHEMES], [SCHEME_MAP]) are explicit arguments,
      and are also instantiated with the repository's catalog.
    - [random.uniform(-0.03, 0.03)] is an explicit [noise] argument. *)

From Stdlib Require Import ZArith QArith String Ascii List Bool Lia Lqa.
From Stdlib Require Import Sorting.Sorted Sorting.Permutation.
From stdpp Require Import base option list gmap strings sets.

Local Open Scope string_scope.
Local Open Scope list_scope.
Local Open Scope Z_scope.

(** ** Exceptions and results *)

Inductive exn : Type :=
| ValueError (literal : string)      (* int() / float() on a bad literal *)
| NetworkXError (node : string).     (* node is not in the digraph *)

Inductive result (A : Type) : Type :=
| Ok (a : A)
| Raise (e : exn).
Arguments Ok {A} a.
Arguments Raise {A} e.

#[global] Instance result_ret : MRet result := fun _ a => Ok a.
#[global] Instance result_bind : MBind result := fun _ _ f m =>
  match m with Ok a => f a | Raise e => Raise e end.

Definition is_ok {A} (r : result A) : bool :=
  match r with Ok _ => true | Raise _ => false end.

(** ** Python built-ins on strings *)

Module Py.

Definition code (c : ascii) : Z := Z.of_N (N_of_ascii c).

(** [str.isspace] on one ASCII character. *)
Definition is_space (c : ascii) : bool :=
  let n := code c in
  ((9 <=? n) && (n <=? 13)) || ((28 <=? n) && (n <=? 32)).

Fixpoint lstrip (s : string) : string :=
  match s with
  | String c rest => if is_space c then lstrip rest else s
  | EmptyString => EmptyString
  end.

Fixpoint rstrip (s : string) : string :=
  match s with
  | String c rest =>
      match rstrip rest with
      | EmptyString => if is_space c then EmptyString else String c EmptyString
      | r => String c r
      end
  | EmptyString => EmptyString
  end.

(** [s.strip()] *)
Definition strip (s : string) : string := rstrip (lstrip s).

Definition lower_char (c : ascii) : ascii :=
  let n := code c in
  if (65 <=? n) && (n <=? 90) then ascii_of_N (Z.to_N (n + 32)) else c.

(** [s.lower()] *)
Fixpoint lower (s : string) : string :=
  match s with
  | String c rest => String (lower_char c) (lower rest)
  | EmptyString => EmptyString
  end.

(** [s.split(sep)] for a one-character separator: never the empty list. *)
Fixpoint split (sep : ascii) (s : string) : list string :=
  match s with
  | EmptyString => [EmptyString]
  | String c rest =>
      if Ascii.eqb c sep then EmptyString :: split sep rest
      else match split sep rest with
           | w :: ws => String c w :: ws
           | [] => [String c EmptyString]
           end
  end.

(** [s.replace(a, b)] for one-character [a] and [b]. *)
Fixpoint replace (a b : ascii) (s : string) : string :=
  match s with
  | String c rest => String (if Ascii.eqb c a then b else c) (replace a b rest)
  | EmptyString => EmptyString
  end.

Fixpoint startswith (p s : string) : bool :=
  match p, s with
  | EmptyString, _ => true
  | String a p', String b s' => Ascii.eqb a b && startswith p' s'
  | String _ _, EmptyString => false
  end.

(** [needle in hay] *)
Fixpoint contains (needle hay : string) : bool :=
  startswith needle hay ||
  match hay with
  | String _ rest => contains needle rest
  | EmptyString => false
  end.

(** Truth value of a string: non-empty. *)
Definition truthy (s : string) : bool :=
  match s with EmptyString => false | _ => true end.

(** [a or b] on strings. *)
Definition str_or (a b : string) : string := if truthy a then a else b.

(** *** Numeric literals *)

Definition digit_of (c : ascii) : option Z :=
  let n := code c in
  if (48 <=? n) && (n <=? 57) then Some (n - 48) else None.

Definition is_digit (c : ascii) : bool :=
  match digit_of c with Some _ => true | None => false end.

(** Longest prefix of the form digit (["_"] digit)*, with the rest. *)
Fixpoint scan_digits (after_digit : bool) (s : string) : list Z * string :=
  match s with
  | EmptyString => ([], s)
  | String c rest =>
      match digit_of c with
      | Some d => let '(ds, r) := scan_digits true rest in (d :: ds, r)
      | None =>
          if after_digit && Ascii.eqb c "_" then
            match rest with
            | String c' _ =>
                if is_digit c' then scan_digits false rest else ([], s)
            | EmptyString => ([], s)
            end
          else ([], s)
      end
  end.

Definition digits_value (ds : list Z) : Z :=
  fold_left (fun acc d => 10 * acc + d) ds 0.

(** An optional sign: [true] for "-". *)
Definition scan_sign (s : string) : bool * string :=
  match s with
  | String "-" rest => (true, rest)
  | String "+" rest => (false, rest)
  | _ => (false, s)
  end.

(** [int(s)] in base 10. *)
Definition int (s : string) : result Z :=
  let '(neg, body) := scan_sign (strip s) in
  match scan_digits false body with
  | (d :: ds, EmptyString) =>
      let v := digits_value (d :: ds) in Ok (if neg then - v else v)
  | _ => Raise (ValueError s)
  end.

(** The value of [float(s)]: finite, or one of the non-finite values. *)
Inductive pyfloat : Type :=
| Fin (q : Q)
| PInf
| NInf
| NaN.

Definition pow10 (k : Z) : Q := Qpower (10 # 1) k.

(** mantissa digits [ip].[fp] scaled by 10^[e] *)
Definition decimal_value (ip fp : list Z) (e : Z) : Q :=
  (inject_Z (digits_value (ip ++ fp)) * pow10 (e - Z.of_nat (length fp)))%Q.

(** An optional exponent part ("e" | "E") [sign] digitpart. *)
Definition scan_exponent (s : string) : option (Z * string) :=
  match s with
  | EmptyString => Some (0, s)
  | String c rest =>
      if Ascii.eqb c "e" || Ascii.eqb c "E" then
        let '(neg, body) := scan_sign rest in
        match scan_digits false body with
        | (d :: ds, r) =>
            let v := digits_value (d :: ds) in
            Some (if neg then - v else v, r)
        | _ => None
        end
      else Some (0, s)
  end.

Definition scan_fraction (s : string) : list Z * string :=
  match s with
  | String "." rest => scan_digits false rest
  | _ => ([], s)
  end.

(** [float(s)]: decimal literals with optional fraction and exponent, and
    the spellings of infinity and not-a-number. *)
Definition float (s : string) : result pyfloat :=
  let '(neg, body) := scan_sign (strip s) in
  let low := lower body in
  if String.eqb low "inf" || String.eqb low "infinity" then
    Ok (if neg then NInf else PInf)
  else if String.eqb low "nan" then Ok NaN
  else
    let '(ip, r1) := scan_digits false body in
    let '(fp, r2) := scan_fraction r1 in
    match ip ++ fp, scan_exponent r2 with
    | _ :: _, Some (e, EmptyString) =>
        let v := decimal_value ip fp e in
        Ok (Fin (if neg then - v else v)%Q)
    | _, _ => Raise (ValueError s)
    end.

(** [x <= y] for a finite [x] and a parsed [y]; a comparison with
    not-a-number is false. *)
Definition le_float (x : Q) (y : pyfloat) : bool :=
  match y with
  | Fin q => Qle_bool x q
  | PInf => true
  | NInf => false
  | NaN => false
  end.

Definition Qlt_bool (x y : Q) : bool := negb (Qle_bool y x).

(** Nearest integer, ties to the even one. *)
Definition round_half_even (q : Q) : Z :=
  let n := Qnum q in
  let d := Zpos (Qden q) in
  let fl := n / d in
  match (2 * (n mod d) ?= d) with
  | Lt => fl
  | Gt => fl + 1
  | Eq => if Z.even fl then fl else fl + 1
  end.

(** [round(q, ndigits)] *)
Definition round (q : Q) (ndigits : Z) : Q :=
  (inject_Z (round_half_even (q * pow10 ndigits)) / pow10 ndigits)%Q.

Definition Qmin (x y : Q) : Q := if Qlt_bool y x then y else x.
Definition Qmax (x y : Q) : Q := if Qlt_bool x y then y else x.


End Py.

(** ** Data model ([backend/models/citizen.py], [backend/models/scheme.py]) *)

Inductive CasteCategory := GENERAL | OBC | SC | ST | EWS.
Inductive Gender := MALE | FEMALE | OTHER_GENDER.
Inductive EducationLevel :=
  NONE | PRIMARY | SECONDARY | HIGHER_SECONDARY | GRADUATE | POST_GRADUATE
| DOCTORATE.
Inductive Occupation :=
  FARMER | DAILY_WAGE | SELF_EMPLOYED | SALARIED | STUDENT | HOMEMAKER
| UNEMPLOYED | RETIRED | OTHER_OCCUPATION.

(** The [.value] of each enumeration member. *)
Definition caste_value (c : CasteCategory) : string :=
  match c with
  | GENERAL => "general" | OBC => "obc" | SC => "sc" | ST => "st"
  | EWS => "ews"
  end.

Definition gender_value (g : Gender) : string :=
  match g with
  | MALE => "male" | FEMALE => "female" | OTHER_GENDER => "other"
  end.

Definition education_value (e : EducationLevel) : string :=
  match e with
  | NONE => "none" | PRIMARY => "primary" | SECONDARY => "secondary"
  | HIGHER_SECONDARY => "higher_secondary" | GRADUATE => "graduate"
  | POST_GRADUATE => "post_graduate" | DOCTORATE => "doctorate"
  end.

Definition occupation_value (o : Occupation) : string :=
  match o with
  | FARMER => "farmer" | DAILY_WAGE => "daily_wage"
  | SELF_EMPLOYED => "self_employed" | SALARIED => "salaried"
  | STUDENT => "student" | HOMEMAKER => "homemaker"
  | UNEMPLOYED => "unemployed" | RETIRED => "retired"
  | OTHER_OCCUPATION => "other"
  end.

Module FamilyMember.
Record t := mk {
    relationship : string;
    age : Z;
    gender : Gender;
  }.
End FamilyMember.

(** The fields of [CitizenProfile] that the decision engine reads. *)
Module CitizenProfile.
Record t := mk {
    age : option Z;
    gender : Gender;
    aadhaar_number : string;
    address_state : string;          (* address.state *)
    caste_category : CasteCategory;
    annual_income : Q;
    occupation : Occupation;
    education : EducationLevel;
    is_bpl : bool;
    is_disabled : bool;
    is_minority : bool;
    is_pregnant : bool;
    family_members : list FamilyMember.t;
    bank_account : string;
    documents : list string;
  }.

Definition is_child (m : FamilyMember.t) : bool :=
    String.eqb (FamilyMember.relationship m) "child".

Definition is_female (g : Gender) : bool :=
    match g with FEMALE => true | _ => false end.

Definition num_children (c : t) : Z :=
    Z.of_nat (length (List.filter is_child (family_members c))).

Definition num_daughters (c : t) : Z :=
    Z.of_nat (length (List.filter
      (fun m => is_child m && is_female (FamilyMember.gender m))
      (family_members c))).

Definition has_school_age_children (c : t) : bool :=
    existsb (fun m => is_child m
                      && ((6 <=? FamilyMember.age m)
                          && (FamilyMember.age m <=? 18)))
            (family_members c).

  (** [citizen.age or 0] *)
Definition age_or_0 (c : t) : Z :=
    match age c with Some a => a | None => 0 end.

  (** The defaults of the pydantic model. *)
Definition default : t :=
    mk None MALE "" "" GENERAL 0 OTHER_OCCUPATION NONE
       false false false false [] "" [].
End CitizenProfile.

Inductive RuleType :=
  AGE_MIN | AGE_MAX | INCOME_MAX | GENDER | CASTE | STATE | OCCUPATION
| EDUCATION_MIN | EDUCATION_MAX | BPL | DISABILITY | PREGNANT | HAS_CHILDREN
| HAS_DAUGHTERS | MINORITY | CUSTOM.

Definition rule_type_value (rt : RuleType) : string :=
  match rt with
  | AGE_MIN => "age_min" | AGE_MAX => "age_max" | INCOME_MAX => "income_max"
  | GENDER => "gender" | CASTE => "caste" | STATE => "state"
  | OCCUPATION => "occupation" | EDUCATION_MIN => "education_min"
  | EDUCATION_MAX => "education_max" | BPL => "bpl"
  | DISABILITY => "disability" | PREGNANT => "pregnant"
  | HAS_CHILDREN => "has_children" | HAS_DAUGHTERS => "has_daughters"
  | MINORITY => "minority" | CUSTOM => "custom"
  end.

Module EligibilityRule.
Record t := mk {
    rule_id : string;
    rule_type : RuleType;
    condition : string;
    value : string;
    description : string;
  }.
End EligibilityRule.

(** The fields of [Scheme] that the decision engine reads. *)
Module Scheme.
Record t := mk {
    scheme_id : string;
    name : string;
    benefit_amount : Q;
    eligibility_rules : list EligibilityRule.t;
    required_documents : list string;
    approval_rate : Q;
    depends_on : list string;
    conflicts_with : list string;
  }.
End Scheme.

Module SchemeMatch.
Record t := mk {
    scheme : Scheme.t;
    eligibility_score : Q;
    matched_rules : list string;
    failed_rules : list string;
    missing_documents : list string;
    estimated_benefit : Q;
    approval_probability : Q;
    is_eligible : bool;
    rank : Z;
    conflicts : list string;
    unlocks : list string;
  }.

Definition set_rank (m : t) (r : Z) : t :=
    mk (scheme m) (eligibility_score m) (matched_rules m) (failed_rules m)
       (missing_documents m) (estimated_benefit m) (approval_probability m)
       (is_eligible m) r (conflicts m) (unlocks m).
End SchemeMatch.

(** ** Rule evaluation ([SchemeGraph.evaluate_rule]) *)

Definition str_in (x : string) (l : list string) : bool :=
  existsb (String.eqb x) l.

(** [_EDU_ORDER.get(v, 0)] *)
Definition _EDU_ORDER_get (v : string) : Z :=
  if String.eqb v "none" then 0
  else if String.eqb v "primary" then 1
  else if String.eqb v "secondary" then 2
  else if String.eqb v "higher_secondary" then 3
  else if String.eqb v "graduate" then 4
  else if String.eqb v "post_graduate" then 5
  else if String.eqb v "doctorate" then 6
  else 0.

(** [any(m.relationship == "child" and m.age <= int(val) for m in ms)]:
    [int(val)] is evaluated at each child met before the first hit. *)
Fixpoint any_child_age_max (val : string) (ms : list FamilyMember.t)
  : result bool :=
  match ms with
  | [] => Ok false
  | m :: rest =>
      if CitizenProfile.is_child m then
        n ← Py.int val;
        if FamilyMember.age m <=? n then Ok true
        else any_child_age_max val rest
      else any_child_age_max val rest
  end.

Definition evaluate_rule (rule : EligibilityRule.t) (citizen : CitizenProfile.t)
  : result bool :=
  let val := EligibilityRule.value rule in
  match EligibilityRule.rule_type rule with
  | AGE_MIN =>
      n ← Py.int val; Ok (n <=? CitizenProfile.age_or_0 citizen)
  | AGE_MAX =>
      n ← Py.int val; Ok (CitizenProfile.age_or_0 citizen <=? n)
  | INCOME_MAX =>
      x ← Py.float val;
      Ok (Py.le_float (CitizenProfile.annual_income citizen) x)
  | GENDER =>
      Ok (String.eqb (gender_value (CitizenProfile.gender citizen)) val)
  | CASTE =>
      Ok (str_in (caste_value (CitizenProfile.caste_category citizen))
                 (map Py.strip (Py.split "," val)))
  | STATE =>
      Ok (String.eqb (Py.lower (CitizenProfile.address_state citizen))
                     (Py.lower val))
  | OCCUPATION =>
      Ok (str_in (occupation_value (CitizenProfile.occupation citizen))
                 (map Py.strip (Py.split "," val)))
  | EDUCATION_MIN =>
      Ok (_EDU_ORDER_get val <=?
          _EDU_ORDER_get (education_value (CitizenProfile.education citizen)))
  | EDUCATION_MAX =>
      Ok (_EDU_ORDER_get (education_value (CitizenProfile.education citizen))
          <=? _EDU_ORDER_get val)
  | BPL => Ok (CitizenProfile.is_bpl citizen)
  | DISABILITY => Ok (CitizenProfile.is_disabled citizen)
  | PREGNANT => Ok (CitizenProfile.is_pregnant citizen)
  | HAS_CHILDREN => Ok (0 <? CitizenProfile.num_children citizen)
  | HAS_DAUGHTERS => Ok (0 <? CitizenProfile.num_daughters citizen)
  | MINORITY => Ok (CitizenProfile.is_minority citizen)
  | CUSTOM =>
      let cond := EligibilityRule.condition rule in
      if String.eqb cond "child_age_max" then
        any_child_age_max val (CitizenProfile.family_members citizen)
      else if String.eqb cond "sc_st_or_female" then
        Ok (str_in (caste_value (CitizenProfile.caste_category citizen))
                   ["sc"; "st"]
            || String.eqb (gender_value (CitizenProfile.gender citizen))
                          "female")
      else Ok false
  end.

(** ** The scheme catalog ([backend/knowledge/schemes_data.py]) *)

Module Catalog.
Local Open Scope Q_scope.

Definition pm_kisan : Scheme.t :=
  Scheme.mk "pm_kisan" "PM-KISAN Samman Nidhi"
    6000
    [
       EligibilityRule.mk "pmk_1" OCCUPATION "==" "farmer"
         "Must be a farmer";
       EligibilityRule.mk "pmk_2" INCOME_MAX "<=" "500000"
         "Annual income ≤ ₹5 lakh"
    ]
    ["aadhaar"; "bank_statement"; "income_certificate"]
    0.85 [] [].

Definition pm_ujjwala : Scheme.t :=
  Scheme.mk "pm_ujjwala" "Pradhan Mantri Ujjwala Yojana"
    1600
    [
       EligibilityRule.mk "uj_1" GENDER "==" "female"
         "Applicant must be female";
       EligibilityRule.mk "uj_2" BPL "==" "true"
         "Must belong to BPL household";
       EligibilityRule.mk "uj_3" AGE_MIN ">=" "18"
         "Age ≥ 18"
    ]
    ["aadhaar"; "bpl_card"; "bank_statement"]
    0.8 [] [].

Definition pmay : Scheme.t :=
  Scheme.mk "pmay" "Pradhan Mantri Awas Yojana (Gramin)"
    120000
    [
       EligibilityRule.mk "pmay_1" BPL "==" "true"
         "BPL household";
       EligibilityRule.mk "pmay_2" INCOME_MAX "<=" "300000"
         "Annual income ≤ ₹3 lakh"
    ]
    ["aadhaar"; "income_certificate"; "bpl_card"; "bank_statement"]
    0.65 ["pm_jan_dhan"] [].

Definition pm_jan_dhan : Scheme.t :=
  Scheme.mk "pm_jan_dhan" "Pradhan Mantri Jan Dhan Yojana"
    10000
    [
       EligibilityRule.mk "jdy_1" AGE_MIN ">=" "10"
         "Age ≥ 10"
    ]
    ["aadhaar"]
    0.95 [] [].

Definition sukanya_samriddhi : Scheme.t :=
  Scheme.mk "sukanya_samriddhi" "Sukanya Samriddhi Yojana"
    250000
    [
       EligibilityRule.mk "ssy_1" HAS_DAUGHTERS "==" "true"
         "Must have at least one daughter";
       EligibilityRule.mk "ssy_2" CUSTOM "child_age_max" "10"
         "Daughter's age ≤ 10"
    ]
    ["aadhaar"; "birth_certificate"; "bank_statement"]
    0.9 [] ["beti_bachao"].

Definition beti_bachao : Scheme.t :=
  Scheme.mk "beti_bachao" "Beti Bachao Beti Padhao"
    50000
    [
       EligibilityRule.mk "bb_1" HAS_DAUGHTERS "==" "true"
         "Must have at least one daughter"
    ]
    ["aadhaar"; "birth_certificate"; "income_certificate"]
    0.75 [] ["sukanya_samriddhi"].

Definition pm_matru_vandana : Scheme.t :=
  Scheme.mk "pm_matru_vandana" "Pradhan Mantri Matru Vandana Yojana"
    5000
    [
       EligibilityRule.mk "mv_1" GENDER "==" "female"
         "Must be female";
       EligibilityRule.mk "mv_2" PREGNANT "==" "true"
         "Must be pregnant or lactating";
       EligibilityRule.mk "mv_3" AGE_MIN ">=" "19"
         "Age ≥ 19"
    ]
    ["aadhaar"; "bank_statement"; "income_certificate"]
    0.78 [] [].

Definition nsap_pension : Scheme.t :=
  Scheme.mk "nsap_pension" "Indira Gandhi National Old Age Pension"
    6000
    [
       EligibilityRule.mk "nsap_1" AGE_MIN ">=" "60"
         "Age ≥ 60";
       EligibilityRule.mk "nsap_2" BPL "==" "true"
         "Must belong to BPL household"
    ]
    ["aadhaar"; "bpl_card"; "bank_statement"; "income_certificate"]
    0.7 [] [].

Definition atal_pension : Scheme.t :=
  Scheme.mk "atal_pension" "Atal Pension Yojana"
    60000
    [
       EligibilityRule.mk "apy_1" AGE_MIN ">=" "18"
         "Age ≥ 18";
       EligibilityRule.mk "apy_2" AGE_MAX "<=" "40"
         "Age ≤ 40";
       EligibilityRule.mk "apy_3" INCOME_MAX "<=" "180000"
         "Annual income ≤ ₹1.8 lakh (tax-exempt)"
    ]
    ["aadhaar"; "bank_statement"]
    0.88 [] [].

Definition national_scholarship : Scheme.t :=
  Scheme.mk "national_scholarship" "National Scholarship Portal — Post-Matric Scholarship"
    36000
    [
       EligibilityRule.mk "nsp_1" CASTE "in" "sc,st,obc"
         "Must be SC/ST/OBC";
       EligibilityRule.mk "nsp_2" EDUCATION_MIN ">=" "higher_secondary"
         "Completed higher secondary";
       EligibilityRule.mk "nsp_3" INCOME_MAX "<=" "250000"
         "Family income ≤ ₹2.5 lakh"
    ]
    ["aadhaar"; "caste_certificate"; "income_certificate"; "educational_certificate"; "bank_statement"]
    0.72 [] [].

Definition ayushman_bharat : Scheme.t :=
  Scheme.mk "ayushman_bharat" "Ayushman Bharat — PM Jan Arogya Yojana"
    500000
    [
       EligibilityRule.mk "ab_1" BPL "==" "true"
         "BPL or deprived household";
       EligibilityRule.mk "ab_2" INCOME_MAX "<=" "300000"
         "Annual income ≤ ₹3 lakh"
    ]
    ["aadhaar"; "ration_card"; "income_certificate"]
    0.82 [] [].

Definition mudra_loan : Scheme.t :=
  Scheme.mk "mudra_loan" "Pradhan Mantri Mudra Yojana"
    1000000
    [
       EligibilityRule.mk "mud_1" AGE_MIN ">=" "18"
         "Age ≥ 18";
       EligibilityRule.mk "mud_2" OCCUPATION "in" "self_employed,farmer"
         "Self-employed or micro-enterprise"
    ]
    ["aadhaar"; "pan"; "bank_statement"; "income_certificate"]
    0.68 [] [].

Definition disability_pension : Scheme.t :=
  Scheme.mk "disability_pension" "Indira Gandhi National Disability Pension"
    3600
    [
       EligibilityRule.mk "dp_1" DISABILITY "==" "true"
         "Must have ≥80% disability";
       EligibilityRule.mk "dp_2" AGE_MIN ">=" "18"
         "Age ≥ 18";
       EligibilityRule.mk "dp_3" AGE_MAX "<=" "79"
         "Age ≤ 79";
       EligibilityRule.mk "dp_4" BPL "==" "true"
         "BPL household"
    ]
    ["aadhaar"; "disability_certificate"; "bpl_card"; "bank_statement"]
    0.72 [] [].

Definition nfsa_ration : Scheme.t :=
  Scheme.mk "nfsa_ration" "National Food Security Act — Subsidized Ration"
    7200
    [
       EligibilityRule.mk "nfsa_1" BPL "==" "true"
         "BPL household"
    ]
    ["aadhaar"; "ration_card"; "income_certificate"]
    0.88 [] [].

Definition standup_india : Scheme.t :=
  Scheme.mk "standup_india" "Stand-Up India Scheme"
    10000000
    [
       EligibilityRule.mk "sui_1" AGE_MIN ">=" "18"
         "Age ≥ 18";
       EligibilityRule.mk "sui_2" CUSTOM "sc_st_or_female" "true"
         "Must be SC/ST or female"
    ]
    ["aadhaar"; "pan"; "caste_certificate"; "bank_statement"; "income_certificate"]
    0.55 ["pm_jan_dhan"] [].

Definition pm_fasal_bima : Scheme.t :=
  Scheme.mk "pm_fasal_bima" "Pradhan Mantri Fasal Bima Yojana"
    200000
    [
       EligibilityRule.mk "pfb_1" OCCUPATION "==" "farmer"
         "Must be a farmer"
    ]
    ["aadhaar"; "bank_statement"; "income_certificate"]
    0.8 ["pm_kisan"] [].

End Catalog.

Definition SCHEMES : list Scheme.t :=
  [ Catalog.pm_kisan;
    Catalog.pm_ujjwala;
    Catalog.pmay;
    Catalog.pm_jan_dhan;
    Catalog.sukanya_samriddhi;
    Catalog.beti_bachao;
    Catalog.pm_matru_vandana;
    Catalog.nsap_pension;
    Catalog.atal_pension;
    Catalog.national_scholarship;
    Catalog.ayushman_bharat;
    Catalog.mudra_loan;
    Catalog.disability_pension;
    Catalog.nfsa_ration;
    Catalog.standup_india;
    Catalog.pm_fasal_bima ].

(** [SCHEME_MAP = {s.scheme_id: s for s in SCHEMES}]: a later scheme with
    the same id replaces an earlier one. *)
Definition scheme_map (catalog : list Scheme.t) : gmap string Scheme.t :=
  fold_left (fun m s => <[Scheme.scheme_id s := s]> m) catalog ∅.

Definition SCHEME_MAP : gmap string Scheme.t := scheme_map SCHEMES.

(** ** The directed graph ([networkx.DiGraph], as [_build] uses it)

    One edge per ordered pair of nodes, carrying its [relation] attribute;
    nodes and edges are kept in insertion order, which is the order in
    which [predecessors] and [successors] iterate.  The [node_type]
    attribute of the nodes is kept beside the graph, see [typed_graph];
    the other node attributes are never read and are left out. *)

Inductive Relation := REQUIRES | NEEDS_DOCUMENT | DEPENDS_ON | CONFLICTS_WITH.

#[global] Instance Relation_eq_dec : EqDecision Relation.
Proof. solve_decision. Defined.

Module DiGraph.
Definition edge : Type := string * string * Relation.

Record t := mk {
    nodes : list string;
    edges : list edge;
  }.

Definition empty : t := mk [] [].

Definition src (e : edge) : string := e.1.1.
Definition dst (e : edge) : string := e.1.2.
Definition rel (e : edge) : Relation := e.2.

Definition has_node (g : t) (n : string) : bool := bool_decide (n ∈ nodes g).

Definition add_node_list (n : string) (ns : list string) : list string :=
    if bool_decide (n ∈ ns) then ns else ns ++ [n].

Definition add_node (n : string) (g : t) : t :=
    mk (add_node_list n (nodes g)) (edges g).

  (** Setting the attribute of an existing edge keeps its position. *)
Fixpoint put_edge (u v : string) (r : Relation) (es : list edge)
    : list edge :=
    match es with
    | [] => [(u, v, r)]
    | e :: rest =>
        if bool_decide (src e = u) && bool_decide (dst e = v)
        then (u, v, r) :: rest
        else e :: put_edge u v r rest
    end.

  (** [g.add_edge(u, v, relation=r)]: adds missing end points. *)
Definition add_edge (u v : string) (r : Relation) (g : t) : t :=
    mk (add_node_list v (add_node_list u (nodes g))) (put_edge u v r (edges g)).

  (** [g.get_edge_data(u, v)] *)
Definition get_edge_data (g : t) (u v : string) : option Relation :=
    rel <$> List.find
      (fun e => bool_decide (src e = u) && bool_decide (dst e = v)) (edges g).

Definition pred_list (g : t) (n : string) : list string :=
    src <$> List.filter (fun e => bool_decide (dst e = n)) (edges g).

Definition succ_list (g : t) (n : string) : list string :=
    dst <$> List.filter (fun e => bool_decide (src e = n)) (edges g).

  (** [g.predecessors(n)] *)
Definition predecessors (g : t) (n : string) : result (list string) :=
    if has_node g n then Ok (pred_list g n) else Raise (NetworkXError n).

  (** [g.successors(n)] *)
Definition successors (g : t) (n : string) : result (list string) :=
    if has_node g n then Ok (succ_list g n) else Raise (NetworkXError n).
End DiGraph.

(** ** Graph construction ([SchemeGraph._build]) *)

Definition in_scheme_map (catalog : list Scheme.t) (sid : string) : bool :=
  bool_decide (is_Some (scheme_map catalog !! sid)).

Definition build_rule (sid : string) (g : DiGraph.t) (rule : EligibilityRule.t)
  : DiGraph.t :=
  let rule_node := ("rule_" ++ EligibilityRule.rule_id rule)%string in
  DiGraph.add_edge sid rule_node REQUIRES (DiGraph.add_node rule_node g).

Definition build_doc (sid : string) (g : DiGraph.t) (doc : string)
  : DiGraph.t :=
  let doc_node := ("doc_" ++ doc)%string in
  let g' := if DiGraph.has_node g doc_node then g
            else DiGraph.add_node doc_node g in
  DiGraph.add_edge sid doc_node NEEDS_DOCUMENT g'.

Definition build_dep (catalog : list Scheme.t) (sid : string) (g : DiGraph.t)
    (dep_id : string) : DiGraph.t :=
  if in_scheme_map catalog dep_id
  then DiGraph.add_edge sid dep_id DEPENDS_ON g else g.

Definition build_conflict (catalog : list Scheme.t) (sid : string)
    (g : DiGraph.t) (conflict_id : string) : DiGraph.t :=
  if in_scheme_map catalog conflict_id
  then DiGraph.add_edge conflict_id sid CONFLICTS_WITH
         (DiGraph.add_edge sid conflict_id CONFLICTS_WITH g)
  else g.

Definition build_scheme (catalog : list Scheme.t) (g : DiGraph.t)
    (scheme : Scheme.t) : DiGraph.t :=
  let sid := Scheme.scheme_id scheme in
  let g1 := DiGraph.add_node sid g in
  let g2 := fold_left (build_rule sid) (Scheme.eligibility_rules scheme) g1 in
  let g3 := fold_left (build_doc sid) (Scheme.required_documents scheme) g2 in
  let g4 := fold_left (build_dep catalog sid) (Scheme.depends_on scheme) g3 in
  fold_left (build_conflict catalog sid) (Scheme.conflicts_with scheme) g4.

Definition _build (catalog : list Scheme.t) : DiGraph.t :=
  fold_left (build_scheme catalog) catalog DiGraph.empty.

(** ** Node types and graph statistics ([SchemeGraph.stats])

    The [node_type] attribute of the nodes is kept beside the graph:
    [add_node] with the attribute sets it, also on a node that is already
    there, and a node that only [add_edge] has created has none. *)

Definition typed_graph : Type := DiGraph.t * gmap string string.

Definition build_rule_typed (sid : string) (gt : typed_graph)
    (rule : EligibilityRule.t) : typed_graph :=
  let rule_node := ("rule_" ++ EligibilityRule.rule_id rule)%string in
  (build_rule sid gt.1 rule, <[rule_node := "rule"]> gt.2).

Definition build_doc_typed (sid : string) (gt : typed_graph) (doc : string)
  : typed_graph :=
  let doc_node := ("doc_" ++ doc)%string in
  (build_doc sid gt.1 doc,
   if DiGraph.has_node gt.1 doc_node then gt.2
   else <[doc_node := "document"]> gt.2).

Definition build_scheme_typed (catalog : list Scheme.t) (gt : typed_graph)
    (scheme : Scheme.t) : typed_graph :=
  let sid := Scheme.scheme_id scheme in
  let gt1 := (DiGraph.add_node sid gt.1, <[sid := "scheme"]> gt.2) in
  let gt2 := fold_left (build_rule_typed sid) (Scheme.eligibility_rules scheme) gt1 in
  let gt3 := fold_left (build_doc_typed sid) (Scheme.required_documents scheme) gt2 in
  let g4 := fold_left (build_dep catalog sid) (Scheme.depends_on scheme) gt3.1 in
  (fold_left (build_conflict catalog sid) (Scheme.conflicts_with scheme) g4,
   gt3.2).

(** [_build], with the node types. *)
Definition _build_typed (catalog : list Scheme.t) : typed_graph :=
  fold_left (build_scheme_typed catalog) catalog (DiGraph.empty, ∅).

Module Stats.
Record t := mk {
    total_nodes : Z;
    total_edges : Z;
    schemes : Z;
    rules : Z;
    documents : Z;
  }.
End Stats.

(** [len([n for n, d in nodes(data=True) if d.get("node_type") == ty])] *)
Definition count_nodes (gt : typed_graph) (ty : string) : Z :=
  Z.of_nat (length (List.filter (fun n => bool_decide (gt.2 !! n = Some ty))
                      (DiGraph.nodes gt.1))).

Definition stats (gt : typed_graph) : Stats.t :=
  Stats.mk (Z.of_nat (length (DiGraph.nodes gt.1)))
           (Z.of_nat (length (DiGraph.edges gt.1)))
           (count_nodes gt "scheme") (count_nodes gt "rule")
           (count_nodes gt "document").

(** ** Benefit chains ([SchemeGraph.find_benefit_chain]) *)

Definition MAX_HOPS : Z := 5.

Module Chain.
  (** The loop state: [visited], [dependents] and [next_frontier]. *)
Record state := mk {
    visited : gset string;
    dependents : list string;
    next_frontier : list string;
  }.

  (** The body of the innermost loop, for one predecessor of [current]. *)
Definition visit (g : DiGraph.t) (current : string) (st : state)
      (predecessor : string) : state :=
    if bool_decide (DiGraph.get_edge_data g predecessor current = Some DEPENDS_ON)
       && bool_decide (predecessor ∉ visited st)
    then mk (visited st ∪ {[predecessor]})
            (dependents st ++ [predecessor])
            (next_frontier st ++ [predecessor])
    else st.

  (** [for current in frontier: for predecessor in ...] *)
Fixpoint scan (g : DiGraph.t) (frontier : list string) (st : state)
    : result state :=
    match frontier with
    | [] => Ok st
    | current :: rest =>
        preds ← DiGraph.predecessors g current;
        scan g rest (fold_left (visit g current) preds st)
    end.

  (** [for _ in range(hops)], leaving the loop at an empty frontier. *)
Fixpoint loop (g : DiGraph.t) (hops : nat) (frontier : list string)
      (vis : gset string) (deps : list string) : result (list string) :=
    match hops with
    | O => Ok deps
    | S hops' =>
        st ← scan g frontier (mk vis deps []);
        match next_frontier st with
        | [] => Ok (dependents st)
        | next => loop g hops' next (visited st) (dependents st)
        end
    end.
End Chain.

Definition find_benefit_chain (g : DiGraph.t) (scheme_id : string)
    (max_hops : Z) : result (list string) :=
  Chain.loop g (Z.to_nat max_hops) [scheme_id] {[scheme_id]} [].

(** ** Conflict detection ([SchemeGraph.detect_conflicts]) *)

(** [tuple(sorted((a, b)))] *)
Definition sorted_pair (a b : string) : string * string :=
  if String.ltb b a then (b, a) else (a, b).

Module Conflicts.
Record state := mk {
    checked : gset (string * string);
    conflicts : list (string * string);
  }.

Definition visit (g : DiGraph.t) (scheme_ids : list string) (sid : string)
      (st : state) (neighbor : string) : state :=
    if bool_decide (DiGraph.get_edge_data g sid neighbor = Some CONFLICTS_WITH)
       && bool_decide (neighbor ∈ scheme_ids)
       && bool_decide (sorted_pair sid neighbor ∉ checked st)
    then mk (checked st ∪ {[sorted_pair sid neighbor]})
            (conflicts st ++ [sorted_pair sid neighbor])
    else st.

Fixpoint scan (g : DiGraph.t) (scheme_ids todo : list string) (st : state)
    : result state :=
    match todo with
    | [] => Ok st
    | sid :: rest =>
        succs ← DiGraph.successors g sid;
        scan g scheme_ids rest (fold_left (visit g scheme_ids sid) succs st)
    end.
End Conflicts.

Definition detect_conflicts (g : DiGraph.t) (scheme_ids : list string)
  : result (list (string * string)) :=
  st ← Conflicts.scan g scheme_ids scheme_ids (Conflicts.mk ∅ []);
  Ok (Conflicts.conflicts st).

(** ** Discovery and ranking ([SchemeGraph.discover_schemes]) *)

(** [list.sort(key=..., reverse=True)]: descending and stable.  The second
    argument of [lt] is the larger one; an element moves behind another
    only when its key is strictly smaller. *)
Section StableSort.
Context {A : Type} (lt : A -> A -> bool).

Fixpoint insert_desc (x : A) (l : list A) : list A :=
    match l with
    | [] => [x]
    | y :: rest => if lt x y then y :: insert_desc x rest else x :: l
    end.

Definition sort_desc (l : list A) : list A := foldr insert_desc [] l.
End StableSort.

(** The rules of a scheme, split into the labels of those that hold and of
    those that fail, in rule order. *)
Fixpoint eval_rules (citizen : CitizenProfile.t) (rules : list EligibilityRule.t)
    (matched failed : list string) : result (list string * list string) :=
  match rules with
  | [] => Ok (matched, failed)
  | rule :: rest =>
      b ← evaluate_rule rule citizen;
      let label := Py.str_or (EligibilityRule.description rule)
                             (EligibilityRule.rule_id rule) in
      if b : bool then eval_rules citizen rest (matched ++ [label]) failed
      else eval_rules citizen rest matched (failed ++ [label])
  end.

(** [len(matched) / total if total else 1.0] *)
Definition rule_score (matched : list string) (rules : list EligibilityRule.t)
  : Q :=
  match rules with
  | [] => 1
  | _ => inject_Z (Z.of_nat (length matched)) / inject_Z (Z.of_nat (length rules))
  end.

(** [[d for d in required if d not in set(held)]] *)
Definition missing_docs (required held : list string) : list string :=
  List.filter (fun d => negb (str_in d held)) required.

(** [[SCHEME_MAP[i].name for i in ids if i in SCHEME_MAP]] *)
Definition scheme_names (catalog : list Scheme.t) (ids : list string)
  : list string :=
  omap (fun i => Scheme.name <$> scheme_map catalog !! i) ids.

(** The body of the loop over [SCHEMES]. *)
Definition match_scheme (catalog : list Scheme.t) (g : DiGraph.t)
    (citizen : CitizenProfile.t) (scheme : Scheme.t) : result SchemeMatch.t :=
  '(matched, failed) ← eval_rules citizen (Scheme.eligibility_rules scheme) [] [];
  let score := rule_score matched (Scheme.eligibility_rules scheme) in
  let is_eligible := bool_decide (length failed = 0%nat) in
  let missing := missing_docs (Scheme.required_documents scheme)
                              (CitizenProfile.documents citizen) in
  let conflicts := scheme_names catalog (Scheme.conflicts_with scheme) in
  unlocks ← find_benefit_chain g (Scheme.scheme_id scheme) MAX_HOPS;
  let approval_prob := (score * Scheme.approval_rate scheme)%Q in
  Ok (SchemeMatch.mk scheme (Py.round score 2) matched failed missing
        (Scheme.benefit_amount scheme) (Py.round approval_prob 2)
        is_eligible 0 conflicts (scheme_names catalog unlocks)).

Fixpoint match_all (catalog : list Scheme.t) (g : DiGraph.t)
    (citizen : CitizenProfile.t) (schemes : list Scheme.t)
  : result (list SchemeMatch.t) :=
  match schemes with
  | [] => Ok []
  | scheme :: rest =>
      m ← match_scheme catalog g citizen scheme;
      ms ← match_all catalog g citizen rest;
      Ok (m :: ms)
  end.

(** The sort key [(m.is_eligible, m.estimated_benefit * m.approval_probability)]. *)
Definition sort_key (m : SchemeMatch.t) : bool * Q :=
  (SchemeMatch.is_eligible m,
   (SchemeMatch.estimated_benefit m * SchemeMatch.approval_probability m)%Q).

(** [k1 < k2] on such tuples: the first differing component decides. *)
Definition key_lt (k1 k2 : bool * Q) : bool :=
  if Bool.eqb k1.1 k2.1 then Py.Qlt_bool k1.2 k2.2
  else negb k1.1 && k2.1.

Definition match_lt (m1 m2 : SchemeMatch.t) : bool :=
  key_lt (sort_key m1) (sort_key m2).

(** [for i, m in enumerate(matches): m.rank = i + 1] *)
Definition assign_ranks (ms : list SchemeMatch.t) : list SchemeMatch.t :=
  imap (fun i m => SchemeMatch.set_rank m (Z.of_nat i + 1)) ms.

Definition discover_schemes (catalog : list Scheme.t) (g : DiGraph.t)
    (citizen : CitizenProfile.t) : result (list SchemeMatch.t) :=
  matches ← match_all catalog g citizen catalog;
  Ok (assign_ranks (sort_desc match_lt matches)).

(** ** Rejection analysis ([backend/models/application.py]) *)

(** One entry of [risk_factors]; the free-text [details] entry of the
    dictionary is left out, nothing reads it. *)
Module RiskFactor.
Record t := mk {
    factor : string;
    severity : string;
    risk_contribution : Q;
  }.
End RiskFactor.

Module RejectionAnalysis.
Record t := mk {
    rejection_probability : Q;
    risk_level : string;
    risk_factors : list RiskFactor.t;
    recommendations : list string;
    common_rejection_patterns : list string;
  }.
End RejectionAnalysis.

(** The four-tier ladder, used by both scorers. *)
Definition risk_ladder (p : Q) : string :=
  if Qle_bool 0.7 p then "critical"
  else if Qle_bool 0.5 p then "high"
  else if Qle_bool 0.3 p then "medium"
  else "low".

(** [x / limit if limit else 0], for a finite [x]; [None] is not-a-number. *)
Definition ratio_to (x : Q) (limit : Py.pyfloat) : option Q :=
  match limit with
  | Py.Fin q => Some (if Qeq_bool q 0 then 0 else x / q)%Q
  | Py.PInf | Py.NInf => Some 0%Q
  | Py.NaN => None
  end.

Definition is_income_rule (rule : EligibilityRule.t) : bool :=
  String.eqb (rule_type_value (EligibilityRule.rule_type rule)) "income_max".

Definition is_age_rule (rule : EligibilityRule.t) : bool :=
  str_in (rule_type_value (EligibilityRule.rule_type rule))
         ["age_min"; "age_max"].

(** ** The rule-based scorer ([backend/engine/validation.py]) *)

Module Validation.
Local Open Scope Q_scope.

(** The names of [REJECTION_PATTERNS], in order. *)
Definition REJECTION_PATTERNS : list string :=
  [ "Incomplete Documentation"; "Income Certificate Mismatch";
    "Aadhaar-Bank Name Mismatch"; "Address / Domicile Mismatch";
    "Age Boundary Issue"; "Duplicate Application Detected";
    "Caste Certificate Validity" ].

Definition _check_missing_docs (citizen : CitizenProfile.t) (scheme : Scheme.t)
  : list string :=
  missing_docs (Scheme.required_documents scheme)
               (CitizenProfile.documents citizen).

(** The accumulators [risk_factors] and [total_risk]. *)
Definition acc : Type := list RiskFactor.t * Q.

Definition add_factor (a : acc) (f : RiskFactor.t) (risk : Q) : acc :=
  (a.1 ++ [f], a.2 + risk).

(** 1. Incomplete documentation *)
Definition docs_step (scheme : Scheme.t) (missing : list string) (a : acc)
  : acc :=
  match missing with
  | [] => a
  | _ =>
      let n := Z.of_nat (length missing) in
      let total := Z.max (Z.of_nat (length (Scheme.required_documents scheme))) 1 in
      let factor_risk := 0.30 * (inject_Z n / inject_Z total) in
      add_factor a
        (RiskFactor.mk "Incomplete Documentation"
           (if (2 <? n)%Z then "high" else "medium") (Py.round factor_risk 2))
        factor_risk
  end.

(** 2. Income verification risk: the loop over the rules. *)
Fixpoint income_step (income : Q) (rules : list EligibilityRule.t) (a : acc)
  : result acc :=
  match rules with
  | [] => Ok a
  | rule :: rest =>
      if is_income_rule rule then
        max_income ← Py.float (EligibilityRule.value rule);
        match ratio_to income max_income with
        | Some ratio =>
            if Py.Qlt_bool 0.85 ratio then
              let factor_risk := 0.20 * Py.Qmin (ratio - 0.85) 0.15 / 0.15 in
              income_step income rest
                (add_factor a
                   (RiskFactor.mk "Income Near Threshold"
                      (if Py.Qlt_bool 0.95 ratio then "high" else "medium")
                      (Py.round factor_risk 2))
                   factor_risk)
            else income_step income rest a
        | None => income_step income rest a
        end
      else income_step income rest a
  end.

(** 5. Age boundary risk: the loop over the rules. *)
Fixpoint age_step (age : Z) (rules : list EligibilityRule.t) (a : acc)
  : result acc :=
  match rules with
  | [] => Ok a
  | rule :: rest =>
      if is_age_rule rule then
        limit ← Py.int (EligibilityRule.value rule);
        if (Z.abs (age - limit) <=? 1)%Z then
          age_step age rest
            (add_factor a (RiskFactor.mk "Age Boundary Risk" "medium" 0.08) 0.08)
        else age_step age rest a
      else age_step age rest a
  end.

Definition upload_line (doc : string) : string :=
  ("Upload your " ++ Py.replace "_" " " doc ++ " before submitting")%string.

(** The recommendation lines of one risk factor. *)
Definition factor_recs (missing_docs : list string) (f : RiskFactor.t)
  : list string :=
  let name := RiskFactor.factor f in
  if Py.contains "Documentation" name then map upload_line missing_docs
  else if Py.contains "Aadhaar" name then
    ["Link your Aadhaar number — this is mandatory for Direct Benefit Transfer"]
  else if Py.contains "Bank" name then
    ["Open a Jan Dhan account if you don't have one — it's zero-balance and free"]
  else if Py.contains "Income" name then
    ["Ensure income certificate matches your actual declared income to avoid mismatch"]
  else if Py.contains "Age" name then
    ["Submit application before your birthdate crosses the age cutoff"]
  else [].

(** [list(dict.fromkeys(l))]: the first occurrence of each string, in order. *)
Fixpoint dedup (seen : gset string) (l : list string) : list string :=
  match l with
  | [] => []
  | x :: rest =>
      if bool_decide (x ∈ seen) then dedup seen rest
      else x :: dedup (seen ∪ {[x]}) rest
  end.

Definition _generate_recommendations (risk_factors : list RiskFactor.t)
    (missing_docs : list string) : list string :=
  dedup ∅ (flat_map (factor_recs missing_docs) risk_factors).

Definition predict_rejection (citizen : CitizenProfile.t) (scheme : Scheme.t)
  : result RejectionAnalysis.t :=
  let rules := Scheme.eligibility_rules scheme in
  let missing := _check_missing_docs citizen scheme in
  let a1 := docs_step scheme missing ([], 0) in
  a2 ← (if Py.Qlt_bool 0 (CitizenProfile.annual_income citizen)
        then income_step (CitizenProfile.annual_income citizen) rules a1
        else Ok a1);
  let a3 := if Py.truthy (CitizenProfile.aadhaar_number citizen) then a2
            else add_factor a2
                   (RiskFactor.mk "Missing Aadhaar" "critical" 0.25) 0.25 in
  let a4 := if Py.truthy (CitizenProfile.bank_account citizen) then a3
            else add_factor a3
                   (RiskFactor.mk "No Bank Account Linked" "high" 0.15) 0.15 in
  a5 ← (match CitizenProfile.age citizen with
        | Some age => if (age =? 0)%Z then Ok a4 else age_step age rules a4
        | None => Ok a4
        end);
  let base_rejection := 1 - Scheme.approval_rate scheme in
  let total_risk := Py.Qmin (Py.Qmax (a5.2 + base_rejection * 0.3) 0) 1 in
  Ok (RejectionAnalysis.mk (Py.round total_risk 2) (risk_ladder total_risk)
        a5.1 (_generate_recommendations a5.1 missing)
        (take 3 REJECTION_PATTERNS)).

End Validation.

(** ** The feature-weighted scorer ([backend/engine/rejection_model.py]) *)

Module RejectionModel.
Local Open Scope Q_scope.

(** The ratio of the first income rule; [Some None] is not-a-number. *)
Fixpoint income_ratio (income : Q) (rules : list EligibilityRule.t)
  : result (option Q) :=
  match rules with
  | [] => Ok (Some 0)
  | rule :: rest =>
      if is_income_rule rule then
        max_val ← Py.float (EligibilityRule.value rule);
        Ok (ratio_to income max_val)
      else income_ratio income rest
  end.

(** The last age rule within two years of the citizen's age decides. *)
Fixpoint age_risk (age : Z) (rules : list EligibilityRule.t) (risk : Q)
  : result Q :=
  match rules with
  | [] => Ok risk
  | rule :: rest =>
      if is_age_rule rule then
        limit ← Py.int (EligibilityRule.value rule);
        let diff := Z.abs (age - limit) in
        if (diff <=? 2)%Z then age_risk age rest (1 - inject_Z diff * 0.3)
        else age_risk age rest risk
      else age_risk age rest risk
  end.

(** The feature vector; [None] when the income ratio is not-a-number. *)
Definition _encode_features (citizen : CitizenProfile.t) (scheme : Scheme.t)
  : result (option (list Q)) :=
  let rules := Scheme.eligibility_rules scheme in
  let missing := Z.of_nat (length (missing_docs (Scheme.required_documents scheme)
                                     (CitizenProfile.documents citizen))) in
  let total_docs := Z.of_nat (length (Scheme.required_documents scheme)) in
  let doc_completeness :=
    if (total_docs =? 0)%Z then 1
    else 1 - inject_Z missing / inject_Z total_docs in
  let has_aadhaar :=
    if Py.truthy (CitizenProfile.aadhaar_number citizen) then 1 else 0 in
  let has_bank :=
    if Py.truthy (CitizenProfile.bank_account citizen) then 1 else 0 in
  ratio ← income_ratio (CitizenProfile.annual_income citizen) rules;
  risk ← (match CitizenProfile.age citizen with
          | Some age => if (age =? 0)%Z then Ok 0 else age_risk age rules 0
          | None => Ok 0
          end);
  Ok (r ← ratio;
      Some [ doc_completeness; has_aadhaar; has_bank; r; risk;
             Scheme.approval_rate scheme;
             inject_Z (Z.of_nat (length (CitizenProfile.family_members citizen)))
             / 10 ]).

Definition weights : list Q := [0.30; 0.15; 0.10; 0.15; 0.10; 0.15; 0.05].

(** [sum(f * w for f, w in zip(features, weights))] *)
Definition weighted_sum (features ws : list Q) : Q :=
  fold_left Qplus (zip_with Qmult features ws) 0.

(** [noise] stands for the draw of [random.uniform(-0.03, 0.03)].  A
    not-a-number score loses both comparisons of [min] and [max], which
    leaves 1.0. *)
Definition predict_rejection_probability (citizen : CitizenProfile.t)
    (scheme : Scheme.t) (noise : Q) : result Q :=
  features ← _encode_features citizen scheme;
  let rejection_prob :=
    match features with
    | Some fs => Py.Qmax 0 (Py.Qmin 1 (1 - weighted_sum fs weights + noise))
    | None => 1
    end in
  Ok (Py.round rejection_prob 3).

End RejectionModel.

(** ** The adversarial agent ([backend/agents/adversarial.py]) *)

Module AdversarialAgent.
Local Open Scope Q_scope.

(** The weighted average [combined] of the two scores. *)
Definition combine (rule_based ml_prob : Q) : Q :=
  rule_based * 0.6 + ml_prob * 0.4.

Definition predict_rejection (catalog : list Scheme.t)
    (citizen : CitizenProfile.t) (scheme_id : string) (noise : Q)
  : result (option RejectionAnalysis.t) :=
  match scheme_map catalog !! scheme_id with
  | None => Ok None
  | Some scheme =>
      analysis ← Validation.predict_rejection citizen scheme;
      ml_prob ← RejectionModel.predict_rejection_probability citizen scheme noise;
      let combined :=
        combine (RejectionAnalysis.rejection_probability analysis) ml_prob in
      Ok (Some (RejectionAnalysis.mk (Py.round combined 2)
                  (risk_ladder combined)
                  (RejectionAnalysis.risk_factors analysis)
                  (RejectionAnalysis.recommendations analysis)
                  (RejectionAnalysis.common_rejection_patterns analysis)))
  end.




(** [batch_predict]: the loop over [scheme_ids].  [noise k] stands for the
    k-th draw of the random generator; an id that is not in the catalog
    draws nothing and leaves no entry. *)
Fixpoint batch_predict_loop (catalog : list Scheme.t)
    (citizen : CitizenProfile.t) (scheme_ids : list string) (noise : nat -> Q)
    (draws : nat) (results : gmap string RejectionAnalysis.t)
  : result (gmap string RejectionAnalysis.t) :=
  match scheme_ids with
  | [] => Ok results
  | sid :: rest =>
      analysis ← predict_rejection catalog citizen sid (noise draws);
      match analysis with
      | Some a =>
          batch_predict_loop catalog citizen rest noise (S draws)
            (<[sid := a]> results)
      | None => batch_predict_loop catalog citizen rest noise draws results
      end
  end.

Definition batch_predict (catalog : list Scheme.t) (citizen : CitizenProfile.t)
    (scheme_ids : list string) (noise : nat -> Q)
  : result (gmap string RejectionAnalysis.t) :=
  batch_predict_loop catalog citizen scheme_ids noise 0 ∅.

End AdversarialAgent.

(** ** The eligibility agent ([backend/agents/eligibility.py]) *)

Module EligibilityAgent.

Definition verify_eligibility (catalog : list Scheme.t) (g : DiGraph.t)
    (citizen : CitizenProfile.t) (scheme_id : string)
  : result (option SchemeMatch.t) :=
  match scheme_map catalog !! scheme_id with
  | None => Ok None
  | Some _ =>
      matches ← discover_schemes catalog g citizen;
      Ok (List.find
            (fun m => String.eqb (Scheme.scheme_id (SchemeMatch.scheme m))
                                 scheme_id)
            matches)
  end.

Definition find_benefit_chains (catalog : list Scheme.t) (g : DiGraph.t)
    (scheme_id : string) : result (list string) :=
  dependent_ids ← find_benefit_chain g scheme_id MAX_HOPS;
  Ok (scheme_names catalog dependent_ids).

(** One entry of the list that the agent's [detect_conflicts] returns. *)
Record conflict_report := mk_conflict_report {
    scheme_a : string;
    scheme_a_name : string;
    scheme_b : string;
    scheme_b_name : string;
    message : string;
  }.

(** [SCHEME_MAP[a].name if a in SCHEME_MAP else a] *)
Definition name_or_id (catalog : list Scheme.t) (a : string) : string :=
  match scheme_map catalog !! a with
  | Some s => Scheme.name s
  | None => a
  end.

Definition report_of (catalog : list Scheme.t) (pair : string * string)
  : conflict_report :=
  let name_a := name_or_id catalog pair.1 in
  let name_b := name_or_id catalog pair.2 in
  mk_conflict_report pair.1 name_a pair.2 name_b
    ("'" ++ name_a ++ "' and '" ++ name_b
     ++ "' are mutually exclusive. Apply for only one.")%string.

Definition detect_conflicts (catalog : list Scheme.t) (g : DiGraph.t)
    (scheme_ids : list string) : result (list conflict_report) :=
  conflict_pairs ← detect_conflicts g scheme_ids;
  Ok (map (report_of catalog) conflict_pairs).


End EligibilityAgent.

(** * Specification vocabulary *)

(** The field of the citizen that a numeric rule compares. *)
Definition compared_field (rt : RuleType) (c : CitizenProfile.t) : Q :=
  match rt with
  | INCOME_MAX => CitizenProfile.annual_income c
  | _ => inject_Z (CitizenProfile.age_or_0 c)
  end.

(** A rule of kind age_min, age_max or income_max whose value parses. *)
Definition numeric_well_formed (r : EligibilityRule.t) : bool :=
  match EligibilityRule.rule_type r with
  | AGE_MIN | AGE_MAX => is_ok (Py.int (EligibilityRule.value r))
  | INCOME_MAX => is_ok (Py.float (EligibilityRule.value r))
  | _ => false
  end.

(** A rule of one of these kinds whose value does not parse. *)
Definition numeric_malformed (r : EligibilityRule.t) : bool :=
  match EligibilityRule.rule_type r with
  | AGE_MIN | AGE_MAX => negb (is_ok (Py.int (EligibilityRule.value r)))
  | INCOME_MAX => negb (is_ok (Py.float (EligibilityRule.value r)))
  | _ => false
  end.

(** No rule of a numeric kind has a value that does not parse. *)
Definition numeric_rules_parse (rules : list EligibilityRule.t) : bool :=
  forallb (fun r => negb (numeric_malformed r)) rules.

(** The values that [evaluate_rule] parses are well formed. *)
Definition rule_parses (r : EligibilityRule.t) : bool :=
  match EligibilityRule.rule_type r with
  | AGE_MIN | AGE_MAX => is_ok (Py.int (EligibilityRule.value r))
  | INCOME_MAX => is_ok (Py.float (EligibilityRule.value r))
  | CUSTOM =>
      if String.eqb (EligibilityRule.condition r) "child_age_max"
      then is_ok (Py.int (EligibilityRule.value r)) else true
  | _ => true
  end.

Definition catalog_parses (catalog : list Scheme.t) : bool :=
  forallb (fun s => forallb rule_parses (Scheme.eligibility_rules s)) catalog.

(** The rule holds for the citizen. *)
Definition holds (c : CitizenProfile.t) (r : EligibilityRule.t) : bool :=
  match evaluate_rule r c with Ok b => b | Raise _ => false end.

Definition fails (c : CitizenProfile.t) (r : EligibilityRule.t) : bool :=
  negb (holds c r).

(** [rule.description or rule.rule_id] *)
Definition rule_label (r : EligibilityRule.t) : string :=
  Py.str_or (EligibilityRule.description r) (EligibilityRule.rule_id r).

(** The fraction of the rules of [s] that hold for [c]; 1 without rules. *)
Definition satisfied_fraction (c : CitizenProfile.t) (s : Scheme.t) : Q :=
  match Scheme.eligibility_rules s with
  | [] => 1
  | rules => inject_Z (Z.of_nat (length (List.filter (holds c) rules)))
             / inject_Z (Z.of_nat (length rules))
  end.

Definition unranked (m : SchemeMatch.t) : SchemeMatch.t :=
  SchemeMatch.set_rank m 0.




(** Every edge joins two nodes of the graph. *)
Definition wf_graph (g : DiGraph.t) : Prop :=
  forall e, e ∈ DiGraph.edges g ->
    DiGraph.src e ∈ DiGraph.nodes g /\ DiGraph.dst e ∈ DiGraph.nodes g.

(** [u] has an edge to [v] whose relation is [r]. *)
Definition has_edge (g : DiGraph.t) (r : Relation) (u v : string) : Prop :=
  DiGraph.get_edge_data g u v = Some r.

(** [dep_path g k a b]: [b] is reached from [a] by [k] steps, each from a
    scheme to one that declares a DEPENDS_ON edge to it. *)
Inductive dep_path (g : DiGraph.t) : nat -> string -> string -> Prop :=
| dep_path_0 a : dep_path g 0 a a
| dep_path_S k a b c :
    dep_path g k a b -> has_edge g DEPENDS_ON c b -> dep_path g (S k) a c.

(** [d] is the least number of such steps in which [x] is reached from [a]. *)
Definition distance (g : DiGraph.t) (a x : string) (d : nat) : Prop :=
  dep_path g d a x /\ forall k, (k < d)%nat -> ~ dep_path g k a x.

(** No element of [l] is nearer to [a] than an element before it. *)
Definition by_distance (g : DiGraph.t) (a : string) (l : list string) : Prop :=
  forall i j x y dx dy, (i < j)%nat ->
    l !! i = Some x -> l !! j = Some y ->
    distance g a x dx -> distance g a y dy -> (dx <= dy)%nat.

(** What holds of the frontier, the visited set and the result list after
    [d] levels of the walk from [start]. *)
Record chain_inv (g : DiGraph.t) (start : string) (d : nat)
    (frontier : list string) (vis : gset string) (deps : list string) : Prop := {
  inv_nodes : forall c, c ∈ frontier -> c ∈ DiGraph.nodes g;
  inv_visited : vis = {[start]} ∪ list_to_set deps;
  inv_nodup : NoDup deps;
  inv_start : start ∉ deps;
  inv_frontier : forall c, c ∈ frontier -> dep_path g d start c;
  inv_sound : forall x, x ∈ deps ->
    exists k, (1 <= k <= d)%nat /\ distance g start x k;
  inv_complete : forall k x, (k <= d)%nat -> dep_path g k start x -> x ∈ vis;
  inv_level : forall x, dep_path g d start x ->
    x ∈ frontier \/ exists k, (k < d)%nat /\ dep_path g k start x;
  inv_order : by_distance g start deps;
}.

(** The result of the walk: exactly the schemes other than [start] that
    are reached within the allowed number of levels, each once, nearer
    ones first. *)
Definition chain_result (g : DiGraph.t) (start : string) (levels : nat)
    (l : list string) : Prop :=
  NoDup l /\ (start ∉ l) /\
  (forall x, x ∈ l <->
     (x ≠ start) /\ exists k, (1 <= k <= levels)%nat /\ dep_path g k start x) /\
  by_distance g start l.





(** ** Example inputs *)

(** The age rule of the Ujjwala scheme, and a woman of 20. *)
Definition rule_age_min_18 : EligibilityRule.t :=
  EligibilityRule.mk "uj_3" AGE_MIN ">=" "18" "Age ≥ 18".

Definition citizen_aged_20 : CitizenProfile.t :=
  CitizenProfile.mk (Some 20) FEMALE "" "" GENERAL 0 OTHER_OCCUPATION NONE
    false false false false [] "" [].

(** A catalog whose two schemes depend on each other. *)
Definition cyclic_catalog : list Scheme.t :=
  [ Scheme.mk "a" "A" 0 [] [] 1 ["b"] [];
    Scheme.mk "b" "B" 0 [] [] 1 ["a"] [] ].

(** A woman of 30 who is not below the poverty line: two of the three
    rules of the Ujjwala scheme hold for her. *)
Definition citizen_two_of_three : CitizenProfile.t :=
  CitizenProfile.mk (Some 30) FEMALE "" "" GENERAL 0 OTHER_OCCUPATION NONE
    false false false false [] "" [].

(** A scheme whose age rule carries a value that is not a number. *)
Definition malformed_rule : EligibilityRule.t :=
  EligibilityRule.mk "bad_1" AGE_MIN ">=" "abc" "Age ≥ abc".

Definition malformed_scheme : Scheme.t :=
  Scheme.mk "bad" "Scheme with a malformed rule" 100 [malformed_rule] []
    (9 # 10) [] [].

(** Seven schemes in a row, each depending on the one before it. *)
Definition chain_catalog : list Scheme.t :=
  [ Scheme.mk "s0" "S0" 0 [] [] 1 [] [];
    Scheme.mk "s1" "S1" 0 [] [] 1 ["s0"] [];
    Scheme.mk "s2" "S2" 0 [] [] 1 ["s1"] [];
    Scheme.mk "s3" "S3" 0 [] [] 1 ["s2"] [];
    Scheme.mk "s4" "S4" 0 [] [] 1 ["s3"] [];
    Scheme.mk "s5" "S5" 0 [] [] 1 ["s4"] [];
    Scheme.mk "s6" "S6" 0 [] [] 1 ["s5"] [] ].

(** The repository's catalog followed by that scheme. *)
Definition corrupted_catalog : list Scheme.t := SCHEMES ++ [malformed_scheme].

(** A citizen of 30 with Aadhaar number and bank account but no uploaded
    document. *)
Definition citizen_no_documents : CitizenProfile.t :=
  CitizenProfile.mk (Some 30) MALE "123456789012" "" GENERAL 0
    OTHER_OCCUPATION NONE false false false false [] "1234567890" [].

(** ** Vocabulary and inputs of the further properties *)

(** The child-age rule of the Sukanya scheme with a value that is not a
    number, and a mother of one son. *)
Definition rule_child_age_bad : EligibilityRule.t :=
  EligibilityRule.mk "ssy_2" CUSTOM "child_age_max" "ten" "Daughter's age ≤ 10".

Definition citizen_with_son : CitizenProfile.t :=
  CitizenProfile.mk (Some 35) FEMALE "" "" GENERAL 0 OTHER_OCCUPATION NONE
    false false false false [FamilyMember.mk "child" 4 MALE] "" [].

(** An education rule whose level is written with a capital letter. *)
Definition rule_education_capitalised : EligibilityRule.t :=
  EligibilityRule.mk "edu_1" EDUCATION_MIN ">=" "Graduate" "Graduate or above".

(** A has-children rule, the has-daughters rule of the Sukanya scheme and
    a mother of one daughter of school age. *)
Definition rule_has_children : EligibilityRule.t :=
  EligibilityRule.mk "c_1" HAS_CHILDREN "==" "true" "Has children".

Definition rule_has_daughters : EligibilityRule.t :=
  EligibilityRule.mk "ssy_1" HAS_DAUGHTERS "==" "true" "Has daughter(s)".

Definition citizen_with_daughter : CitizenProfile.t :=
  CitizenProfile.mk (Some 35) FEMALE "" "" GENERAL 0 OTHER_OCCUPATION NONE
    false false false false [FamilyMember.mk "child" 7 FEMALE] "" [].

(** The scheme ids of a catalog, in catalog order. *)
Definition catalog_ids (catalog : list Scheme.t) : list string :=
  Scheme.scheme_id <$> catalog.

(** What [_build] declares with an edge, by its relation. *)
Definition edge_declared (catalog : list Scheme.t) (e : DiGraph.edge) : Prop :=
  exists s, s ∈ catalog /\
    match DiGraph.rel e with
    | REQUIRES =>
        DiGraph.src e = Scheme.scheme_id s /\
        exists r, r ∈ Scheme.eligibility_rules s /\
          DiGraph.dst e = ("rule_" ++ EligibilityRule.rule_id r)%string
    | NEEDS_DOCUMENT =>
        DiGraph.src e = Scheme.scheme_id s /\
        exists d, d ∈ Scheme.required_documents s /\
          DiGraph.dst e = ("doc_" ++ d)%string
    | DEPENDS_ON =>
        DiGraph.src e = Scheme.scheme_id s /\
        DiGraph.dst e ∈ Scheme.depends_on s /\
        DiGraph.dst e ∈ catalog_ids catalog
    | CONFLICTS_WITH =>
        (DiGraph.src e = Scheme.scheme_id s /\
         DiGraph.dst e ∈ Scheme.conflicts_with s /\
         DiGraph.dst e ∈ catalog_ids catalog) \/
        (DiGraph.dst e = Scheme.scheme_id s /\
         DiGraph.src e ∈ Scheme.conflicts_with s /\
         DiGraph.src e ∈ catalog_ids catalog)
    end.

(** Every edge of the graph is declared by the catalog. *)
Definition edges_declared (catalog : list Scheme.t) (g : DiGraph.t) : Prop :=
  forall e, e ∈ DiGraph.edges g -> edge_declared catalog e.

(** [names] are the names of the schemes [ids], one for one. *)
Definition names_of (catalog : list Scheme.t) (ids names : list string) : Prop :=
  Forall2 (fun i n => exists s, scheme_map catalog !! i = Some s /\
                                Scheme.name s = n) ids names.

(** The node types that [_build] assigns. *)
Definition NODE_TYPES : list string := ["scheme"; "rule"; "document"].

(** Every node of the graph has one of these types, or is the id of a
    catalog scheme. *)
Definition nodes_typed (catalog : list Scheme.t) (gt : typed_graph) : Prop :=
  (forall n ty, gt.2 !! n = Some ty -> ty ∈ NODE_TYPES) /\
  (forall n, n ∈ DiGraph.nodes gt.1 ->
     is_Some (gt.2 !! n) \/ n ∈ catalog_ids catalog).

(** A step keeps the types of the typed nodes. *)
Definition keeps_types (gt gt' : typed_graph) : Prop :=
  forall n, is_Some (gt.2 !! n) -> is_Some (gt'.2 !! n).

(** The report carries the ids of the pair and the catalog names of both. *)
Definition report_names (catalog : list Scheme.t) (pair : string * string)
    (r : EligibilityAgent.conflict_report) : Prop :=
  EligibilityAgent.scheme_a r = pair.1 /\
  EligibilityAgent.scheme_b r = pair.2 /\
  (exists s, scheme_map catalog !! pair.1 = Some s /\
             EligibilityAgent.scheme_a_name r = Scheme.name s) /\
  (exists s, scheme_map catalog !! pair.2 = Some s /\
             EligibilityAgent.scheme_b_name r = Scheme.name s).

(** The citizen with another list of uploaded documents. *)
Definition set_documents (c : CitizenProfile.t) (docs : list string)
  : CitizenProfile.t :=
  CitizenProfile.mk (CitizenProfile.age c) (CitizenProfile.gender c)
    (CitizenProfile.aadhaar_number c) (CitizenProfile.address_state c)
    (CitizenProfile.caste_category c) (CitizenProfile.annual_income c)
    (CitizenProfile.occupation c) (CitizenProfile.education c)
    (CitizenProfile.is_bpl c) (CitizenProfile.is_disabled c)
    (CitizenProfile.is_minority c) (CitizenProfile.is_pregnant c)
    (CitizenProfile.family_members c) (CitizenProfile.bank_account c) docs.

(** The match without its list of missing documents. *)
Definition clear_missing (m : SchemeMatch.t) : SchemeMatch.t :=
  SchemeMatch.mk (SchemeMatch.scheme m) (SchemeMatch.eligibility_score m)
    (SchemeMatch.matched_rules m) (SchemeMatch.failed_rules m) []
    (SchemeMatch.estimated_benefit m) (SchemeMatch.approval_probability m)
    (SchemeMatch.is_eligible m) (SchemeMatch.rank m) (SchemeMatch.conflicts m)
    (SchemeMatch.unlocks m).

(** The result with [f] applied to the returned value. *)
Definition result_map {A B} (f : A -> B) (r : result A) : result B :=
  match r with Ok a => Ok (f a) | Raise e => Raise e end.

(** What a loop over the rules adds to the accumulators does not depend
    on what they hold. *)
Definition adds (step : Validation.acc -> result Validation.acc)
    (fs : list RiskFactor.t) (delta : Q) : Prop :=
  forall a, exists q, step a = Ok (a.1 ++ fs, q) /\ (q == a.2 + delta)%Q.

(** The risk factor has this name. *)
Definition named (name : string) (f : RiskFactor.t) : Prop :=
  RiskFactor.factor f = name.

(** The risk factors of a missing Aadhaar number and of a missing bank
    account. *)
Definition aadhaar_factor : RiskFactor.t :=
  RiskFactor.mk "Missing Aadhaar" "critical" 0.25.

Definition bank_factor : RiskFactor.t :=
  RiskFactor.mk "No Bank Account Linked" "high" 0.15.

(** The four fixed lines of [_generate_recommendations]. *)
Definition AADHAAR_LINE : string :=
  "Link your Aadhaar number — this is mandatory for Direct Benefit Transfer".
Definition BANK_LINE : string :=
  "Open a Jan Dhan account if you don't have one — it's zero-balance and free".
Definition INCOME_LINE : string :=
  "Ensure income certificate matches your actual declared income to avoid mismatch".
Definition AGE_LINE : string :=
  "Submit application before your birthdate crosses the age cutoff".

(** The first feature: the share of the required documents that is held. *)
Definition doc_completeness (s : Scheme.t) (docs : list string) : Q :=
  let missing := Z.of_nat (length (missing_docs (Scheme.required_documents s) docs)) in
  let total_docs := Z.of_nat (length (Scheme.required_documents s)) in
  if total_docs =? 0 then 1%Q
  else (1 - inject_Z missing / inject_Z total_docs)%Q.

(** Every draw of the generator gives 0.01. *)
Definition constant_noise : nat -> Q := fun _ => 0.01%Q.

(** * Properties *)

(** ** Rule evaluation on the numeric kinds *)

Lemma is_ok_true {A} (r : result A) : is_ok r = true -> exists a, r = Ok a.
Proof. destruct r; [eauto | discriminate]. Qed.

Lemma le_float_antitone (x1 x2 : Q) (y : Py.pyfloat) :
  (x1 <= x2)%Q -> Py.le_float x2 y = true -> Py.le_float x1 y = true.
Proof.
  destruct y as [q| | |]; simpl; try done.
  rewrite !Qle_bool_iff. intros H12 H2. by apply Qle_trans with x2.
Qed.

Lemma le_float_proper (x1 x2 : Q) (y : Py.pyfloat) :
  (x1 == x2)%Q -> Py.le_float x1 y = Py.le_float x2 y.
Proof.
  intros Heq. destruct y as [q| | |]; simpl; try done.
  apply eq_true_iff_eq. rewrite !Qle_bool_iff. by rewrite Heq.
Qed.

(** C8. On a rule of kind age_min, age_max or income_max whose value
    parses, [evaluate_rule] returns a boolean that is a function of the
    compared field alone (the age, 0 when absent, or the annual income),
    non-decreasing in the age for age_min and non-increasing in the age
    for age_max and in the income for income_max. *)
Theorem evaluate_rule_deterministic_monotonic
    (r : EligibilityRule.t) (c1 c2 : CitizenProfile.t) :
  numeric_well_formed r = true ->
  let rt := EligibilityRule.rule_type r in
  exists b1 b2 : bool,
    evaluate_rule r c1 = Ok b1 /\ evaluate_rule r c2 = Ok b2 /\
    ((compared_field rt c1 == compared_field rt c2)%Q -> b1 = b2) /\
    ((compared_field rt c1 <= compared_field rt c2)%Q ->
     match rt with
     | AGE_MIN => b1 = true -> b2 = true
     | _ => b2 = true -> b1 = true
     end).
Proof.
  unfold numeric_well_formed, evaluate_rule, compared_field.
  destruct (EligibilityRule.rule_type r) eqn:Hrt; try discriminate;
    intros Hwf; apply is_ok_true in Hwf as [n Hn]; rewrite Hn; simpl;
    eexists _, _; (split; [reflexivity|]); (split; [reflexivity|]).
  - rewrite inject_Z_injective, <- Zle_Qle. split.
    + by intros ->.
    + rewrite !Z.leb_le. lia.
  - rewrite inject_Z_injective, <- Zle_Qle. split.
    + by intros ->.
    + rewrite !Z.leb_le. lia.
  - split.
    + apply le_float_proper.
    + apply le_float_antitone.
Qed.

Lemma evaluate_rule_deterministic_monotonic_witness :
  exists b1 b2 : bool,
    evaluate_rule rule_age_min_18 CitizenProfile.default = Ok b1 /\
    evaluate_rule rule_age_min_18 citizen_aged_20 = Ok b2 /\
    ((compared_field AGE_MIN CitizenProfile.default
      == compared_field AGE_MIN citizen_aged_20)%Q -> b1 = b2) /\
    ((compared_field AGE_MIN CitizenProfile.default
      <= compared_field AGE_MIN citizen_aged_20)%Q ->
     b1 = true -> b2 = true).
Proof.
  apply (evaluate_rule_deterministic_monotonic rule_age_min_18
           CitizenProfile.default citizen_aged_20).
  reflexivity.
Defined.

(** ** The graph built from a catalog *)

Lemma elem_of_add_node_list n m ns :
  n ∈ DiGraph.add_node_list m ns <-> n = m \/ n ∈ ns.
Proof.
  unfold DiGraph.add_node_list. case_bool_decide as Hm.
  - split; [auto | intros [->|]; auto].
  - rewrite elem_of_app, list_elem_of_singleton. tauto.
Qed.

Lemma elem_of_put_edge e u v r es :
  e ∈ DiGraph.put_edge u v r es -> e = (u, v, r) \/ e ∈ es.
Proof.
  induction es as [|e' es IH]; simpl.
  - rewrite list_elem_of_singleton. auto.
  - destruct (bool_decide (DiGraph.src e' = u) && bool_decide (DiGraph.dst e' = v)).
    + rewrite !elem_of_cons. tauto.
    + rewrite !elem_of_cons. intros [->|H]; [auto|]. destruct (IH H); auto.
Qed.

Lemma wf_add_node n g : wf_graph g -> wf_graph (DiGraph.add_node n g).
Proof.
  intros Hwf e He. destruct (Hwf e He) as [Hs Hd]. simpl.
  rewrite !elem_of_add_node_list. auto.
Qed.

Lemma wf_add_edge u v r g : wf_graph g -> wf_graph (DiGraph.add_edge u v r g).
Proof.
  intros Hwf e He. simpl in *. rewrite !elem_of_add_node_list.
  apply elem_of_put_edge in He as [->|He]; simpl; [auto|].
  destruct (Hwf e He). auto.
Qed.

Lemma nodes_add_node n m g :
  n ∈ DiGraph.nodes g -> n ∈ DiGraph.nodes (DiGraph.add_node m g).
Proof. simpl. rewrite elem_of_add_node_list. auto. Qed.

Lemma nodes_add_edge n u v r g :
  n ∈ DiGraph.nodes g -> n ∈ DiGraph.nodes (DiGraph.add_edge u v r g).
Proof. simpl. rewrite !elem_of_add_node_list. auto. Qed.

(** An invariant kept by every step of a left fold is kept by the fold. *)
Lemma fold_left_invariant {S X} (P : S -> Prop) (f : S -> X -> S) xs s :
  (forall s x, P s -> P (f s x)) -> P s -> P (fold_left f xs s).
Proof. intros Hf. revert s. induction xs; simpl; auto. Qed.

Lemma build_scheme_wf catalog g s : wf_graph g -> wf_graph (build_scheme catalog g s).
Proof.
  intros Hwf. unfold build_scheme.
  repeat apply fold_left_invariant; try by apply wf_add_node.
  - intros g' x Hg'. unfold build_conflict.
    destruct (in_scheme_map _ _); [|done]. by do 2 apply wf_add_edge.
  - intros g' x Hg'. unfold build_dep.
    destruct (in_scheme_map _ _); [|done]. by apply wf_add_edge.
  - intros g' x Hg'. unfold build_doc. apply wf_add_edge.
    destruct (DiGraph.has_node _ _); [done|]. by apply wf_add_node.
  - intros g' x Hg'. unfold build_rule. by apply wf_add_edge, wf_add_node.
Qed.

Lemma build_scheme_nodes catalog g s n :
  n ∈ DiGraph.nodes g -> n ∈ DiGraph.nodes (build_scheme catalog g s).
Proof.
  intros Hn. unfold build_scheme.
  repeat apply (fold_left_invariant (fun g => n ∈ DiGraph.nodes g));
    try by apply nodes_add_node.
  - intros g' x Hg'. unfold build_conflict.
    destruct (in_scheme_map _ _); [|done]. by do 2 apply nodes_add_edge.
  - intros g' x Hg'. unfold build_dep.
    destruct (in_scheme_map _ _); [|done]. by apply nodes_add_edge.
  - intros g' x Hg'. unfold build_doc. apply nodes_add_edge.
    destruct (DiGraph.has_node _ _); [done|]. by apply nodes_add_node.
  - intros g' x Hg'. unfold build_rule. by apply nodes_add_edge, nodes_add_node.
Qed.

Lemma build_scheme_own_node catalog g s :
  Scheme.scheme_id s ∈ DiGraph.nodes (build_scheme catalog g s).
Proof.
  unfold build_scheme.
  repeat apply (fold_left_invariant
                  (fun g => Scheme.scheme_id s ∈ DiGraph.nodes g)).
  - intros g' x Hg'. unfold build_conflict.
    destruct (in_scheme_map _ _); [|done]. by do 2 apply nodes_add_edge.
  - intros g' x Hg'. unfold build_dep.
    destruct (in_scheme_map _ _); [|done]. by apply nodes_add_edge.
  - intros g' x Hg'. unfold build_doc. apply nodes_add_edge.
    destruct (DiGraph.has_node _ _); [done|]. by apply nodes_add_node.
  - intros g' x Hg'. unfold build_rule. by apply nodes_add_edge, nodes_add_node.
  - simpl. rewrite elem_of_add_node_list. auto.
Qed.

Lemma fold_build_wf catalog schemes g :
  wf_graph g -> wf_graph (fold_left (build_scheme catalog) schemes g).
Proof.
  apply (fold_left_invariant wf_graph). intros. by apply build_scheme_wf.
Qed.

Lemma fold_build_nodes catalog schemes g s :
  s ∈ schemes \/ Scheme.scheme_id s ∈ DiGraph.nodes g ->
  Scheme.scheme_id s ∈ DiGraph.nodes (fold_left (build_scheme catalog) schemes g).
Proof.
  revert g. induction schemes as [|s' schemes IH]; intros g; simpl.
  - intros [H|H]; [by apply elem_of_nil in H | done].
  - rewrite elem_of_cons. intros [[->|H]|H]; apply IH; auto.
    + right. apply build_scheme_own_node.
    + right. by apply build_scheme_nodes.
Qed.

Lemma build_wf catalog : wf_graph (_build catalog).
Proof. apply fold_build_wf. intros e He. by apply elem_of_nil in He. Qed.

Lemma build_has_scheme catalog s :
  s ∈ catalog -> Scheme.scheme_id s ∈ DiGraph.nodes (_build catalog).
Proof. intros. apply fold_build_nodes. auto. Qed.

(** ** Benefit chains *)

Lemma has_edge_inv g r u v :
  has_edge g r u v -> (u, v, r) ∈ DiGraph.edges g.
Proof.
  unfold has_edge, DiGraph.get_edge_data.
  destruct (List.find _ _) as [[[u' v'] r']|] eqn:Hfind; [|done].
  simpl. intros [= ->]. apply find_some in Hfind as [Hin Hb].
  apply andb_true_iff in Hb as [Hu Hv].
  apply bool_decide_eq_true in Hu, Hv. simpl in *. subst.
  by apply list_elem_of_In.
Qed.

Lemma has_edge_pred g r u v : has_edge g r u v -> u ∈ DiGraph.pred_list g v.
Proof.
  intros H%has_edge_inv. unfold DiGraph.pred_list.
  apply list_elem_of_fmap. exists (u, v, r). split; [done|].
  apply list_elem_of_In, filter_In. split; [by apply list_elem_of_In|].
  by apply bool_decide_eq_true.
Qed.

Lemma has_edge_succ g r u v : has_edge g r u v -> v ∈ DiGraph.succ_list g u.
Proof.
  intros H%has_edge_inv. unfold DiGraph.succ_list.
  apply list_elem_of_fmap. exists (u, v, r). split; [done|].
  apply list_elem_of_In, filter_In. split; [by apply list_elem_of_In|].
  by apply bool_decide_eq_true.
Qed.

Lemma has_edge_nodes g r u v :
  wf_graph g -> has_edge g r u v -> u ∈ DiGraph.nodes g /\ v ∈ DiGraph.nodes g.
Proof. intros Hwf H%has_edge_inv. apply (Hwf _ H). Qed.

Lemma predecessors_ok g n :
  n ∈ DiGraph.nodes g -> DiGraph.predecessors g n = Ok (DiGraph.pred_list g n).
Proof.
  intros Hn. unfold DiGraph.predecessors, DiGraph.has_node.
  by rewrite bool_decide_eq_true_2.
Qed.

Lemma predecessors_raise g n :
  n ∉ DiGraph.nodes g -> DiGraph.predecessors g n = Raise (NetworkXError n).
Proof.
  intros Hn. unfold DiGraph.predecessors, DiGraph.has_node.
  by rewrite bool_decide_eq_false_2.
Qed.

Lemma dep_path_app g j k a b c :
  dep_path g j a b -> dep_path g k b c -> dep_path g (j + k) a c.
Proof.
  intros Hab Hbc. induction Hbc as [|k b c d _ IH Hedge].
  - by rewrite Nat.add_0_r.
  - rewrite Nat.add_succ_r. by eapply dep_path_S; [apply IH|].
Qed.

Lemma dep_path_split g j k a c :
  dep_path g (j + k) a c -> exists b, dep_path g j a b /\ dep_path g k b c.
Proof.
  revert c. induction k as [|k IH]; intros c.
  - rewrite Nat.add_0_r. intros H. exists c. split; [done|constructor].
  - rewrite Nat.add_succ_r. inversion 1 as [|k' a' b c' Hab Hedge]; subst.
    destruct (IH _ Hab) as (m & Ham & Hmb).
    exists m. split; [done|]. by eapply dep_path_S.
Qed.

Lemma distance_unique g a x d1 d2 :
  distance g a x d1 -> distance g a x d2 -> d1 = d2.
Proof.
  intros [Hp1 Hmin1] [Hp2 Hmin2].
  destruct (lt_eq_lt_dec d1 d2) as [[Hlt|Heq]|Hgt]; [|done|].
  - by destruct (Hmin2 d1 Hlt).
  - by destruct (Hmin1 d2 Hgt).
Qed.

(** Once a level brings nothing new, no later level does. *)
Lemma dep_path_saturated g a d :
  (forall x, dep_path g (S d) a x -> exists k, (k <= d)%nat /\ dep_path g k a x) ->
  forall m x, dep_path g m a x -> exists k, (k <= d)%nat /\ dep_path g k a x.
Proof.
  intros Hsat m. induction m as [m IH] using lt_wf_ind. intros x Hx.
  destruct (decide (m <= d)%nat) as [|Hgt]; [by eauto|].
  replace m with (S d + (m - S d))%nat in Hx by lia.
  apply dep_path_split in Hx as (w & Haw & Hwx).
  destruct (Hsat _ Haw) as (k & Hk & Hak).
  apply (IH (k + (m - S d))%nat); [lia|]. by eapply dep_path_app.
Qed.

(** The effect of the inner loop over the predecessors of [current]: the
    unvisited ones with a DEPENDS_ON edge are appended, once each. *)
Lemma visit_fold g current preds st :
  exists new,
    let st' := fold_left (Chain.visit g current) preds st in
    Chain.visited st' = Chain.visited st ∪ list_to_set new /\
    Chain.dependents st' = Chain.dependents st ++ new /\
    Chain.next_frontier st' = Chain.next_frontier st ++ new /\
    NoDup new /\
    forall u, u ∈ new <->
      u ∈ preds /\ has_edge g DEPENDS_ON u current /\ (u ∉ Chain.visited st).
Proof.
  revert st. induction preds as [|p preds IH]; intros st; simpl.
  - exists []. simpl. rewrite !app_nil_r, union_empty_r_L.
    split_and!; [done..|apply NoDup_nil_2|].
    intros u. split; [by intros ?%elem_of_nil | by intros [?%elem_of_nil _]].
  - destruct (IH (Chain.visit g current st p)) as (new & Hv & Hd & Hn & Hnd & Hin).
    unfold Chain.visit in *.
    destruct (bool_decide (DiGraph.get_edge_data g p current = Some DEPENDS_ON)
              && bool_decide (p ∉ Chain.visited st)) eqn:Hcond; simpl in *.
    + apply andb_true_iff in Hcond as [He Hp].
      apply bool_decide_eq_true in He, Hp.
      exists (p :: new). rewrite Hv, Hd, Hn, <- !app_assoc. simpl.
      split_and!; [by rewrite (assoc_L (∪))|done|done| |].
      * apply NoDup_cons. split; [|done]. rewrite Hin.
        intros (_ & _ & Hnv). apply Hnv, elem_of_union_r. by apply elem_of_singleton.
      * intros u. rewrite !elem_of_cons, Hin, elem_of_union, elem_of_singleton.
        split.
        -- intros [->|(? & ? & ?)]; [by auto|].
           split_and!; [by right|done|tauto].
        -- intros ([->|Hu] & Hedge & Hnv); [by left|].
           destruct (decide (u = p)) as [->|Hne]; [by left|right].
           split_and!; [done..|tauto].
    + exists new. rewrite Hv, Hd, Hn. split_and!; [done..|].
      intros u. rewrite Hin, elem_of_cons. split.
      * intros (? & ? & ?). split_and!; [by right|done..].
      * intros ([->|Hu] & Hedge & Hnv); [|done].
        apply andb_false_iff in Hcond as [H|H];
          apply bool_decide_eq_false in H; by destruct H.
Qed.

(** The effect of one level: every unvisited scheme with a DEPENDS_ON edge
    into the frontier is appended, once. *)
Lemma scan_spec g frontier st :
  (forall c, c ∈ frontier -> c ∈ DiGraph.nodes g) ->
  exists new st',
    Chain.scan g frontier st = Ok st' /\
    Chain.visited st' = Chain.visited st ∪ list_to_set new /\
    Chain.dependents st' = Chain.dependents st ++ new /\
    Chain.next_frontier st' = Chain.next_frontier st ++ new /\
    NoDup new /\
    forall u, u ∈ new <->
      (u ∉ Chain.visited st) /\
      exists c, c ∈ frontier /\ has_edge g DEPENDS_ON u c.
Proof.
  revert st. induction frontier as [|c rest IH]; intros st Hnodes; simpl.
  - exists [], st. simpl. rewrite !app_nil_r, union_empty_r_L.
    split_and!; [done..|apply NoDup_nil_2|].
    intros u. split; [by intros ?%elem_of_nil|].
    by intros (_ & c & ?%elem_of_nil & _).
  - rewrite predecessors_ok by (apply Hnodes; left). simpl.
    destruct (visit_fold g c (DiGraph.pred_list g c) st)
      as (new1 & Hv1 & Hd1 & Hn1 & Hnd1 & Hin1).
    simpl in *. set (st1 := fold_left _ _ st) in *.
    destruct (IH st1) as (new2 & st' & Hscan & Hv2 & Hd2 & Hn2 & Hnd2 & Hin2).
    { intros c' Hc'. apply Hnodes. by right. }
    exists (new1 ++ new2), st'. rewrite Hscan, Hv2, Hd2, Hn2, Hv1, Hd1, Hn1.
    rewrite list_to_set_app_L, !app_assoc, (assoc_L (∪)).
    split_and!; [done..| |].
    + apply NoDup_app. split_and!; [done| |done].
      intros u Hu1 Hu2. apply Hin2 in Hu2 as [Hu2 _].
      apply Hu2. rewrite Hv1. apply elem_of_union_r.
      by apply elem_of_list_to_set.
    + intros u. rewrite elem_of_app, Hin1, Hin2, Hv1. split.
      * intros [(_ & Hedge & Hnv)|(Hnv & c' & Hc' & Hedge)].
        -- split; [done|]. exists c. split; [left|done].
        -- split; [|exists c'; split; [by right|done]].
           intros Hu. apply Hnv. by apply elem_of_union_l.
      * intros (Hnv & c' & Hc' & Hedge).
        apply elem_of_cons in Hc' as [->|Hc'].
        -- left. split_and!; [|done..]. by eapply has_edge_pred.
        -- destruct (decide (u ∈ new1)) as [Hu1|Hu1].
           ++ left. by apply Hin1.
           ++ right. split; [|by exists c'].
              rewrite elem_of_union, elem_of_list_to_set. tauto.
Qed.

Lemma chain_inv_result g start d frontier vis deps hops :
  chain_inv g start d frontier vis deps ->
  (hops = 0%nat \/ forall x, dep_path g (S d) start x ->
                    exists k, (k <= d)%nat /\ dep_path g k start x) ->
  chain_result g start (d + hops) deps.
Proof.
  intros [] Hstop. split_and!; [done..| |done].
  intros x. split.
  - intros Hx. split; [by intros ->|].
    destruct (inv_sound0 x Hx) as (k & Hk & Hp & _).
    exists k. split; [lia|done].
  - intros (Hne & k & Hk & Hp).
    assert (x ∈ vis) as Hvis.
    { destruct Hstop as [->|Hsat].
      - apply (inv_complete0 k); [lia|done].
      - destruct (dep_path_saturated g start d Hsat k x Hp) as (k' & Hk' & Hp').
        by apply (inv_complete0 k'). }
    rewrite inv_visited0, elem_of_union, elem_of_singleton,
      elem_of_list_to_set in Hvis.
    by destruct Hvis.
Qed.

Lemma loop_S g hops frontier vis deps st :
  Chain.scan g frontier (Chain.mk vis deps []) = Ok st ->
  Chain.loop g (S hops) frontier vis deps =
  if decide (Chain.next_frontier st = []) then Ok (Chain.dependents st)
  else Chain.loop g hops (Chain.next_frontier st) (Chain.visited st)
         (Chain.dependents st).
Proof. intros H. simpl. rewrite H. simpl. by destruct (Chain.next_frontier st). Qed.

Lemma loop_spec g start hops : forall d frontier vis deps,
  wf_graph g ->
  chain_inv g start d frontier vis deps ->
  exists l, Chain.loop g hops frontier vis deps = Ok l /\
            chain_result g start (d + hops) l.
Proof.
  induction hops as [|hops IH]; intros d frontier vis deps Hwf Hinv.
  - exists deps. split; [done|]. eapply chain_inv_result; eauto.
  - destruct (scan_spec g frontier (Chain.mk vis deps []))
      as (new & st' & Hscan & Hv & Hd & Hn & Hnd & Hin);
      [by destruct Hinv|].
    rewrite (loop_S _ _ _ _ _ _ Hscan). simpl in Hv, Hd, Hn, Hin.
    rewrite Hn, Hd, Hv. clear Hscan Hn Hd Hv st'.
    assert (forall x, dep_path g (S d) start x ->
              x ∈ new \/ exists k, (k < S d)%nat /\ dep_path g k start x)
      as Hlevel.
    { intros x Hx. inversion Hx as [|k a b c Hab Hedge]; subst.
      destruct (inv_level _ _ _ _ _ _ Hinv b Hab) as [Hb|(k & Hk & Hp)].
      - destruct (decide (x ∈ vis)) as [Hvis|Hvis].
        + right. rewrite (inv_visited _ _ _ _ _ _ Hinv) in Hvis.
          apply elem_of_union in Hvis as [->%elem_of_singleton|Hdeps].
          * exists 0%nat. split; [lia|constructor].
          * apply elem_of_list_to_set in Hdeps.
            destruct (inv_sound _ _ _ _ _ _ Hinv x Hdeps) as (k & Hk & Hp & _).
            exists k. split; [lia|done].
        + left. apply Hin. split; [done|]. by exists b.
      - right. exists (S k). split; [lia|]. by eapply dep_path_S. }
    assert (forall x, x ∈ new -> distance g start x (S d)) as Hnew.
    { intros x (Hnv & b & Hb & Hedge)%Hin. split.
      - eapply dep_path_S; [|done]. by apply (inv_frontier _ _ _ _ _ _ Hinv).
      - intros k Hk Hp. apply Hnv.
        apply (inv_complete _ _ _ _ _ _ Hinv k); [lia|done]. }
    case_decide as Hempty.
    + subst new. rewrite app_nil_r. exists deps. split; [done|].
      eapply chain_inv_result; [done|]. right.
      intros x Hx. destruct (Hlevel x Hx) as [?%elem_of_nil|(k & Hk & Hp)];
        [done|]. exists k. split; [lia|done].
    + replace (d + S hops)%nat with (S d + hops)%nat by lia.
      apply IH; [done|]. destruct Hinv. split.
      * intros c Hc. apply Hin in Hc as (_ & b & _ & Hedge).
        by apply (has_edge_nodes g _ _ _ Hwf Hedge).
      * rewrite inv_visited0, list_to_set_app_L. by rewrite (assoc_L (∪)).
      * apply NoDup_app. split_and!; [done| |done].
        intros x Hx Hx'. apply Hin in Hx' as [Hx' _]. apply Hx'.
        rewrite inv_visited0. apply elem_of_union_r.
        by apply elem_of_list_to_set.
      * rewrite elem_of_app. intros [?|Hs]; [done|].
        apply Hin in Hs as [Hs _]. apply Hs. rewrite inv_visited0.
        apply elem_of_union_l. by apply elem_of_singleton.
      * intros c Hc. apply Hin in Hc as (_ & b & Hb & Hedge).
        eapply dep_path_S; [|done]. by apply inv_frontier0.
      * intros x. rewrite elem_of_app. intros [Hx|Hx].
        -- destruct (inv_sound0 x Hx) as (k & Hk & Hp).
           exists k. split; [lia|done].
        -- exists (S d). split; [lia|]. by apply Hnew.
      * intros k x Hk Hp.
        destruct (decide (k <= d)%nat) as [Hle|Hgt].
        -- apply elem_of_union_l. by apply (inv_complete0 k).
        -- assert (k = S d) as -> by lia.
           destruct (Hlevel x Hp) as [Hx|(k' & Hk' & Hp')].
           ++ apply elem_of_union_r. by apply elem_of_list_to_set.
           ++ apply elem_of_union_l. apply (inv_complete0 k'); [lia|done].
      * done.
      * intros i j x y dx dy Hij Hi Hj Hdx Hdy.
        apply lookup_app_Some in Hi as [Hi|[Hlen Hi]];
          apply lookup_app_Some in Hj as [Hj|[Hlen' Hj]].
        -- by apply (inv_order0 i j x y).
        -- apply list_elem_of_lookup_2 in Hi, Hj.
           destruct (inv_sound0 x Hi) as (k & Hk & Hdk).
           rewrite (distance_unique _ _ _ _ _ Hdx Hdk).
           rewrite (distance_unique _ _ _ _ _ Hdy (Hnew y Hj)). lia.
        -- apply lookup_lt_Some in Hj. lia.
        -- apply list_elem_of_lookup_2 in Hi, Hj.
           rewrite (distance_unique _ _ _ _ _ Hdx (Hnew x Hi)).
           by rewrite (distance_unique _ _ _ _ _ Hdy (Hnew y Hj)).
Qed.

Lemma find_benefit_chain_spec g start max_hops :
  wf_graph g -> start ∈ DiGraph.nodes g ->
  exists l, find_benefit_chain g start max_hops = Ok l /\
            chain_result g start (Z.to_nat max_hops) l.
Proof.
  intros Hwf Hstart. unfold find_benefit_chain.
  apply (loop_spec g start (Z.to_nat max_hops) 0); [done|]. split.
  - by intros c ->%list_elem_of_singleton.
  - simpl. by rewrite union_empty_r_L.
  - apply NoDup_nil_2.
  - by intros ?%elem_of_nil.
  - intros c ->%list_elem_of_singleton. constructor.
  - by intros x ?%elem_of_nil.
  - intros k x Hk Hp. assert (k = 0%nat) as -> by lia.
    inversion Hp; subst. by apply elem_of_singleton.
  - intros x Hp. inversion Hp; subst. left. by apply list_elem_of_singleton.
  - by intros i j x y dx dy _ Hi.
Qed.

(** C6. For every catalog, whatever the shape of its dependencies, and
    every scheme id of the catalog, [find_benefit_chain] with the default
    bound of 5 hops returns a list without repetition that holds exactly
    the schemes other than the start that are reached from it in one to five
    backward steps along DEPENDS_ON edges, the nearer ones first. *)
Theorem find_benefit_chain_bounded_bfs (catalog : list Scheme.t) (s : Scheme.t) :
  s ∈ catalog ->
  let g := _build catalog in
  let sid := Scheme.scheme_id s in
  exists l,
    find_benefit_chain g sid MAX_HOPS = Ok l /\
    NoDup l /\
    (forall x, x ∈ l <->
       (x ≠ sid) /\ exists k, (1 <= k <= 5)%nat /\ dep_path g k sid x) /\
    by_distance g sid l.
Proof.
  intros Hs g sid.
  destruct (find_benefit_chain_spec g sid MAX_HOPS)
    as (l & Hl & Hnd & _ & Hin & Hord).
  - apply build_wf.
  - by apply build_has_scheme.
  - exists l. by split_and!.
Qed.

Lemma find_benefit_chain_bounded_bfs_witness :
  exists l,
    find_benefit_chain (_build SCHEMES) "pm_jan_dhan" MAX_HOPS = Ok l /\
    NoDup l /\
    (forall x, x ∈ l <->
       (x ≠ "pm_jan_dhan") /\
       exists k, (1 <= k <= 5)%nat /\
                 dep_path (_build SCHEMES) k "pm_jan_dhan" x) /\
    by_distance (_build SCHEMES) "pm_jan_dhan" l.
Proof.
  apply (find_benefit_chain_bounded_bfs SCHEMES Catalog.pm_jan_dhan).
  unfold SCHEMES. repeat constructor.
Defined.

(** C10. For every node of the graph built from a catalog and every hop
    bound, [find_benefit_chain] returns a list that does not contain the
    start node, also when DEPENDS_ON edges form a cycle through it. *)
Theorem find_benefit_chain_excludes_start (catalog : list Scheme.t)
    (scheme_id : string) (max_hops : Z) :
  scheme_id ∈ DiGraph.nodes (_build catalog) ->
  exists l,
    find_benefit_chain (_build catalog) scheme_id max_hops = Ok l /\
    scheme_id ∉ l.
Proof.
  intros Hn.
  destruct (find_benefit_chain_spec (_build catalog) scheme_id max_hops)
    as (l & Hl & _ & Hstart & _); [apply build_wf|done|].
  by exists l.
Qed.

Lemma find_benefit_chain_excludes_start_witness :
  exists l,
    find_benefit_chain (_build cyclic_catalog) "a" MAX_HOPS = Ok l /\ "a" ∉ l.
Proof.
  apply (find_benefit_chain_excludes_start cyclic_catalog "a" MAX_HOPS).
  vm_compute. repeat constructor.
Defined.

Example find_benefit_chain_cycle :
  find_benefit_chain (_build cyclic_catalog) "a" MAX_HOPS = Ok ["b"].
Proof. vm_compute. reflexivity. Qed.

(** The sixth level is not reached. *)
Example find_benefit_chain_five_levels :
  find_benefit_chain (_build chain_catalog) "s0" MAX_HOPS
  = Ok ["s1"; "s2"; "s3"; "s4"; "s5"].
Proof. vm_compute. reflexivity. Qed.

Example find_benefit_chain_catalog :
  find_benefit_chain (_build SCHEMES) "pm_jan_dhan" MAX_HOPS
  = Ok ["pmay"; "standup_india"].
Proof. vm_compute. reflexivity. Qed.

(** ** Conflict detection *)

Lemma get_put_edge_eq u v r es :
  DiGraph.get_edge_data (DiGraph.mk [] (DiGraph.put_edge u v r es)) u v = Some r.
Proof.
  unfold DiGraph.get_edge_data. simpl.
  induction es as [|e es IH]; simpl.
  - by rewrite !bool_decide_eq_true_2.
  - destruct (bool_decide (DiGraph.src e = u) && bool_decide (DiGraph.dst e = v))
      eqn:He; simpl.
    + by rewrite !bool_decide_eq_true_2.
    + by rewrite He.
Qed.

Lemma get_put_edge_ne u v r u' v' es :
  (u, v) ≠ (u', v') ->
  DiGraph.get_edge_data (DiGraph.mk [] (DiGraph.put_edge u v r es)) u' v'
  = DiGraph.get_edge_data (DiGraph.mk [] es) u' v'.
Proof.
  intros Hne. unfold DiGraph.get_edge_data, DiGraph.src, DiGraph.dst. simpl.
  assert (bool_decide (u = u') && bool_decide (v = v') = false) as Hnew.
  { apply andb_false_iff.
    destruct (decide (u = u')) as [->|]; [right|left];
      apply bool_decide_eq_false; congruence. }
  induction es as [|[[a b] r0] es IH]; simpl.
  - by rewrite Hnew.
  - change (DiGraph.src (a, b, r0)) with a.
    change (DiGraph.dst (a, b, r0)) with b.
    destruct (bool_decide (a = u) && bool_decide (b = v)) eqn:He; simpl.
    + rewrite Hnew. apply andb_true_iff in He as [Hs Hd].
      apply bool_decide_eq_true in Hs, Hd. subst. by rewrite Hnew.
    + destruct (bool_decide (a = u') && bool_decide (b = v')); [done|apply IH].
Qed.

Lemma has_edge_add_edge_eq u v r g : has_edge (DiGraph.add_edge u v r g) r u v.
Proof. apply get_put_edge_eq. Qed.

Lemma has_edge_add_edge_ne u v r u' v' r' g :
  (u, v) ≠ (u', v') ->
  has_edge g r' u' v' -> has_edge (DiGraph.add_edge u v r g) r' u' v'.
Proof.
  intros Hne Hedge. unfold has_edge.
  etrans; [by apply get_put_edge_ne|done].
Qed.

(** A declared conflict with a scheme of the catalog is stored as a pair of
    edges, one in each direction. *)
Lemma build_conflict_symmetric catalog sid g conflict_id :
  in_scheme_map catalog conflict_id = true ->
  has_edge (build_conflict catalog sid g conflict_id) CONFLICTS_WITH
    sid conflict_id /\
  has_edge (build_conflict catalog sid g conflict_id) CONFLICTS_WITH
    conflict_id sid.
Proof.
  intros Hin. unfold build_conflict. rewrite Hin.
  split; [|apply has_edge_add_edge_eq].
  destruct (decide ((conflict_id, sid) = (sid, conflict_id))) as [Heq|Hne].
  - injection Heq as -> _. apply has_edge_add_edge_eq.
  - apply has_edge_add_edge_ne; [done|apply has_edge_add_edge_eq].
Qed.

Example conflict_edges_of_catalog :
  has_edge (_build SCHEMES) CONFLICTS_WITH "sukanya_samriddhi" "beti_bachao" /\
  has_edge (_build SCHEMES) CONFLICTS_WITH "beti_bachao" "sukanya_samriddhi".
Proof. split; vm_compute; reflexivity. Qed.

Lemma successors_ok g n :
  n ∈ DiGraph.nodes g -> DiGraph.successors g n = Ok (DiGraph.succ_list g n).
Proof.
  intros Hn. unfold DiGraph.successors, DiGraph.has_node.
  by rewrite bool_decide_eq_true_2.
Qed.


Lemma sorted_pair_ordered a b :
  String.leb (sorted_pair a b).1 (sorted_pair a b).2 = true.
Proof.
  unfold sorted_pair, String.ltb, String.leb.
  destruct (String.compare b a) eqn:Hba; simpl.
  - rewrite String.compare_antisym, Hba. done.
  - by rewrite Hba.
  - rewrite String.compare_antisym, Hba. done.
Qed.


(** The effect of the inner loop over the successors of [sid]. *)
Lemma conflicts_visit_fold g ids sid succs st :
  exists new,
    let st' := fold_left (Conflicts.visit g ids sid) succs st in
    Conflicts.checked st' = Conflicts.checked st ∪ list_to_set new /\
    Conflicts.conflicts st' = Conflicts.conflicts st ++ new /\
    NoDup new /\
    forall p, p ∈ new <->
      (p ∉ Conflicts.checked st) /\
      exists n, n ∈ succs /\ has_edge g CONFLICTS_WITH sid n /\ n ∈ ids /\
                p = sorted_pair sid n.
Proof.
  revert st. induction succs as [|n0 succs IH]; intros st; simpl.
  - exists []. simpl. rewrite app_nil_r, union_empty_r_L.
    split_and!; [done..|apply NoDup_nil_2|].
    intros p. split; [by intros ?%elem_of_nil|].
    by intros (_ & n & ?%elem_of_nil & _).
  - destruct (IH (Conflicts.visit g ids sid st n0)) as (new & Hc & Hl & Hnd & Hin).
    unfold Conflicts.visit in *.
    destruct (bool_decide (DiGraph.get_edge_data g sid n0 = Some CONFLICTS_WITH)
              && bool_decide (n0 ∈ ids)
              && bool_decide (sorted_pair sid n0 ∉ Conflicts.checked st))
      eqn:Hcond; simpl in *.
    + apply andb_true_iff in Hcond as [[He Hi]%andb_true_iff Hp].
      apply bool_decide_eq_true in He, Hi, Hp.
      exists (sorted_pair sid n0 :: new). rewrite Hc, Hl, <- app_assoc. simpl.
      split_and!; [by rewrite (assoc_L (∪))|done| |].
      * apply NoDup_cons. split; [|done]. rewrite Hin.
        intros (Hnc & _). apply Hnc, elem_of_union_r. by apply elem_of_singleton.
      * intros p. rewrite elem_of_cons, Hin, elem_of_union, elem_of_singleton.
        split.
        -- intros [->|(Hnc & n & Hn & Hedge & Hi' & ->)].
           ++ split; [done|]. exists n0. split_and!; [left|..]; done.
           ++ split; [tauto|]. exists n. split_and!; [by right|done..].
        -- intros (Hnc & n & Hn & Hedge & Hi' & ->).
           destruct (decide (sorted_pair sid n = sorted_pair sid n0))
             as [Heq|Hne]; [by left|right].
           apply elem_of_cons in Hn as [->|Hn]; [done|].
           split; [tauto|]. by exists n.
    + exists new. rewrite Hc, Hl. split_and!; [done..|].
      intros p. rewrite Hin. split.
      * intros (Hnc & n & Hn & Hedge & Hi' & ->).
        split; [done|]. exists n. split_and!; [by right|done..].
      * intros (Hnc & n & Hn & Hedge & Hi' & ->). split; [done|].
        apply elem_of_cons in Hn as [->|Hn]; [|by exists n].
        apply andb_false_iff in Hcond as [[H|H]%andb_false_iff|H];
          apply bool_decide_eq_false in H; by destruct H.
Qed.

Lemma conflicts_scan_spec g ids todo st :
  (forall s, s ∈ todo -> s ∈ DiGraph.nodes g) ->
  exists new st',
    Conflicts.scan g ids todo st = Ok st' /\
    Conflicts.checked st' = Conflicts.checked st ∪ list_to_set new /\
    Conflicts.conflicts st' = Conflicts.conflicts st ++ new /\
    NoDup new /\
    forall p, p ∈ new <->
      (p ∉ Conflicts.checked st) /\
      exists s n, s ∈ todo /\ has_edge g CONFLICTS_WITH s n /\ n ∈ ids /\
                  p = sorted_pair s n.
Proof.
  revert st. induction todo as [|s0 todo IH]; intros st Hnodes; simpl.
  - exists [], st. simpl. rewrite app_nil_r, union_empty_r_L.
    split_and!; [done..|apply NoDup_nil_2|].
    intros p. split; [by intros ?%elem_of_nil|].
    by intros (_ & s & n & ?%elem_of_nil & _).
  - rewrite successors_ok by (apply Hnodes; left). simpl.
    destruct (conflicts_visit_fold g ids s0 (DiGraph.succ_list g s0) st)
      as (new1 & Hc1 & Hl1 & Hnd1 & Hin1).
    simpl in *. set (st1 := fold_left _ _ st) in *.
    destruct (IH st1) as (new2 & st' & Hscan & Hc2 & Hl2 & Hnd2 & Hin2).
    { intros s Hs. apply Hnodes. by right. }
    exists (new1 ++ new2), st'. rewrite Hscan, Hc2, Hl2, Hc1, Hl1.
    rewrite list_to_set_app_L, app_assoc, (assoc_L (∪)).
    split_and!; [done..| |].
    + apply NoDup_app. split_and!; [done| |done].
      intros p Hp1 Hp2. apply Hin2 in Hp2 as [Hp2 _].
      apply Hp2. rewrite Hc1. apply elem_of_union_r.
      by apply elem_of_list_to_set.
    + intros p. rewrite elem_of_app, Hin1, Hin2, Hc1. split.
      * intros [(Hnc & n & _ & Hedge & Hi & ->)|(Hnc & s & n & Hs & Hedge & Hi & ->)].
        -- split; [done|]. exists s0, n. split_and!; [left|..]; done.
        -- split; [|exists s, n; split_and!; [by right|done..]].
           intros Hp. apply Hnc. by apply elem_of_union_l.
      * intros (Hnc & s & n & Hs & Hedge & Hi & ->).
        apply elem_of_cons in Hs as [->|Hs].
        -- left. split; [done|]. exists n.
           split_and!; [|done..]. by eapply has_edge_succ.
        -- destruct (decide (sorted_pair s n ∈ new1)) as [Hp1|Hp1].
           ++ left. by apply Hin1.
           ++ right. split; [|by exists s, n].
              rewrite elem_of_union, elem_of_list_to_set. tauto.
Qed.

(** [detect_conflicts] returns, without repetition, the sorted pairs of
    the candidates joined by a CONFLICTS_WITH edge. *)
Lemma detect_conflicts_spec g ids :
  (forall s, s ∈ ids -> s ∈ DiGraph.nodes g) ->
  exists r,
    detect_conflicts g ids = Ok r /\ NoDup r /\
    forall p, p ∈ r <->
      exists s n, s ∈ ids /\ n ∈ ids /\ has_edge g CONFLICTS_WITH s n /\
                  p = sorted_pair s n.
Proof.
  intros Hnodes. unfold detect_conflicts.
  destruct (conflicts_scan_spec g ids ids (Conflicts.mk ∅ []) Hnodes)
    as (new & st' & Hscan & _ & Hl & Hnd & Hin).
  rewrite Hscan. simpl in *. exists new. rewrite Hl. split_and!; [done..|].
  intros p. rewrite Hin. split.
  - intros (_ & s & n & ? & ? & ? & ->). by exists s, n.
  - intros (s & n & ? & ? & ? & ->). split; [apply not_elem_of_empty|].
    by exists s, n.
Qed.



Example detect_conflicts_catalog_pair :
  detect_conflicts (_build SCHEMES) ["sukanya_samriddhi"; "beti_bachao"]
  = Ok [("beti_bachao", "sukanya_samriddhi")].
Proof. vm_compute. reflexivity. Qed.

(** ** Stable descending sort *)

Section StableSortFacts.
Context {A : Type} (lt : A -> A -> bool).
Hypothesis lt_asym : forall x y, lt x y = true -> lt y x = false.
Hypothesis lt_negtrans :
    forall x y z, lt x y = false -> lt y z = false -> lt x z = false.

Lemma insert_desc_perm x l : insert_desc lt x l ≡ₚ x :: l.
  Proof.
    induction l as [|y l IH]; simpl; [done|].
    destruct (lt x y); [|done]. rewrite IH. apply Permutation_swap.
  Qed.

Lemma sort_desc_perm l : sort_desc lt l ≡ₚ l.
  Proof.
    induction l as [|x l IH]; simpl; [done|].
    rewrite insert_desc_perm. by rewrite IH.
  Qed.




End StableSortFacts.

Lemma Qlt_bool_true x y : Py.Qlt_bool x y = true <-> (x < y)%Q.
Proof.
  unfold Py.Qlt_bool. rewrite negb_true_iff, <- not_true_iff_false, Qle_bool_iff.
  split; [apply Qnot_le_lt | apply Qlt_not_le].
Qed.

Lemma Qlt_bool_false x y : Py.Qlt_bool x y = false <-> (y <= x)%Q.
Proof. unfold Py.Qlt_bool. by rewrite negb_false_iff, Qle_bool_iff. Qed.



(** ** Discovery *)

Lemma any_child_age_max_ok val n ms :
  Py.int val = Ok n -> exists b, any_child_age_max val ms = Ok b.
Proof.
  intros Hn. induction ms as [|m ms [b IH]]; simpl; [by eauto|].
  rewrite Hn. simpl. destruct (CitizenProfile.is_child m); [|by eauto].
  destruct (FamilyMember.age m <=? n); eauto.
Qed.

Lemma evaluate_rule_ok r c :
  rule_parses r = true -> exists b, evaluate_rule r c = Ok b.
Proof.
  unfold rule_parses, evaluate_rule.
  destruct (EligibilityRule.rule_type r); try by eauto.
  - intros [n ->]%is_ok_true. simpl. eauto.
  - intros [n ->]%is_ok_true. simpl. eauto.
  - intros [n ->]%is_ok_true. simpl. eauto.
  - destruct (String.eqb _ "child_age_max").
    + intros [n Hn]%is_ok_true. by eapply any_child_age_max_ok.
    + destruct (String.eqb _ _); eauto.
Qed.

Lemma eval_rules_spec c rules matched failed :
  forallb rule_parses rules = true ->
  eval_rules c rules matched failed
  = Ok (matched ++ (rule_label <$> List.filter (holds c) rules),
        failed ++ (rule_label <$> List.filter (fails c) rules)).
Proof.
  revert matched failed.
  induction rules as [|r rules IH]; intros matched failed; simpl.
  - by rewrite !app_nil_r.
  - intros [Hr Hrules]%andb_true_iff.
    destruct (evaluate_rule_ok r c Hr) as [b Hb].
    unfold fails, holds. rewrite Hb. simpl. fold (holds c). fold (fails c).
    destruct b; simpl; rewrite IH by done; by rewrite <- app_assoc.
Qed.

(** The match of one scheme, when its rules parse and it is a node. *)
Lemma match_scheme_spec catalog g c s :
  wf_graph g -> Scheme.scheme_id s ∈ DiGraph.nodes g ->
  forallb rule_parses (Scheme.eligibility_rules s) = true ->
  exists unlocks,
    find_benefit_chain g (Scheme.scheme_id s) MAX_HOPS = Ok unlocks /\
    match_scheme catalog g c s =
    Ok (SchemeMatch.mk s
          (Py.round (satisfied_fraction c s) 2)
          (rule_label <$> List.filter (holds c) (Scheme.eligibility_rules s))
          (rule_label <$> List.filter (fails c) (Scheme.eligibility_rules s))
          (missing_docs (Scheme.required_documents s) (CitizenProfile.documents c))
          (Scheme.benefit_amount s)
          (Py.round (satisfied_fraction c s * Scheme.approval_rate s) 2)
          (bool_decide (List.filter (fails c) (Scheme.eligibility_rules s) = []))
          0
          (scheme_names catalog (Scheme.conflicts_with s))
          (scheme_names catalog unlocks)).
Proof.
  intros Hwf Hnode Hparse.
  destruct (find_benefit_chain_spec g (Scheme.scheme_id s) MAX_HOPS Hwf Hnode)
    as (unlocks & Hchain & _).
  exists unlocks. split; [done|].
  unfold match_scheme. rewrite eval_rules_spec by done. simpl.
  rewrite Hchain. simpl. f_equal. f_equal.
  - unfold rule_score, satisfied_fraction.
    destruct (Scheme.eligibility_rules s); [done|]. by rewrite length_fmap.
  - unfold rule_score, satisfied_fraction.
    destruct (Scheme.eligibility_rules s); [done|]. by rewrite length_fmap.
  - apply bool_decide_ext. rewrite length_fmap. apply length_zero_iff_nil.
Qed.

Lemma match_all_spec catalog g c schemes :
  wf_graph g ->
  (forall s, s ∈ schemes -> Scheme.scheme_id s ∈ DiGraph.nodes g) ->
  forallb (fun s => forallb rule_parses (Scheme.eligibility_rules s)) schemes
    = true ->
  exists ms,
    match_all catalog g c schemes = Ok ms /\
    Forall2 (fun s m => match_scheme catalog g c s = Ok m) schemes ms.
Proof.
  intros Hwf. induction schemes as [|s schemes IH]; intros Hnodes Hparse; simpl.
  - exists []. by split.
  - simpl in Hparse. apply andb_true_iff in Hparse as [Hs Hrest].
    destruct (match_scheme_spec catalog g c s Hwf) as (unlocks & _ & Hm);
      [apply Hnodes; left|done|].
    destruct IH as (ms & Hms & Hall); [|done|].
    { intros s' Hs'. apply Hnodes. by right. }
    rewrite Hm, Hms. simpl. eexists. split; [done|]. by constructor.
Qed.

Lemma match_scheme_fields catalog g c s m :
  match_scheme catalog g c s = Ok m ->
  SchemeMatch.scheme m = s /\ SchemeMatch.rank m = 0.
Proof.
  unfold match_scheme.
  destruct (eval_rules _ _ _ _) as [[matched failed]|]; [|done]. simpl.
  destruct (find_benefit_chain _ _ _); [|done]. simpl.
  by intros [= <-].
Qed.

Lemma unranked_id m : SchemeMatch.rank m = 0 -> unranked m = m.
Proof. destruct m. simpl. by intros ->. Qed.





Lemma Forall2_match_scheme_fields catalog g c schemes ms :
  Forall2 (fun s m => match_scheme catalog g c s = Ok m) schemes ms ->
  SchemeMatch.scheme <$> ms = schemes /\
  Forall (fun m => unranked m = m) ms.
Proof.
  induction 1 as [|s m schemes ms Hm _ [IH1 IH2]]; [done|].
  apply match_scheme_fields in Hm as [Hs Hr].
  rewrite fmap_cons, IH1, Hs. split; [done|].
  constructor; [by apply unranked_id|done].
Qed.






(** The rule values of the repository's catalog all parse. *)
Example SCHEMES_parse :
  catalog_parses SCHEMES = true /\
  forallb (fun s => numeric_rules_parse (Scheme.eligibility_rules s)) SCHEMES
  = true.
Proof. split; reflexivity. Qed.



Lemma Forall2_elem_of_r {A B} (R : A -> B -> Prop) l k y :
  Forall2 R l k -> y ∈ k -> exists x, x ∈ l /\ R x y.
Proof.
  induction 1 as [|x y' l k Hxy _ IH]; [by intros ?%elem_of_nil|].
  intros [->|Hy]%elem_of_cons.
  - exists x. split; [left|done].
  - destruct (IH Hy) as (x' & Hx' & HR). exists x'. split; [by right|done].
Qed.


Lemma round_one : (Py.round 1 2 == 1)%Q.
Proof. reflexivity. Qed.




(** ** Malformed rule values *)

Lemma int_raise s : is_ok (Py.int s) = false -> Py.int s = Raise (ValueError s).
Proof.
  unfold Py.int. destruct (Py.scan_sign _) as [neg body].
  by destruct (Py.scan_digits _ _) as [[|d ds] [|c r]].
Qed.

Lemma float_raise s :
  is_ok (Py.float s) = false -> Py.float s = Raise (ValueError s).
Proof.
  unfold Py.float. destruct (Py.scan_sign _) as [neg body].
  destruct (_ || _); [done|]. destruct (String.eqb _ _); [done|].
  destruct (Py.scan_digits _ _) as [ip r1].
  destruct (Py.scan_fraction _) as [fp r2].
  by destruct (ip ++ fp), (Py.scan_exponent r2) as [[e [|c r]]|].
Qed.

Lemma int_raises_value_error s e :
  Py.int s = Raise e -> e = ValueError s.
Proof.
  intros H. assert (is_ok (Py.int s) = false) as Hok by by rewrite H.
  rewrite (int_raise _ Hok) in H. by injection H.
Qed.

Lemma float_raises_value_error s e :
  Py.float s = Raise e -> e = ValueError s.
Proof.
  intros H. assert (is_ok (Py.float s) = false) as Hok by by rewrite H.
  rewrite (float_raise _ Hok) in H. by injection H.
Qed.

Lemma any_child_age_max_raises val ms e :
  any_child_age_max val ms = Raise e -> e = ValueError val.
Proof.
  induction ms as [|m ms IH]; simpl; [done|].
  destruct (CitizenProfile.is_child m); [|done].
  destruct (Py.int val) as [n|e'] eqn:Hn; simpl.
  - by destruct (FamilyMember.age m <=? n).
  - intros [= <-]. by eapply int_raises_value_error.
Qed.

(** The only exception of [evaluate_rule] is the [ValueError] of its value. *)
Lemma evaluate_rule_raises r c e :
  evaluate_rule r c = Raise e -> e = ValueError (EligibilityRule.value r).
Proof.
  unfold evaluate_rule. destruct (EligibilityRule.rule_type r); try done.
  - destruct (Py.int _) eqn:Hn; simpl; [done|].
    intros [= <-]. by eapply int_raises_value_error.
  - destruct (Py.int _) eqn:Hn; simpl; [done|].
    intros [= <-]. by eapply int_raises_value_error.
  - destruct (Py.float _) eqn:Hn; simpl; [done|].
    intros [= <-]. by eapply float_raises_value_error.
  - destruct (String.eqb _ "child_age_max");
      [apply any_child_age_max_raises|].
    by destruct (String.eqb _ _).
Qed.

Lemma evaluate_rule_malformed r c :
  numeric_malformed r = true ->
  evaluate_rule r c = Raise (ValueError (EligibilityRule.value r)).
Proof.
  unfold numeric_malformed, evaluate_rule.
  destruct (EligibilityRule.rule_type r); try done;
    intros Hbad%negb_true_iff.
  - by rewrite int_raise.
  - by rewrite int_raise.
  - by rewrite float_raise.
Qed.

Lemma eval_rules_malformed c rules r matched failed :
  r ∈ rules -> numeric_malformed r = true ->
  exists lit, eval_rules c rules matched failed = Raise (ValueError lit).
Proof.
  intros Hr Hbad. revert matched failed.
  induction rules as [|r' rules IH]; intros matched failed;
    [by apply elem_of_nil in Hr|].
  simpl. destruct (evaluate_rule r' c) as [b|e] eqn:Hr'; simpl.
  - apply elem_of_cons in Hr as [->|Hr].
    + by rewrite evaluate_rule_malformed in Hr'.
    + destruct b; by apply IH.
  - apply evaluate_rule_raises in Hr' as ->. eauto.
Qed.

Lemma eval_rules_raises c rules matched failed e :
  eval_rules c rules matched failed = Raise e -> exists lit, e = ValueError lit.
Proof.
  revert matched failed.
  induction rules as [|r rules IH]; intros matched failed; simpl; [done|].
  destruct (evaluate_rule r c) as [b|e'] eqn:Hr; simpl.
  - destruct b; apply IH.
  - intros [= <-]. apply evaluate_rule_raises in Hr. eauto.
Qed.

Lemma match_scheme_raises catalog g c s e :
  wf_graph g -> Scheme.scheme_id s ∈ DiGraph.nodes g ->
  match_scheme catalog g c s = Raise e -> exists lit, e = ValueError lit.
Proof.
  intros Hwf Hnode. unfold match_scheme.
  destruct (eval_rules _ _ _ _) as [[matched failed]|e'] eqn:Hrules; simpl.
  - destruct (find_benefit_chain_spec g (Scheme.scheme_id s) MAX_HOPS Hwf Hnode)
      as (l & -> & _). done.
  - intros [= <-]. by eapply eval_rules_raises.
Qed.

Lemma match_all_malformed catalog g c schemes s r :
  wf_graph g ->
  (forall s', s' ∈ schemes -> Scheme.scheme_id s' ∈ DiGraph.nodes g) ->
  s ∈ schemes -> r ∈ Scheme.eligibility_rules s ->
  numeric_malformed r = true ->
  exists lit, match_all catalog g c schemes = Raise (ValueError lit).
Proof.
  intros Hwf Hnodes Hs Hr Hbad.
  induction schemes as [|s' schemes IH]; [by apply elem_of_nil in Hs|].
  simpl. destruct (match_scheme catalog g c s') as [m|e] eqn:Hm; simpl.
  - apply elem_of_cons in Hs as [->|Hs].
    + unfold match_scheme in Hm.
      destruct (eval_rules_malformed c _ r [] [] Hr Hbad) as [lit Hlit].
      by rewrite Hlit in Hm.
    + destruct IH as [lit ->]; [|done|by eauto].
      intros s'' Hs''. apply Hnodes. by right.
  - apply match_scheme_raises in Hm as [lit ->]; [by eauto|done|].
    apply Hnodes. by left.
Qed.

(** C4, as the code has it.  When a rule of kind age_min, age_max or
    income_max of a catalog scheme has a value that does not parse, its
    evaluation raises the [ValueError] of that value for every citizen, and
    [discover_schemes] as a whole raises a [ValueError]: the failure is not
    turned into a failed rule, and no match is returned for any scheme. *)
Theorem malformed_rule_aborts_discovery (catalog : list Scheme.t)
    (citizen : CitizenProfile.t) (s : Scheme.t) (r : EligibilityRule.t) :
  s ∈ catalog -> r ∈ Scheme.eligibility_rules s ->
  numeric_malformed r = true ->
  evaluate_rule r citizen = Raise (ValueError (EligibilityRule.value r)) /\
  exists lit,
    discover_schemes catalog (_build catalog) citizen = Raise (ValueError lit).
Proof.
  intros Hs Hr Hbad. split; [by apply evaluate_rule_malformed|].
  destruct (match_all_malformed catalog (_build catalog) citizen catalog s r)
    as [lit Hlit]; [apply build_wf|apply build_has_scheme|done..|].
  exists lit. unfold discover_schemes. by rewrite Hlit.
Qed.

Lemma malformed_rule_aborts_discovery_witness :
  evaluate_rule malformed_rule CitizenProfile.default
    = Raise (ValueError "abc") /\
  exists lit,
    discover_schemes corrupted_catalog (_build corrupted_catalog)
      CitizenProfile.default
    = Raise (ValueError lit).
Proof.
  apply (malformed_rule_aborts_discovery corrupted_catalog
           CitizenProfile.default malformed_scheme malformed_rule).
  - apply elem_of_app. right. by apply list_elem_of_singleton.
  - by apply list_elem_of_singleton.
  - reflexivity.
Defined.

(** C4 fails as stated: the malformed scheme is the last of seventeen, the
    sixteen before it evaluate without failure, and yet discovery returns
    no list of per-scheme results, only the exception. *)
Lemma malformed_rule_not_reported_per_scheme :
  is_ok (match_all corrupted_catalog (_build corrupted_catalog)
           CitizenProfile.default SCHEMES) = true /\
  discover_schemes corrupted_catalog (_build corrupted_catalog)
    CitizenProfile.default = Raise (ValueError "abc") /\
  ~ exists ms,
      discover_schemes corrupted_catalog (_build corrupted_catalog)
        CitizenProfile.default = Ok ms.
Proof.
  assert (discover_schemes corrupted_catalog (_build corrupted_catalog)
            CitizenProfile.default
          = Raise (ValueError "abc")) as H by (vm_compute; reflexivity).
  split_and!; [vm_compute; reflexivity|done|].
  intros [ms Hms]. by rewrite H in Hms.
Qed.

(** ** Rounding and clamping *)

Lemma round_half_even_ge (z : Z) (x : Q) :
  (inject_Z z <= x)%Q -> z <= Py.round_half_even x.
Proof.
  destruct x as [n d]. unfold Qle, Py.round_half_even. simpl.
  pose proof (Z.div_mod n (Zpos d) ltac:(lia)) as Hdiv.
  pose proof (Z.mod_pos_bound n (Zpos d) ltac:(lia)) as Hmod.
  intros Hz.
  assert (z <= n / Zpos d) by (apply Z.div_le_lower_bound; lia).
  destruct (2 * (n mod Zpos d) ?= Zpos d); [destruct (Z.even _)|..]; lia.
Qed.

Lemma round_half_even_le (z : Z) (x : Q) :
  (x <= inject_Z z)%Q -> Py.round_half_even x <= z.
Proof.
  destruct x as [n d]. unfold Qle, Py.round_half_even. simpl.
  pose proof (Z.div_mod n (Zpos d) ltac:(lia)) as Hdiv.
  pose proof (Z.mod_pos_bound n (Zpos d) ltac:(lia)) as Hmod.
  intros Hz.
  assert (n / Zpos d <= z) by (apply Z.div_le_upper_bound; lia).
  destruct (Z.eq_dec (n / Zpos d) z) as [Heq|Hne].
  - assert (n mod Zpos d = 0) as Hr by nia.
    rewrite Hr. simpl. lia.
  - destruct (2 * (n mod Zpos d) ?= Zpos d); [destruct (Z.even _)|..]; lia.
Qed.

Lemma round_scaled_unit (q : Q) (p : Z) :
  0 < p -> (0 <= q <= 1)%Q ->
  (0 <= inject_Z (Py.round_half_even (q * inject_Z p)) / inject_Z p <= 1)%Q.
Proof.
  intros Hp [H0 H1].
  assert (0 < inject_Z p)%Q as Hp' by (by rewrite <- (Zlt_Qlt 0)).
  split.
  - apply Qle_shift_div_l; [done|]. rewrite Qmult_0_l.
    rewrite <- (Zle_Qle 0). apply round_half_even_ge.
    apply Qmult_le_0_compat; [done|by apply Qlt_le_weak].
  - apply Qle_shift_div_r; [done|]. rewrite Qmult_1_l.
    rewrite <- Zle_Qle. apply round_half_even_le.
    rewrite <- (Qmult_1_l (inject_Z p)) at 2.
    apply Qmult_le_compat_r; [done|by apply Qlt_le_weak].
Qed.

(** Rounding to two or three decimals stays within the unit interval. *)
Lemma round_2_unit q : (0 <= q <= 1)%Q -> (0 <= Py.round q 2 <= 1)%Q.
Proof. apply (round_scaled_unit q 100). lia. Qed.

Lemma round_3_unit q : (0 <= q <= 1)%Q -> (0 <= Py.round q 3 <= 1)%Q.
Proof. apply (round_scaled_unit q 1000). lia. Qed.

Lemma Qmin_spec x y : (Py.Qmin x y <= x /\ Py.Qmin x y <= y)%Q /\
                      (Py.Qmin x y = x \/ Py.Qmin x y = y).
Proof.
  unfold Py.Qmin. destruct (Py.Qlt_bool y x) eqn:H.
  - apply Qlt_bool_true in H. split; [split; [by apply Qlt_le_weak|apply Qle_refl]|auto].
  - apply Qlt_bool_false in H. split; [split; [apply Qle_refl|done]|auto].
Qed.

Lemma Qmax_spec x y : (x <= Py.Qmax x y /\ y <= Py.Qmax x y)%Q.
Proof.
  unfold Py.Qmax. destruct (Py.Qlt_bool x y) eqn:H.
  - apply Qlt_bool_true in H. split; [by apply Qlt_le_weak|apply Qle_refl].
  - apply Qlt_bool_false in H. split; [apply Qle_refl|done].
Qed.


Lemma clamp_max_min_unit t : (0 <= Py.Qmax 0 (Py.Qmin 1 t) <= 1)%Q.
Proof.
  split; [apply Qmax_spec|].
  unfold Py.Qmax. destruct (Py.Qlt_bool _ _); [apply Qmin_spec|lra].
Qed.

Lemma round_half_even_proper (x y : Q) :
  (x == y)%Q -> Py.round_half_even x = Py.round_half_even y.
Proof.
  destruct x as [n1 d1], y as [n2 d2]. unfold Qeq, Py.round_half_even. simpl.
  intros Heq.
  pose proof (Z.div_mod n1 (Zpos d1) ltac:(lia)) as Hdiv1.
  pose proof (Z.mod_pos_bound n1 (Zpos d1) ltac:(lia)) as Hmod1.
  pose proof (Z.div_mod n2 (Zpos d2) ltac:(lia)) as Hdiv2.
  pose proof (Z.mod_pos_bound n2 (Zpos d2) ltac:(lia)) as Hmod2.
  set (q1 := n1 / Zpos d1) in *. set (r1 := n1 mod Zpos d1) in *.
  set (q2 := n2 / Zpos d2) in *. set (r2 := n2 mod Zpos d2) in *.
  assert (Zpos d1 * Zpos d2 * (q1 - q2) = r2 * Zpos d1 - r1 * Zpos d2) as Hk
    by (rewrite Hdiv1, Hdiv2 in Heq; lia).
  assert (0 <= r2 * Zpos d1 < Zpos d2 * Zpos d1) as Hb2 by nia.
  assert (0 <= r1 * Zpos d2 < Zpos d1 * Zpos d2) as Hb1 by nia.
  assert (q1 = q2) as Hq.
  { assert (q1 - q2 = 0); [|lia].
    set (D := Zpos d1 * Zpos d2) in *. set (k := q1 - q2) in *.
    assert (0 < D) by (unfold D; lia). nia. }
  assert (r1 * Zpos d2 = r2 * Zpos d1) as Hr by (rewrite Hq in Hk; lia).
  rewrite <- Hq.
  destruct (Z.compare_spec (2 * r1) (Zpos d1)),
    (Z.compare_spec (2 * r2) (Zpos d2)); try reflexivity; exfalso; nia.
Qed.

Lemma round_proper (x y : Q) (k : Z) : (x == y)%Q -> (Py.round x k == Py.round y k)%Q.
Proof.
  intros Heq. unfold Py.round.
  rewrite (round_half_even_proper (x * Py.pow10 k) (y * Py.pow10 k)).
  - reflexivity.
  - by rewrite Heq.
Qed.

(** ** Risk scoring *)

Lemma income_rule_parses r :
  negb (numeric_malformed r) = true -> is_income_rule r = true ->
  exists x, Py.float (EligibilityRule.value r) = Ok x.
Proof.
  unfold numeric_malformed, is_income_rule.
  destruct (EligibilityRule.rule_type r); try done.
  rewrite negb_involutive. intros H _. by apply is_ok_true.
Qed.

Lemma age_rule_parses r :
  negb (numeric_malformed r) = true -> is_age_rule r = true ->
  exists n, Py.int (EligibilityRule.value r) = Ok n.
Proof.
  unfold numeric_malformed, is_age_rule.
  destruct (EligibilityRule.rule_type r); try done;
    rewrite negb_involutive; intros H _; by apply is_ok_true.
Qed.

Lemma income_step_ok income rules a :
  numeric_rules_parse rules = true ->
  exists a', Validation.income_step income rules a = Ok a'.
Proof.
  revert a. induction rules as [|r rules IH]; intros a; simpl; [by eauto|].
  intros [Hr Hrules]%andb_true_iff.
  destruct (is_income_rule r) eqn:Hinc; [|by apply IH].
  destruct (income_rule_parses r Hr Hinc) as [x ->]. simpl.
  destruct (ratio_to income x) as [ratio|]; [|by apply IH].
  destruct (Py.Qlt_bool _ ratio); by apply IH.
Qed.

Lemma age_step_ok age rules a :
  numeric_rules_parse rules = true ->
  exists a', Validation.age_step age rules a = Ok a'.
Proof.
  revert a. induction rules as [|r rules IH]; intros a; simpl; [by eauto|].
  intros [Hr Hrules]%andb_true_iff.
  destruct (is_age_rule r) eqn:Hage; [|by apply IH].
  destruct (age_rule_parses r Hr Hage) as [n ->]. simpl.
  destruct (Z.abs (age - n) <=? 1); by apply IH.
Qed.

(** The rule-based scorer returns, and its probability is a clamped total
    rounded to two decimals. *)
Lemma validation_predict_rejection_ok citizen scheme :
  numeric_rules_parse (Scheme.eligibility_rules scheme) = true ->
  exists factors total,
    Validation.predict_rejection citizen scheme =
    Ok (RejectionAnalysis.mk
          (Py.round (Py.Qmin (Py.Qmax total 0) 1) 2)
          (risk_ladder (Py.Qmin (Py.Qmax total 0) 1))
          factors
          (Validation._generate_recommendations factors
             (Validation._check_missing_docs citizen scheme))
          (take 3 Validation.REJECTION_PATTERNS)).
Proof.
  intros Hparse. unfold Validation.predict_rejection.
  destruct (Py.Qlt_bool 0 _);
    [match goal with
     | |- context [Validation.income_step ?i ?r ?a] =>
         destruct (income_step_ok i r a Hparse) as [a2 ->]
     end|];
    simpl;
    (destruct (CitizenProfile.age citizen) as [age|];
     [destruct (age =? 0);
      [|match goal with
        | |- context [Validation.age_step ?i ?r ?a] =>
            destruct (age_step_ok i r a Hparse) as [a5 ->]
        end]|]);
    simpl; by eexists _, _.
Qed.

Lemma income_ratio_ok income rules :
  numeric_rules_parse rules = true ->
  exists r, RejectionModel.income_ratio income rules = Ok r.
Proof.
  induction rules as [|r rules IH]; simpl; [by eauto|].
  intros [Hr Hrules]%andb_true_iff.
  destruct (is_income_rule r) eqn:Hinc; [|by apply IH].
  destruct (income_rule_parses r Hr Hinc) as [x ->]. simpl. by eauto.
Qed.

Lemma age_risk_ok age rules risk :
  numeric_rules_parse rules = true ->
  exists r, RejectionModel.age_risk age rules risk = Ok r.
Proof.
  revert risk. induction rules as [|r rules IH]; intros risk; simpl;
    [by eauto|].
  intros [Hr Hrules]%andb_true_iff.
  destruct (is_age_rule r) eqn:Hage; [|by apply IH].
  destruct (age_rule_parses r Hr Hage) as [n ->]. simpl.
  destruct (Z.abs (age - n) <=? 2); by apply IH.
Qed.

(** The feature-weighted scorer returns a clamped score rounded to three
    decimals, whatever the noise. *)
Lemma predict_rejection_probability_ok citizen scheme noise :
  numeric_rules_parse (Scheme.eligibility_rules scheme) = true ->
  exists p,
    RejectionModel.predict_rejection_probability citizen scheme noise = Ok p /\
    (0 <= p <= 1)%Q.
Proof.
  intros Hparse.
  unfold RejectionModel.predict_rejection_probability,
    RejectionModel._encode_features.
  destruct (income_ratio_ok (CitizenProfile.annual_income citizen) _ Hparse)
    as [ratio ->]. simpl.
  destruct (CitizenProfile.age citizen) as [age|];
    [destruct (age =? 0);
     [|match goal with
       | |- context [RejectionModel.age_risk ?i ?r ?a] =>
           destruct (age_risk_ok i r a Hparse) as [risk ->]
       end]|];
    simpl; (eexists; split; [done|]); apply round_3_unit;
    (destruct ratio as [r|]; simpl; [apply clamp_max_min_unit|split; lra]).
Qed.




(** ** Recommendations *)

Lemma dedup_spec seen l :
  NoDup (Validation.dedup seen l) /\
  (forall x, x ∈ Validation.dedup seen l <-> x ∈ l /\ (x ∉ seen)) /\
  sublist (Validation.dedup seen l) l.
Proof.
  revert seen. induction l as [|y l IH]; intros seen; simpl.
  - split_and!; [apply NoDup_nil_2| |done].
    intros x. split; [by intros ?%elem_of_nil|by intros [?%elem_of_nil _]].
  - case_bool_decide as Hy.
    + destruct (IH seen) as (Hnd & Hin & Hsub). split_and!; [done| |].
      * intros x. rewrite Hin, elem_of_cons. split; [tauto|].
        intros [[->|Hx] Hns]; [done|tauto].
      * by apply sublist_cons.
    + destruct (IH (seen ∪ {[y]})) as (Hnd & Hin & Hsub). split_and!.
      * apply NoDup_cons. split; [|done]. rewrite Hin.
        intros [_ Hns]. apply Hns, elem_of_union_r. by apply elem_of_singleton.
      * intros x. rewrite !elem_of_cons, Hin, elem_of_union, elem_of_singleton.
        split.
        -- intros [->|[Hx Hns]]; [by auto|]. split; [by right|tauto].
        -- intros [[->|Hx] Hns]; [by left|].
           destruct (decide (x = y)) as [->|Hne]; [by left|right]. tauto.
      * by apply sublist_skip.
Qed.





(** ** Unknown scheme ids *)

Lemma predict_rejection_unknown catalog citizen scheme_id noise :
  scheme_map catalog !! scheme_id = None ->
  AdversarialAgent.predict_rejection catalog citizen scheme_id noise = Ok None.
Proof. intros H. unfold AdversarialAgent.predict_rejection. by rewrite H. Qed.

Lemma verify_eligibility_unknown catalog g citizen scheme_id :
  scheme_map catalog !! scheme_id = None ->
  EligibilityAgent.verify_eligibility catalog g citizen scheme_id = Ok None.
Proof. intros H. unfold EligibilityAgent.verify_eligibility. by rewrite H. Qed.

Lemma find_benefit_chain_unknown g scheme_id max_hops :
  scheme_id ∉ DiGraph.nodes g -> 0 < max_hops ->
  find_benefit_chain g scheme_id max_hops = Raise (NetworkXError scheme_id).
Proof.
  intros Hnode Hhops. unfold find_benefit_chain.
  destruct (Z.to_nat max_hops) as [|n] eqn:Hn; [lia|].
  simpl. by rewrite predecessors_raise.
Qed.

(** C3 at an id that is in neither the catalog nor the graph: scoring and
    the match lookup return [None], but the benefit-chain lookups raise the
    graph library's error. *)
Theorem unknown_scheme_chain_lookup_raises :
  scheme_map SCHEMES !! "no_such_scheme" = None /\
  (forall citizen noise,
     AdversarialAgent.predict_rejection SCHEMES citizen "no_such_scheme" noise
     = Ok None) /\
  (forall citizen,
     EligibilityAgent.verify_eligibility SCHEMES (_build SCHEMES) citizen
       "no_such_scheme" = Ok None) /\
  find_benefit_chain (_build SCHEMES) "no_such_scheme" MAX_HOPS
    = Raise (NetworkXError "no_such_scheme") /\
  EligibilityAgent.find_benefit_chains SCHEMES (_build SCHEMES) "no_such_scheme"
    = Raise (NetworkXError "no_such_scheme").
Proof.
  assert (scheme_map SCHEMES !! "no_such_scheme" = None) as Hnone
    by (vm_compute; reflexivity).
  split; [done|].
  split; [intros; by apply predict_rejection_unknown|].
  split; [intros; by apply verify_eligibility_unknown|].
  split; vm_compute; reflexivity.
Qed.

(** * Further properties *)


Lemma any_child_age_max_no_child val ms :
  List.filter CitizenProfile.is_child ms = [] ->
  any_child_age_max val ms = Ok false.
Proof.
  induction ms as [|m ms IH]; simpl; [done|].
  destruct (CitizenProfile.is_child m); [done|]. exact IH.
Qed.

Lemma any_child_age_max_bad val ms :
  is_ok (Py.int val) = false ->
  List.filter CitizenProfile.is_child ms ≠ [] ->
  any_child_age_max val ms = Raise (ValueError val).
Proof.
  intros Hbad. induction ms as [|m ms IH]; simpl; [done|].
  destruct (CitizenProfile.is_child m).
  - intros _. by rewrite (int_raise _ Hbad).
  - exact IH.
Qed.

(** X2. A custom child_age_max rule whose value is not an integer raises the
    ValueError only for a citizen with at least one family member of
    relationship child; for a citizen without children it returns false
    and the malformed value goes unnoticed. *)
Theorem child_age_max_value_read_lazily
    (r : EligibilityRule.t) (c : CitizenProfile.t) :
  EligibilityRule.rule_type r = CUSTOM ->
  EligibilityRule.condition r = "child_age_max" ->
  is_ok (Py.int (EligibilityRule.value r)) = false ->
  evaluate_rule r c =
  if 0 <? CitizenProfile.num_children c
  then Raise (ValueError (EligibilityRule.value r)) else Ok false.
Proof.
  intros Hk Hc Hbad. unfold evaluate_rule, CitizenProfile.num_children.
  rewrite Hk, Hc. simpl.
  destruct (List.filter CitizenProfile.is_child (CitizenProfile.family_members c))
    as [|m ms] eqn:Hf.
  - by apply any_child_age_max_no_child.
  - apply any_child_age_max_bad; [done|]. by rewrite Hf.
Qed.

Lemma child_age_max_value_read_lazily_witness :
  evaluate_rule rule_child_age_bad citizen_with_son = Raise (ValueError "ten") /\
  evaluate_rule rule_child_age_bad CitizenProfile.default = Ok false.
Proof.
  split.
  - apply (child_age_max_value_read_lazily rule_child_age_bad citizen_with_son);
      reflexivity.
  - apply (child_age_max_value_read_lazily rule_child_age_bad
             CitizenProfile.default); reflexivity.
Defined.

(** X3. An education rule whose value is not one of the seven level names is
    read as level 0: as education_min it holds for every citizen, as
    education_max it holds exactly for citizens whose education is none. *)
Theorem education_rule_unknown_level
    (r : EligibilityRule.t) (c : CitizenProfile.t) :
  (forall e, EligibilityRule.value r ≠ education_value e) ->
  (EligibilityRule.rule_type r = EDUCATION_MIN -> evaluate_rule r c = Ok true) /\
  (EligibilityRule.rule_type r = EDUCATION_MAX ->
   evaluate_rule r c =
   Ok (match CitizenProfile.education c with NONE => true | _ => false end)).
Proof.
  intros Hv.
  assert (_EDU_ORDER_get (EligibilityRule.value r) = 0) as H0.
  { unfold _EDU_ORDER_get.
    repeat match goal with
    | |- context [String.eqb ?a ?b] =>
        destruct (String.eqb_spec a b) as [Heq|_];
        [exfalso|]
    end; try reflexivity.
    - by apply (Hv NONE).
    - by apply (Hv PRIMARY).
    - by apply (Hv SECONDARY).
    - by apply (Hv HIGHER_SECONDARY).
    - by apply (Hv GRADUATE).
    - by apply (Hv POST_GRADUATE).
    - by apply (Hv DOCTORATE). }
  split; intros Hk; unfold evaluate_rule; rewrite Hk; simpl; rewrite H0;
    f_equal; by destruct (CitizenProfile.education c).
Qed.

Lemma education_rule_unknown_level_witness :
  (EligibilityRule.rule_type rule_education_capitalised = EDUCATION_MIN ->
   evaluate_rule rule_education_capitalised CitizenProfile.default = Ok true) /\
  (EligibilityRule.rule_type rule_education_capitalised = EDUCATION_MAX ->
   evaluate_rule rule_education_capitalised CitizenProfile.default
   = Ok (match CitizenProfile.education CitizenProfile.default with
         | NONE => true | _ => false end)).
Proof.
  apply (education_rule_unknown_level rule_education_capitalised
           CitizenProfile.default).
  intros e; destruct e; simpl; discriminate.
Defined.

Lemma filter_length_le_weaker {A} (p q : A -> bool) l :
  (forall x, p x = true -> q x = true) ->
  (length (List.filter p l) <= length (List.filter q l))%nat.
Proof.
  intros Hpq. induction l as [|x l IH]; simpl; [lia|].
  destruct (p x) eqn:Hp.
  - rewrite (Hpq _ Hp). simpl. lia.
  - destruct (q x); simpl; lia.
Qed.

Lemma any_child_age_max_true val ms :
  any_child_age_max val ms = Ok true ->
  List.filter CitizenProfile.is_child ms ≠ [].
Proof.
  induction ms as [|m ms IH]; simpl; [done|].
  destruct (CitizenProfile.is_child m); [done|]. exact IH.
Qed.

(** X4. A citizen has at most as many daughters as children; whenever a
    has_daughters rule or a custom child_age_max rule holds, or the citizen
    has school-age children, every has_children rule holds too. *)
Theorem child_rules_imply_has_children
    (r r' : EligibilityRule.t) (c : CitizenProfile.t) :
  EligibilityRule.rule_type r' = HAS_CHILDREN ->
  (CitizenProfile.num_daughters c <= CitizenProfile.num_children c) /\
  (EligibilityRule.rule_type r = HAS_DAUGHTERS \/
   (EligibilityRule.rule_type r = CUSTOM /\
    EligibilityRule.condition r = "child_age_max") ->
   evaluate_rule r c = Ok true -> evaluate_rule r' c = Ok true) /\
  (CitizenProfile.has_school_age_children c = true ->
   evaluate_rule r' c = Ok true).
Proof.
  intros Hk'.
  assert (CitizenProfile.num_daughters c <= CitizenProfile.num_children c) as Hle.
  { unfold CitizenProfile.num_daughters, CitizenProfile.num_children.
    apply inj_le, filter_length_le_weaker. intros m Hm.
    by apply andb_prop in Hm as [-> _]. }
  assert (evaluate_rule r' c = Ok (0 <? CitizenProfile.num_children c)) as Hr'.
  { unfold evaluate_rule. by rewrite Hk'. }
  split_and!; [done| |].
  - intros [Hk|[Hk Hc]] Hr; rewrite Hr'; f_equal; apply Z.ltb_lt.
    + unfold evaluate_rule in Hr. rewrite Hk in Hr. simpl in Hr.
      injection Hr as Hr. apply Z.ltb_lt in Hr. lia.
    + unfold evaluate_rule in Hr. rewrite Hk, Hc in Hr. simpl in Hr.
      apply any_child_age_max_true in Hr.
      unfold CitizenProfile.num_children.
      destruct (List.filter _ _); [done|simpl; lia].
  - intros Hs. rewrite Hr'. f_equal. apply Z.ltb_lt.
    unfold CitizenProfile.has_school_age_children in Hs.
    apply existsb_exists in Hs as (m & Hin & Hm).
    apply andb_prop in Hm as [Hm _].
    unfold CitizenProfile.num_children.
    assert (m ∈ List.filter CitizenProfile.is_child
                  (CitizenProfile.family_members c)) as Hmem.
    { apply list_elem_of_In, filter_In. by split. }
    destruct (List.filter _ _); [by apply elem_of_nil in Hmem|simpl; lia].
Qed.

Lemma child_rules_imply_has_children_witness :
  (CitizenProfile.num_daughters citizen_with_daughter
   <= CitizenProfile.num_children citizen_with_daughter) /\
  (EligibilityRule.rule_type rule_has_daughters = HAS_DAUGHTERS \/
   (EligibilityRule.rule_type rule_has_daughters = CUSTOM /\
    EligibilityRule.condition rule_has_daughters = "child_age_max") ->
   evaluate_rule rule_has_daughters citizen_with_daughter = Ok true ->
   evaluate_rule rule_has_children citizen_with_daughter = Ok true) /\
  (CitizenProfile.has_school_age_children citizen_with_daughter = true ->
   evaluate_rule rule_has_children citizen_with_daughter = Ok true).
Proof.
  apply (child_rules_imply_has_children rule_has_daughters rule_has_children
           citizen_with_daughter).
  reflexivity.
Defined.

Lemma scheme_map_fold_lookup l (m : gmap string Scheme.t) i s :
  fold_left (fun m s => <[Scheme.scheme_id s := s]> m) l m !! i = Some s ->
  (s ∈ l /\ Scheme.scheme_id s = i) \/ m !! i = Some s.
Proof.
  revert m. induction l as [|x l IH]; intros m; simpl; [by right|].
  intros H. apply IH in H as [[Hin Hid]|H].
  - left. split; [by right|done].
  - destruct (decide (Scheme.scheme_id x = i)) as [Heq|Hne].
    + rewrite Heq, lookup_insert_eq in H. injection H as <-.
      left. split; [by left|done].
    + rewrite lookup_insert_ne in H by done. by right.
Qed.

Lemma scheme_map_fold_is_Some l (m : gmap string Scheme.t) i :
  is_Some (fold_left (fun m s => <[Scheme.scheme_id s := s]> m) l m !! i) <->
  i ∈ Scheme.scheme_id <$> l \/ is_Some (m !! i).
Proof.
  revert m. induction l as [|x l IH]; intros m.
  - simpl. rewrite elem_of_nil. tauto.
  - cbn [fold_left]. rewrite IH, fmap_cons, elem_of_cons, lookup_insert_is_Some.
    destruct (decide (Scheme.scheme_id x = i)) as [<-|Hne]; intuition congruence.
Qed.

Lemma scheme_map_lookup catalog i s :
  scheme_map catalog !! i = Some s -> s ∈ catalog /\ Scheme.scheme_id s = i.
Proof.
  intros H. apply scheme_map_fold_lookup in H as [H|H]; [done|].
  by rewrite lookup_empty in H.
Qed.

Lemma in_scheme_map_ids catalog i :
  in_scheme_map catalog i = true <-> i ∈ catalog_ids catalog.
Proof.
  unfold in_scheme_map, scheme_map, catalog_ids.
  rewrite bool_decide_eq_true, scheme_map_fold_is_Some, lookup_empty.
  split; [intros [H|H]; [done|by destruct H]|by left].
Qed.

Lemma fold_left_invariant_in {S X} (P : S -> Prop) (f : S -> X -> S) xs s :
  (forall s x, x ∈ xs -> P s -> P (f s x)) -> P s -> P (fold_left f xs s).
Proof.
  revert s. induction xs as [|x xs IH]; intros s Hf Hs; simpl; [done|].
  apply IH.
  - intros s' x' Hin. apply Hf. by right.
  - apply Hf; [by left|done].
Qed.

Lemma edges_declared_add_node catalog n g :
  edges_declared catalog g -> edges_declared catalog (DiGraph.add_node n g).
Proof. done. Qed.

Lemma edges_declared_add_edge catalog u v r g :
  edge_declared catalog (u, v, r) ->
  edges_declared catalog g -> edges_declared catalog (DiGraph.add_edge u v r g).
Proof.
  intros He Hg e Hin. simpl in Hin.
  apply elem_of_put_edge in Hin as [->|Hin]; [done|by apply Hg].
Qed.

Lemma build_scheme_declared catalog g s :
  s ∈ catalog -> edges_declared catalog g ->
  edges_declared catalog (build_scheme catalog g s).
Proof.
  intros Hs Hg. unfold build_scheme.
  apply fold_left_invariant_in.
  { intros g' cid Hin Hg'. unfold build_conflict.
    destruct (in_scheme_map catalog cid) eqn:Hm; [|done].
    apply in_scheme_map_ids in Hm.
    apply edges_declared_add_edge; [|apply edges_declared_add_edge; [|done]];
      exists s; (split; [done|]); simpl; [right|left]; done. }
  apply fold_left_invariant_in.
  { intros g' dep Hin Hg'. unfold build_dep.
    destruct (in_scheme_map catalog dep) eqn:Hm; [|done].
    apply in_scheme_map_ids in Hm.
    apply edges_declared_add_edge; [|done]. by exists s. }
  apply fold_left_invariant_in.
  { intros g' doc Hin Hg'. unfold build_doc.
    apply edges_declared_add_edge.
    - exists s. split; [done|]. simpl. split; [done|]. by exists doc.
    - by destruct (DiGraph.has_node g' _). }
  apply fold_left_invariant_in.
  { intros g' rule Hin Hg'. unfold build_rule.
    apply edges_declared_add_edge; [|done].
    exists s. split; [done|]. simpl. split; [done|]. by exists rule. }
  done.
Qed.

Lemma build_declared catalog : edges_declared catalog (_build catalog).
Proof.
  unfold _build. apply fold_left_invariant_in.
  - intros g s Hs. by apply build_scheme_declared.
  - intros e He. by apply elem_of_nil in He.
Qed.

(** X5. Every edge of the graph built from a catalog is declared by a scheme of
    the catalog: it starts at a catalog scheme id, joins two nodes of the
    graph, a REQUIRES edge ends at the node of one of the scheme's rules, a
    NEEDS_DOCUMENT edge at one of its documents, and a DEPENDS_ON or
    CONFLICTS_WITH edge joins two catalog scheme ids, one of which lists
    the other. *)
Theorem build_edges_declared (catalog : list Scheme.t) (u v : string)
    (r : Relation) :
  has_edge (_build catalog) r u v ->
  edge_declared catalog (u, v, r) /\
  u ∈ catalog_ids catalog /\
  u ∈ DiGraph.nodes (_build catalog) /\ v ∈ DiGraph.nodes (_build catalog) /\
  (r = DEPENDS_ON \/ r = CONFLICTS_WITH -> v ∈ catalog_ids catalog).
Proof.
  intros He.
  pose proof (has_edge_nodes _ _ _ _ (build_wf catalog) He) as [Hu Hv].
  apply has_edge_inv, build_declared in He.
  split_and!; [done| |done|done|].
  - destruct He as (s & Hs & He). unfold catalog_ids.
    destruct r; cbn in He.
    + destruct He as [-> _]. by apply list_elem_of_fmap_2.
    + destruct He as [-> _]. by apply list_elem_of_fmap_2.
    + destruct He as [-> _]. by apply list_elem_of_fmap_2.
    + destruct He as [[-> _]|(_ & _ & H)]; [by apply list_elem_of_fmap_2|done].
  - destruct He as (s & Hs & He).
    intros [->| ->]; cbn in He.
    + tauto.
    + destruct He as [(_ & _ & H)|[-> _]]; [done|].
      by apply list_elem_of_fmap_2.
Qed.

Lemma build_edges_declared_witness :
  edge_declared SCHEMES ("pmay", "pm_jan_dhan", DEPENDS_ON) /\
  "pmay" ∈ catalog_ids SCHEMES /\
  "pmay" ∈ DiGraph.nodes (_build SCHEMES) /\
  "pm_jan_dhan" ∈ DiGraph.nodes (_build SCHEMES) /\
  (DEPENDS_ON = DEPENDS_ON \/ DEPENDS_ON = CONFLICTS_WITH ->
   "pm_jan_dhan" ∈ catalog_ids SCHEMES).
Proof.
  apply (build_edges_declared SCHEMES "pmay" "pm_jan_dhan" DEPENDS_ON).
  vm_compute. reflexivity.
Defined.

Lemma dep_path_source g k a x :
  (1 <= k)%nat -> dep_path g k a x -> exists b, has_edge g DEPENDS_ON x b.
Proof.
  intros Hk Hp. destruct Hp as [|k a b c _ He]; [lia|]. by exists b.
Qed.

Lemma scheme_names_all catalog ids :
  Forall (fun i => i ∈ catalog_ids catalog) ids ->
  names_of catalog ids (scheme_names catalog ids).
Proof.
  unfold names_of, scheme_names.
  induction 1 as [|i ids Hi _ IH]; [constructor|].
  apply in_scheme_map_ids in Hi. unfold in_scheme_map in Hi.
  apply bool_decide_eq_true in Hi as [s Hs].
  cbn [omap list_omap]. rewrite Hs. simpl.
  constructor; [by exists s|exact IH].
Qed.

(** X6. On the graph built from a catalog, the benefit chain of a node consists
    of catalog scheme ids only, so [find_benefit_chains] resolves every one
    of them: it returns one name per dependent, in the same order. *)
Theorem find_benefit_chains_names_every_dependent
    (catalog : list Scheme.t) (scheme_id : string) :
  scheme_id ∈ DiGraph.nodes (_build catalog) ->
  exists ids names,
    find_benefit_chain (_build catalog) scheme_id MAX_HOPS = Ok ids /\
    EligibilityAgent.find_benefit_chains catalog (_build catalog) scheme_id
      = Ok names /\
    Forall (fun i => i ∈ catalog_ids catalog) ids /\
    names_of catalog ids names.
Proof.
  intros Hn.
  destruct (find_benefit_chain_spec _ _ MAX_HOPS (build_wf catalog) Hn)
    as (ids & Hids & _ & _ & Hmem & _).
  assert (Forall (fun i => i ∈ catalog_ids catalog) ids) as Hall.
  { apply Forall_forall. intros x Hx.
    apply Hmem in Hx as (_ & k & [Hk _] & Hp).
    destruct (dep_path_source _ _ _ _ Hk Hp) as [b Hb].
    apply has_edge_inv, build_declared in Hb as (s & Hs & Hsrc & _).
    cbn in Hsrc. rewrite Hsrc. by apply list_elem_of_fmap_2. }
  exists ids, (scheme_names catalog ids).
  unfold EligibilityAgent.find_benefit_chains. rewrite Hids.
  split_and!; [done|done|done|by apply scheme_names_all].
Qed.

Lemma find_benefit_chains_names_every_dependent_witness :
  exists ids names,
    find_benefit_chain (_build SCHEMES) "pm_jan_dhan" MAX_HOPS = Ok ids /\
    EligibilityAgent.find_benefit_chains SCHEMES (_build SCHEMES) "pm_jan_dhan"
      = Ok names /\
    Forall (fun i => i ∈ catalog_ids SCHEMES) ids /\
    names_of SCHEMES ids names.
Proof.
  apply (find_benefit_chains_names_every_dependent SCHEMES "pm_jan_dhan").
  vm_compute. repeat constructor.
Defined.

Lemma has_edge_add_node n g r a b :
  has_edge g r a b -> has_edge (DiGraph.add_node n g) r a b.
Proof. done. Qed.

Lemma has_edge_add_edge_keep u v r' g r a b :
  (u, v) ≠ (a, b) \/ r' = r ->
  has_edge g r a b -> has_edge (DiGraph.add_edge u v r' g) r a b.
Proof.
  intros Hc He. destruct (decide ((u, v) = (a, b))) as [[= -> ->]|Hne].
  - destruct Hc as [Hc| ->]; [done|]. apply has_edge_add_edge_eq.
  - by apply has_edge_add_edge_ne.
Qed.

Lemma build_rule_keeps_edge sid rules g r a b :
  sid ≠ a -> has_edge g r a b ->
  has_edge (fold_left (build_rule sid) rules g) r a b.
Proof.
  intros Hne Hg. apply (fold_left_invariant (fun g => has_edge g r a b)); [|done].
  intros g' rule He. unfold build_rule. apply has_edge_add_edge_keep; [left; congruence|done].
Qed.

Lemma build_doc_keeps_edge sid docs g r a b :
  sid ≠ a -> has_edge g r a b ->
  has_edge (fold_left (build_doc sid) docs g) r a b.
Proof.
  intros Hne Hg. apply (fold_left_invariant (fun g => has_edge g r a b)); [|done].
  intros g' doc He. unfold build_doc. apply has_edge_add_edge_keep; [left; congruence|].
  by destruct (DiGraph.has_node g' _).
Qed.

Lemma build_dep_keeps_edge catalog sid deps g r a b :
  sid ≠ a \/ r = DEPENDS_ON -> has_edge g r a b ->
  has_edge (fold_left (build_dep catalog sid) deps g) r a b.
Proof.
  intros Hc Hg. apply (fold_left_invariant (fun g => has_edge g r a b)); [|done].
  intros g' dep He. unfold build_dep. destruct (in_scheme_map catalog dep); [|done].
  apply has_edge_add_edge_keep; [|done].
  destruct Hc as [Hc| ->]; [left; congruence|by right].
Qed.

Lemma build_conflict_keeps_edge catalog sid cs g r a b :
  r = CONFLICTS_WITH \/ ((sid ≠ a \/ b ∉ cs) /\ (sid ≠ b \/ a ∉ cs)) ->
  has_edge g r a b ->
  has_edge (fold_left (build_conflict catalog sid) cs g) r a b.
Proof.
  intros Hc Hg.
  apply (fold_left_invariant_in (fun g => has_edge g r a b)); [|done].
  intros g' c Hin He. unfold build_conflict. destruct (in_scheme_map catalog c); [|done].
  destruct Hc as [->|[H1 H2]].
  - apply has_edge_add_edge_keep; [by right|].
    apply has_edge_add_edge_keep; [by right|done].
  - apply has_edge_add_edge_keep.
    { left. intros [= -> ->]. destruct H2 as [H2|H2]; done. }
    apply has_edge_add_edge_keep; [|done].
    left. intros [= -> ->]. destruct H1 as [H1|H1]; done.
Qed.

(** A scheme with another id leaves the edges that start at [a] alone,
    unless it declares a conflict with [a]. *)
Lemma build_scheme_keeps_edge catalog g s r a b :
  Scheme.scheme_id s ≠ a ->
  r = CONFLICTS_WITH \/ Scheme.scheme_id s ≠ b \/ a ∉ Scheme.conflicts_with s ->
  has_edge g r a b -> has_edge (build_scheme catalog g s) r a b.
Proof.
  intros Hne Hc He. unfold build_scheme.
  apply build_conflict_keeps_edge.
  { destruct Hc as [->|Hc]; [by left|right]. split; [by left|done]. }
  apply build_dep_keeps_edge; [by left|].
  apply build_doc_keeps_edge; [done|].
  apply build_rule_keeps_edge; [done|].
  by apply has_edge_add_node.
Qed.

Lemma fold_conflict_edge catalog sid cs t : forall g,
  t ∈ cs -> in_scheme_map catalog t = true ->
  has_edge (fold_left (build_conflict catalog sid) cs g) CONFLICTS_WITH sid t.
Proof.
  induction cs as [|c cs IH]; intros g Ht Hm; [by apply elem_of_nil in Ht|].
  cbn [fold_left]. apply elem_of_cons in Ht as [->|Ht]; [|by apply IH].
  apply build_conflict_keeps_edge; [by left|].
  by apply build_conflict_symmetric.
Qed.

Lemma fold_dep_edge catalog sid deps t : forall g,
  t ∈ deps -> in_scheme_map catalog t = true ->
  has_edge (fold_left (build_dep catalog sid) deps g) DEPENDS_ON sid t.
Proof.
  induction deps as [|d deps IH]; intros g Ht Hm; [by apply elem_of_nil in Ht|].
  cbn [fold_left]. apply elem_of_cons in Ht as [->|Ht]; [|by apply IH].
  apply build_dep_keeps_edge; [by right|].
  unfold build_dep. rewrite Hm. apply has_edge_add_edge_eq.
Qed.

Lemma build_scheme_conflict_edge catalog g s t :
  t ∈ Scheme.conflicts_with s -> in_scheme_map catalog t = true ->
  has_edge (build_scheme catalog g s) CONFLICTS_WITH (Scheme.scheme_id s) t.
Proof. intros Ht Hm. unfold build_scheme. by apply fold_conflict_edge. Qed.

Lemma build_scheme_dep_edge catalog g s t :
  t ∈ Scheme.depends_on s -> in_scheme_map catalog t = true ->
  t ∉ Scheme.conflicts_with s ->
  has_edge (build_scheme catalog g s) DEPENDS_ON (Scheme.scheme_id s) t.
Proof.
  intros Ht Hm Hnc. unfold build_scheme.
  apply build_conflict_keeps_edge.
  { right. split; [by right|].
    destruct (decide (Scheme.scheme_id s = t)) as [Heq|Hne]; [|by left].
    right. by rewrite Heq. }
  by apply fold_dep_edge.
Qed.

Lemma fold_build_keeps_edge catalog schemes r a b : forall g,
  (forall s, s ∈ schemes -> Scheme.scheme_id s ≠ a) ->
  (r = CONFLICTS_WITH \/
   forall s, s ∈ schemes -> Scheme.scheme_id s = b ->
     a ∉ Scheme.conflicts_with s) ->
  has_edge g r a b ->
  has_edge (fold_left (build_scheme catalog) schemes g) r a b.
Proof.
  intros g Hids Hc Hg.
  apply (fold_left_invariant_in (fun g => has_edge g r a b)); [|done].
  intros g' s Hs He.
  apply build_scheme_keeps_edge; [by apply Hids| |done].
  destruct Hc as [->|Hc]; [by left|right].
  destruct (decide (Scheme.scheme_id s = b)) as [Heq|Hne]; [right|by left].
  by apply Hc.
Qed.

Lemma NoDup_ids_split (catalog : list Scheme.t) s :
  NoDup (catalog_ids catalog) -> s ∈ catalog ->
  exists l1 l2, catalog = l1 ++ s :: l2 /\
    forall s', s' ∈ l2 -> Scheme.scheme_id s' ≠ Scheme.scheme_id s.
Proof.
  intros Hnd Hs. apply list_elem_of_split in Hs as (l1 & l2 & ->).
  exists l1, l2. split; [done|]. intros s' Hs' Heq.
  unfold catalog_ids in Hnd. rewrite fmap_app, fmap_cons in Hnd.
  apply NoDup_app in Hnd as (_ & _ & Hnd). apply NoDup_cons in Hnd as [Hnot _].
  apply Hnot. rewrite <- Heq. by apply list_elem_of_fmap_2.
Qed.

(** X7. In a catalog with distinct scheme ids, a conflict that a scheme
    declares with a catalog scheme is a CONFLICTS_WITH edge of the built
    graph, from the declaring scheme to the other, and [detect_conflicts]
    reports the pair whenever both ids are among the candidates. *)
Theorem declared_conflict_is_detected (catalog : list Scheme.t)
    (s : Scheme.t) (t : string) :
  NoDup (catalog_ids catalog) ->
  s ∈ catalog -> t ∈ Scheme.conflicts_with s -> t ∈ catalog_ids catalog ->
  has_edge (_build catalog) CONFLICTS_WITH (Scheme.scheme_id s) t /\
  forall scheme_ids,
    (forall i, i ∈ scheme_ids -> i ∈ DiGraph.nodes (_build catalog)) ->
    Scheme.scheme_id s ∈ scheme_ids -> t ∈ scheme_ids ->
    exists r,
      detect_conflicts (_build catalog) scheme_ids = Ok r /\
      sorted_pair (Scheme.scheme_id s) t ∈ r.
Proof.
  intros Hnd Hs Ht Hcat.
  assert (has_edge (_build catalog) CONFLICTS_WITH (Scheme.scheme_id s) t) as He.
  { destruct (NoDup_ids_split catalog s Hnd Hs) as (l1 & l2 & Heq & Hl2).
    unfold _build. rewrite Heq at 2. rewrite fold_left_app. cbn [fold_left].
    apply fold_build_keeps_edge; [done|by left|].
    apply build_scheme_conflict_edge; [done|by apply in_scheme_map_ids]. }
  split; [done|]. intros ids Hnodes Hsid Htid.
  destruct (detect_conflicts_spec _ ids Hnodes) as (r & Hr & _ & Hmem).
  exists r. split; [done|]. apply Hmem. by exists (Scheme.scheme_id s), t.
Qed.

Lemma declared_conflict_is_detected_witness :
  has_edge (_build SCHEMES) CONFLICTS_WITH
    (Scheme.scheme_id Catalog.sukanya_samriddhi) "beti_bachao" /\
  forall scheme_ids,
    (forall i, i ∈ scheme_ids -> i ∈ DiGraph.nodes (_build SCHEMES)) ->
    Scheme.scheme_id Catalog.sukanya_samriddhi ∈ scheme_ids ->
    "beti_bachao" ∈ scheme_ids ->
    exists r,
      detect_conflicts (_build SCHEMES) scheme_ids = Ok r /\
      sorted_pair (Scheme.scheme_id Catalog.sukanya_samriddhi) "beti_bachao" ∈ r.
Proof.
  apply (declared_conflict_is_detected SCHEMES Catalog.sukanya_samriddhi
           "beti_bachao").
  - apply (bool_decide_eq_true_1 _). vm_compute. reflexivity.
  - unfold SCHEMES. repeat constructor.
  - vm_compute. repeat constructor.
  - vm_compute. repeat constructor.
Defined.

(** X8. In a catalog with distinct scheme ids, a dependency that a scheme
    declares on a catalog scheme is a DEPENDS_ON edge of the built graph,
    provided neither of the two declares a conflict with the other (a
    conflict edge would replace it); the declaring scheme then is in the
    benefit chain of the other for every hop bound of at least 1. *)
Theorem declared_dependency_is_in_chain (catalog : list Scheme.t)
    (s : Scheme.t) (t : string) (max_hops : Z) :
  NoDup (catalog_ids catalog) ->
  s ∈ catalog -> t ∈ Scheme.depends_on s -> t ∈ catalog_ids catalog ->
  t ∉ Scheme.conflicts_with s ->
  (forall s', s' ∈ catalog -> Scheme.scheme_id s' = t ->
     Scheme.scheme_id s ∉ Scheme.conflicts_with s') ->
  has_edge (_build catalog) DEPENDS_ON (Scheme.scheme_id s) t /\
  (Scheme.scheme_id s ≠ t -> 1 <= max_hops ->
   exists l,
     find_benefit_chain (_build catalog) t max_hops = Ok l /\
     Scheme.scheme_id s ∈ l).
Proof.
  intros Hnd Hs Ht Hcat Hnc Hnc'.
  assert (has_edge (_build catalog) DEPENDS_ON (Scheme.scheme_id s) t) as He.
  { destruct (NoDup_ids_split catalog s Hnd Hs) as (l1 & l2 & Heq & Hl2).
    unfold _build. rewrite Heq at 2. rewrite fold_left_app. cbn [fold_left].
    apply fold_build_keeps_edge; [done| |].
    - right. intros s' Hs'. apply Hnc'. rewrite Heq.
      apply elem_of_app. right. by right.
    - apply build_scheme_dep_edge; [done|by apply in_scheme_map_ids|done]. }
  split; [done|]. intros Hne Hhops.
  pose proof (has_edge_nodes _ _ _ _ (build_wf catalog) He) as [_ Hnode].
  destruct (find_benefit_chain_spec _ t max_hops (build_wf catalog) Hnode)
    as (l & Hl & _ & _ & Hmem & _).
  exists l. split; [done|]. apply Hmem. split; [done|].
  exists 1%nat. split; [lia|]. eapply dep_path_S; [apply dep_path_0|done].
Qed.

Lemma declared_dependency_is_in_chain_witness :
  has_edge (_build SCHEMES) DEPENDS_ON (Scheme.scheme_id Catalog.pmay)
    "pm_jan_dhan" /\
  (Scheme.scheme_id Catalog.pmay ≠ "pm_jan_dhan" -> 1 <= MAX_HOPS ->
   exists l,
     find_benefit_chain (_build SCHEMES) "pm_jan_dhan" MAX_HOPS = Ok l /\
     Scheme.scheme_id Catalog.pmay ∈ l).
Proof.
  apply (declared_dependency_is_in_chain SCHEMES Catalog.pmay "pm_jan_dhan"
           MAX_HOPS).
  - apply (bool_decide_eq_true_1 _). vm_compute. reflexivity.
  - unfold SCHEMES. repeat constructor.
  - vm_compute. repeat constructor.
  - vm_compute. repeat constructor.
  - apply (bool_decide_eq_false_1 _). vm_compute. reflexivity.
  - intros s' Hs' Hid. unfold SCHEMES in Hs'.
    repeat (apply elem_of_cons in Hs' as [->|Hs']; [try discriminate Hid|]).
    + apply (bool_decide_eq_false_1 _). vm_compute. reflexivity.
    + by apply elem_of_nil in Hs'.
Defined.

Lemma build_rule_typed_graph sid rules gt :
  (fold_left (build_rule_typed sid) rules gt).1
  = fold_left (build_rule sid) rules gt.1.
Proof.
  revert gt. induction rules as [|r rules IH]; intros gt; [done|].
  simpl. by rewrite IH.
Qed.

Lemma build_doc_typed_graph sid docs gt :
  (fold_left (build_doc_typed sid) docs gt).1
  = fold_left (build_doc sid) docs gt.1.
Proof.
  revert gt. induction docs as [|d docs IH]; intros gt; [done|].
  simpl. by rewrite IH.
Qed.

Lemma build_scheme_typed_graph catalog gt s :
  (build_scheme_typed catalog gt s).1 = build_scheme catalog gt.1 s.
Proof.
  unfold build_scheme_typed, build_scheme. cbn [fst].
  by rewrite build_doc_typed_graph, build_rule_typed_graph.
Qed.

Lemma fold_build_typed_graph catalog schemes gt :
  (fold_left (build_scheme_typed catalog) schemes gt).1
  = fold_left (build_scheme catalog) schemes gt.1.
Proof.
  revert gt. induction schemes as [|s schemes IH]; intros gt; [done|].
  simpl. by rewrite IH, build_scheme_typed_graph.
Qed.

Lemma build_typed_graph catalog : (_build_typed catalog).1 = _build catalog.
Proof. apply fold_build_typed_graph. Qed.

Lemma nodes_typed_set catalog g types n ty :
  ty ∈ NODE_TYPES ->
  nodes_typed catalog (g, types) ->
  nodes_typed catalog (g, <[n := ty]> types).
Proof.
  intros Hty [Ha Hb]. split; cbn [fst snd] in *.
  - intros m ty'. destruct (decide (n = m)) as [->|Hne].
    + rewrite lookup_insert_eq. by intros [= <-].
    + rewrite lookup_insert_ne by done. apply Ha.
  - intros m Hm. rewrite lookup_insert_is_Some.
    destruct (Hb m Hm) as [H|H]; [|by right].
    left. destruct (decide (n = m)); auto.
Qed.

Lemma nodes_typed_add_node catalog g types n :
  is_Some (types !! n) \/ n ∈ catalog_ids catalog ->
  nodes_typed catalog (g, types) ->
  nodes_typed catalog (DiGraph.add_node n g, types).
Proof.
  intros Hn [Ha Hb]. split; [done|]. cbn [fst snd] in *.
  intros m Hm. apply elem_of_add_node_list in Hm as [->|Hm]; auto.
Qed.

Lemma nodes_typed_add_edge catalog g types u v r :
  is_Some (types !! u) \/ u ∈ catalog_ids catalog ->
  is_Some (types !! v) \/ v ∈ catalog_ids catalog ->
  nodes_typed catalog (g, types) ->
  nodes_typed catalog (DiGraph.add_edge u v r g, types).
Proof.
  intros Hu Hv [Ha Hb]. split; [done|]. cbn [fst snd] in *.
  intros m Hm. apply elem_of_add_node_list in Hm as [->|Hm]; [done|].
  apply elem_of_add_node_list in Hm as [->|Hm]; auto.
Qed.

Lemma keeps_types_insert g g' (types : gmap string string) n ty :
  keeps_types (g, types) (g', <[n := ty]> types).
Proof.
  intros m Hm. cbn [snd] in *. rewrite lookup_insert_is_Some.
  destruct (decide (n = m)); auto.
Qed.

Lemma fold_left_typed {X} catalog (f : typed_graph -> X -> typed_graph) xs sid :
  (forall gt x, is_Some (gt.2 !! sid) -> nodes_typed catalog gt ->
     nodes_typed catalog (f gt x) /\ keeps_types gt (f gt x)) ->
  forall gt, is_Some (gt.2 !! sid) -> nodes_typed catalog gt ->
    nodes_typed catalog (fold_left f xs gt) /\ keeps_types gt (fold_left f xs gt).
Proof.
  intros Hf. induction xs as [|x xs IH]; intros gt Hsid Hgt; simpl.
  - split; [done|by intros ?].
  - destruct (Hf gt x Hsid Hgt) as [H1 H2].
    destruct (IH (f gt x) (H2 _ Hsid) H1) as [H3 H4].
    split; [done|]. intros n Hn. by apply H4, H2.
Qed.

Lemma build_rule_typed_ok catalog sid gt rule :
  is_Some (gt.2 !! sid) -> nodes_typed catalog gt ->
  nodes_typed catalog (build_rule_typed sid gt rule) /\
  keeps_types gt (build_rule_typed sid gt rule).
Proof.
  destruct gt as [g types]. intros Hsid Hgt.
  unfold build_rule_typed, build_rule. cbn [fst snd] in *.
  set (rule_node := ("rule_" ++ _)%string).
  split; [|apply keeps_types_insert].
  assert (is_Some (<[rule_node := "rule"]> types !! rule_node)) as Hr
    by (rewrite lookup_insert_eq; done).
  apply nodes_typed_add_edge; [left|by left|].
  - apply lookup_insert_is_Some. destruct (decide (rule_node = sid)); auto.
  - apply nodes_typed_add_node; [by left|].
    apply nodes_typed_set; [|done]. unfold NODE_TYPES. set_solver.
Qed.

Lemma build_doc_typed_ok catalog sid gt doc :
  is_Some (gt.2 !! sid) -> nodes_typed catalog gt ->
  nodes_typed catalog (build_doc_typed sid gt doc) /\
  keeps_types gt (build_doc_typed sid gt doc).
Proof.
  destruct gt as [g types]. intros Hsid Hgt.
  unfold build_doc_typed, build_doc. cbn [fst snd] in *.
  set (doc_node := ("doc_" ++ _)%string).
  unfold DiGraph.has_node. case_bool_decide as Hnode.
  - split; [|by intros ?].
    apply nodes_typed_add_edge; [by left| |done].
    destruct Hgt as [_ Hb]. by apply Hb.
  - split; [|apply keeps_types_insert].
    assert (is_Some (<[doc_node := "document"]> types !! doc_node)) as Hd
      by (rewrite lookup_insert_eq; done).
    apply nodes_typed_add_edge; [left|by left|].
    + apply lookup_insert_is_Some. destruct (decide (doc_node = sid)); auto.
    + apply nodes_typed_add_node; [by left|].
      apply nodes_typed_set; [|done]. unfold NODE_TYPES. set_solver.
Qed.

Lemma build_dep_typed_ok catalog sid types deps : forall g,
  is_Some (types !! sid) -> nodes_typed catalog (g, types) ->
  nodes_typed catalog (fold_left (build_dep catalog sid) deps g, types).
Proof.
  induction deps as [|d deps IH]; intros g Hsid Hg; [done|]. simpl.
  apply IH; [done|]. unfold build_dep.
  destruct (in_scheme_map catalog d) eqn:Hd; [|done].
  apply nodes_typed_add_edge; [by left| |done].
  right. by apply in_scheme_map_ids.
Qed.

Lemma build_conflict_typed_ok catalog sid types cs : forall g,
  is_Some (types !! sid) -> nodes_typed catalog (g, types) ->
  nodes_typed catalog (fold_left (build_conflict catalog sid) cs g, types).
Proof.
  induction cs as [|c cs IH]; intros g Hsid Hg; [done|]. simpl.
  apply IH; [done|]. unfold build_conflict.
  destruct (in_scheme_map catalog c) eqn:Hc; [|done].
  apply in_scheme_map_ids in Hc.
  apply nodes_typed_add_edge; [by right|by left|].
  apply nodes_typed_add_edge; [by left|by right|done].
Qed.

Lemma build_scheme_typed_ok catalog gt s :
  nodes_typed catalog gt ->
  nodes_typed catalog (build_scheme_typed catalog gt s) /\
  keeps_types gt (build_scheme_typed catalog gt s) /\
  is_Some ((build_scheme_typed catalog gt s).2 !! Scheme.scheme_id s).
Proof.
  destruct gt as [g types]. intros Hgt. unfold build_scheme_typed.
  cbn [fst snd].
  set (sid := Scheme.scheme_id s).
  set (gt1 := (DiGraph.add_node sid g, <[sid := "scheme"]> types)).
  assert (is_Some (gt1.2 !! sid)) as Hsid1
    by (unfold gt1; cbn [snd]; rewrite lookup_insert_eq; done).
  assert (nodes_typed catalog gt1) as Hgt1.
  { unfold gt1. apply nodes_typed_add_node; [by left|].
    apply nodes_typed_set; [|done]. unfold NODE_TYPES. set_solver. }
  destruct (fold_left_typed catalog (build_rule_typed sid)
              (Scheme.eligibility_rules s) sid
              (build_rule_typed_ok catalog sid) gt1 Hsid1 Hgt1) as [Hgt2 Hk2].
  set (gt2 := fold_left (build_rule_typed sid) _ gt1) in *.
  destruct (fold_left_typed catalog (build_doc_typed sid)
              (Scheme.required_documents s) sid
              (build_doc_typed_ok catalog sid) gt2 (Hk2 _ Hsid1) Hgt2)
    as [Hgt3 Hk3].
  set (gt3 := fold_left (build_doc_typed sid) _ gt2) in *.
  assert (is_Some (gt3.2 !! sid)) as Hsid3 by by apply Hk3, Hk2.
  split_and!; [| |done].
  - apply build_conflict_typed_ok; [done|].
    apply build_dep_typed_ok; [done|]. by destruct gt3.
  - intros n Hn. cbn [snd] in *. apply Hk3, Hk2. unfold gt1. cbn [snd].
    apply lookup_insert_is_Some. destruct (decide (sid = n)); auto.
Qed.

Lemma fold_build_typed_ok catalog schemes : forall gt,
  nodes_typed catalog gt ->
  let gt' := fold_left (build_scheme_typed catalog) schemes gt in
  nodes_typed catalog gt' /\
  forall n, is_Some (gt.2 !! n) \/ n ∈ catalog_ids schemes ->
    is_Some (gt'.2 !! n).
Proof.
  induction schemes as [|s schemes IH]; intros gt Hgt; cbn [fold_left].
  - split; [done|]. intros n [H|H]; [done|]. by apply elem_of_nil in H.
  - destruct (build_scheme_typed_ok catalog gt s Hgt) as (H1 & H2 & H3).
    destruct (IH _ H1) as [H4 H5]. split; [done|].
    intros n [Hn|Hn]; apply H5.
    + left. by apply H2.
    + unfold catalog_ids in Hn. rewrite fmap_cons in Hn.
      apply elem_of_cons in Hn as [->|Hn]; [by left|by right].
Qed.

Lemma build_typed_all catalog n :
  n ∈ DiGraph.nodes (_build_typed catalog).1 ->
  exists ty, (_build_typed catalog).2 !! n = Some ty /\ ty ∈ NODE_TYPES.
Proof.
  intros Hn.
  destruct (fold_build_typed_ok catalog catalog (DiGraph.empty, ∅))
    as [[Ha Hb] Hc].
  { split; cbn [fst snd].
    - intros m ty. by rewrite lookup_empty.
    - intros m Hm. by apply elem_of_nil in Hm. }
  fold (_build_typed catalog) in *.
  assert (is_Some ((_build_typed catalog).2 !! n)) as [ty Hty].
  { destruct (Hb n Hn) as [H|H]; [done|]. apply Hc. by right. }
  exists ty. split; [done|]. by eapply Ha.
Qed.

Lemma count_nodes_partition (types : gmap string string) (l : list string) :
  Forall (fun n => exists ty, types !! n = Some ty /\ ty ∈ NODE_TYPES) l ->
  (length (List.filter (fun n => bool_decide (types !! n = Some "scheme")) l)
   + length (List.filter (fun n => bool_decide (types !! n = Some "rule")) l)
   + length (List.filter (fun n => bool_decide (types !! n = Some "document")) l)
   = length l)%nat.
Proof.
  induction 1 as [|n l (ty & Hty & Hin) _ IH]; [done|].
  cbn [List.filter]. rewrite Hty.
  unfold NODE_TYPES in Hin.
  repeat (apply elem_of_cons in Hin as [->|Hin]);
    [..|by apply elem_of_nil in Hin];
    repeat (case_bool_decide; try congruence); simpl; lia.
Qed.

(** X9. In the graph built from a catalog every node is typed scheme, rule or
    document: the three counts of [stats] add up to its node count, and
    its node and edge counts are those of the built graph. *)
Theorem stats_counts_add_up (catalog : list Scheme.t) :
  let st := stats (_build_typed catalog) in
  (_build_typed catalog).1 = _build catalog /\
  Stats.schemes st + Stats.rules st + Stats.documents st = Stats.total_nodes st /\
  Stats.total_nodes st = Z.of_nat (length (DiGraph.nodes (_build catalog))) /\
  Stats.total_edges st = Z.of_nat (length (DiGraph.edges (_build catalog))).
Proof.
  cbn zeta. split; [apply build_typed_graph|].
  unfold stats, count_nodes.
  cbn [Stats.schemes Stats.rules Stats.documents Stats.total_nodes
       Stats.total_edges].
  rewrite <- build_typed_graph. split; [|done].
  pose proof (count_nodes_partition (_build_typed catalog).2
                (DiGraph.nodes (_build_typed catalog).1)) as Hp.
  rewrite <- Hp; [lia|].
  apply Forall_forall. intros n Hn. by apply build_typed_all.
Qed.

Example stats_of_catalog :
  stats (_build_typed SCHEMES) = Stats.mk 60 92 16 34 10.
Proof. vm_compute. reflexivity. Qed.

Lemma scan_extends g frontier st st' :
  Chain.scan g frontier st = Ok st' ->
  Chain.dependents st `prefix_of` Chain.dependents st'.
Proof.
  revert st. induction frontier as [|c rest IH]; intros st; simpl.
  - intros [= ->]. done.
  - destruct (DiGraph.predecessors g c) as [preds|e]; [|done]. simpl.
    intros H. apply IH in H.
    destruct (visit_fold g c preds st) as (new & _ & Hd & _).
    simpl in Hd. rewrite Hd in H.
    etrans; [|exact H]. by apply prefix_app_r.
Qed.

Lemma loop_extends g hops : forall frontier vis deps l,
  Chain.loop g hops frontier vis deps = Ok l -> deps `prefix_of` l.
Proof.
  induction hops as [|hops IH]; intros frontier vis deps l; simpl.
  - by intros [= ->].
  - destruct (Chain.scan g frontier _) as [st|e] eqn:Hscan; [|done]. simpl.
    apply scan_extends in Hscan. simpl in Hscan.
    destruct (Chain.next_frontier st) as [|n ns].
    + by intros [= <-].
    + intros H. apply IH in H. by etrans.
Qed.

Lemma loop_prefix g h k : forall frontier vis deps l1 l2,
  Chain.loop g h frontier vis deps = Ok l1 ->
  Chain.loop g (h + k) frontier vis deps = Ok l2 ->
  l1 `prefix_of` l2.
Proof.
  induction h as [|h IH]; intros frontier vis deps l1 l2.
  - simpl. intros [= <-]. apply loop_extends.
  - cbn [Nat.add Chain.loop].
    destruct (Chain.scan g frontier _) as [st|e]; [|done]. simpl.
    destruct (Chain.next_frontier st) as [|n ns].
    + by intros [= <-] [= <-].
    + apply IH.
Qed.

(** X10. Raising the hop bound only appends: the chain found with a smaller
    bound is a prefix of the chain found with a larger one. *)
Theorem find_benefit_chain_hops_prefix (g : DiGraph.t) (scheme_id : string)
    (h1 h2 : Z) (l1 l2 : list string) :
  h1 <= h2 ->
  find_benefit_chain g scheme_id h1 = Ok l1 ->
  find_benefit_chain g scheme_id h2 = Ok l2 ->
  l1 `prefix_of` l2.
Proof.
  unfold find_benefit_chain. intros Hle H1 H2.
  replace (Z.to_nat h2) with (Z.to_nat h1 + (Z.to_nat h2 - Z.to_nat h1))%nat
    in H2 by lia.
  by eapply loop_prefix.
Qed.

Lemma find_benefit_chain_hops_prefix_witness :
  ["s1"; "s2"] `prefix_of` ["s1"; "s2"; "s3"; "s4"; "s5"].
Proof.
  apply (find_benefit_chain_hops_prefix (_build chain_catalog) "s0" 2 5);
    [lia|vm_compute; reflexivity..].
Defined.

Lemma successors_raise g n :
  n ∉ DiGraph.nodes g -> DiGraph.successors g n = Raise (NetworkXError n).
Proof.
  intros H. unfold DiGraph.successors, DiGraph.has_node.
  by rewrite bool_decide_eq_false_2.
Qed.

Lemma conflicts_scan_raise g ids l1 x l2 st :
  (forall s, s ∈ l1 -> s ∈ DiGraph.nodes g) -> x ∉ DiGraph.nodes g ->
  Conflicts.scan g ids (l1 ++ x :: l2) st = Raise (NetworkXError x).
Proof.
  intros Hl1 Hx. revert st. induction l1 as [|s l1 IH]; intros st; simpl.
  - by rewrite successors_raise.
  - rewrite successors_ok by (apply Hl1; by left). simpl.
    apply IH. intros s' Hs'. apply Hl1. by right.
Qed.

Lemma sorted_pair_cases a b :
  sorted_pair a b = (a, b) \/ sorted_pair a b = (b, a).
Proof. unfold sorted_pair. destruct (String.ltb b a); auto. Qed.

(** X11. For candidates that are all nodes of the graph, [detect_conflicts]
    returns without repetition exactly the ordered pairs of candidates
    joined by a CONFLICTS_WITH edge: both members of a reported pair are
    candidates, the smaller id comes first, and the result is empty
    exactly when no two candidates conflict. *)
Theorem detect_conflicts_exact (g : DiGraph.t) (scheme_ids : list string) :
  (forall s, s ∈ scheme_ids -> s ∈ DiGraph.nodes g) ->
  exists r,
    detect_conflicts g scheme_ids = Ok r /\
    NoDup r /\
    (forall a b, (a, b) ∈ r ->
       a ∈ scheme_ids /\ b ∈ scheme_ids /\ String.leb a b = true /\
       (has_edge g CONFLICTS_WITH a b \/ has_edge g CONFLICTS_WITH b a)) /\
    (forall a b, a ∈ scheme_ids -> b ∈ scheme_ids ->
       has_edge g CONFLICTS_WITH a b -> sorted_pair a b ∈ r) /\
    (r = [] <->
     forall a b, a ∈ scheme_ids -> b ∈ scheme_ids ->
       ~ has_edge g CONFLICTS_WITH a b).
Proof.
  intros Hn. destruct (detect_conflicts_spec g scheme_ids Hn) as (r & Hr & Hnd & Hmem).
  exists r. split_and!; [done|done| | |].
  - intros a b Hab. apply Hmem in Hab as (s & n & Hs & Hn' & He & Hp).
    pose proof (sorted_pair_ordered s n) as Hord. rewrite <- Hp in Hord.
    destruct (sorted_pair_cases s n) as [Hc|Hc]; rewrite Hc in Hp;
      injection Hp as -> ->; split_and!; auto.
  - intros a b Ha Hb He. apply Hmem. by exists a, b.
  - split.
    + intros -> a b Ha Hb He.
      assert (sorted_pair a b ∈ @nil (string * string)) as Hin
        by (apply Hmem; by exists a, b).
      by apply elem_of_nil in Hin.
    + intros Hno. destruct r as [|p r]; [done|]. exfalso.
      assert (p ∈ p :: r) as Hp by by left.
      apply Hmem in Hp as (s & n & Hs & Hn' & He & _).
      exact (Hno s n Hs Hn' He).
Qed.

Lemma detect_conflicts_exact_witness :
  exists r,
    detect_conflicts (_build SCHEMES)
      ["pm_kisan"; "beti_bachao"; "sukanya_samriddhi"] = Ok r /\
    NoDup r /\
    (forall a b, (a, b) ∈ r ->
       a ∈ ["pm_kisan"; "beti_bachao"; "sukanya_samriddhi"] /\
       b ∈ ["pm_kisan"; "beti_bachao"; "sukanya_samriddhi"] /\
       String.leb a b = true /\
       (has_edge (_build SCHEMES) CONFLICTS_WITH a b \/
        has_edge (_build SCHEMES) CONFLICTS_WITH b a)) /\
    (forall a b,
       a ∈ ["pm_kisan"; "beti_bachao"; "sukanya_samriddhi"] ->
       b ∈ ["pm_kisan"; "beti_bachao"; "sukanya_samriddhi"] ->
       has_edge (_build SCHEMES) CONFLICTS_WITH a b -> sorted_pair a b ∈ r) /\
    (r = [] <->
     forall a b,
       a ∈ ["pm_kisan"; "beti_bachao"; "sukanya_samriddhi"] ->
       b ∈ ["pm_kisan"; "beti_bachao"; "sukanya_samriddhi"] ->
       ~ has_edge (_build SCHEMES) CONFLICTS_WITH a b).
Proof.
  apply (detect_conflicts_exact (_build SCHEMES)
           ["pm_kisan"; "beti_bachao"; "sukanya_samriddhi"]).
  intros s Hs.
  repeat (apply elem_of_cons in Hs as [->|Hs];
          [vm_compute; repeat constructor|]).
  by apply elem_of_nil in Hs.
Defined.

(** X12. A candidate that is not a node of the graph makes [detect_conflicts]
    raise the NetworkXError of the first such candidate; the conflicts
    found among the candidates before it are lost. *)
Theorem detect_conflicts_unknown_candidate (g : DiGraph.t)
    (known : list string) (x : string) (rest : list string) :
  (forall s, s ∈ known -> s ∈ DiGraph.nodes g) ->
  x ∉ DiGraph.nodes g ->
  detect_conflicts g (known ++ x :: rest) = Raise (NetworkXError x).
Proof.
  intros Hk Hx. unfold detect_conflicts.
  by rewrite conflicts_scan_raise.
Qed.

Lemma detect_conflicts_unknown_candidate_witness :
  detect_conflicts (_build SCHEMES)
    (["sukanya_samriddhi"; "beti_bachao"] ++ "no_such_scheme" :: ["pm_kisan"])
  = Raise (NetworkXError "no_such_scheme").
Proof.
  apply (detect_conflicts_unknown_candidate (_build SCHEMES)
           ["sukanya_samriddhi"; "beti_bachao"] "no_such_scheme" ["pm_kisan"]).
  - intros s Hs.
    repeat (apply elem_of_cons in Hs as [->|Hs];
            [vm_compute; repeat constructor|]).
    by apply elem_of_nil in Hs.
  - apply (bool_decide_eq_false_1 _). vm_compute. reflexivity.
Defined.

(** X13. The order of the candidates only affects the order of the reported
    pairs: two permutations of the same candidate list give permutations
    of the same result. *)
Theorem detect_conflicts_order_independent (g : DiGraph.t)
    (ids ids' : list string) :
  ids ≡ₚ ids' ->
  (forall s, s ∈ ids -> s ∈ DiGraph.nodes g) ->
  exists r r',
    detect_conflicts g ids = Ok r /\ detect_conflicts g ids' = Ok r' /\
    r ≡ₚ r'.
Proof.
  intros Hp Hn.
  assert (forall s, s ∈ ids' -> s ∈ DiGraph.nodes g) as Hn'.
  { intros s Hs. apply Hn. by rewrite Hp. }
  destruct (detect_conflicts_spec g ids Hn) as (r & Hr & Hnd & Hmem).
  destruct (detect_conflicts_spec g ids' Hn') as (r' & Hr' & Hnd' & Hmem').
  exists r, r'. split_and!; [done..|].
  apply NoDup_Permutation; [done..|].
  intros p. rewrite Hmem, Hmem'.
  split; intros (s & n & Hs & Hn0 & He & ->); exists s, n;
    (split_and!; [by rewrite ?Hp in * | by rewrite ?Hp in * | done | done]).
Qed.

Lemma detect_conflicts_order_independent_witness :
  exists r r',
    detect_conflicts (_build SCHEMES) ["sukanya_samriddhi"; "beti_bachao"]
      = Ok r /\
    detect_conflicts (_build SCHEMES) ["beti_bachao"; "sukanya_samriddhi"]
      = Ok r' /\
    r ≡ₚ r'.
Proof.
  apply (detect_conflicts_order_independent (_build SCHEMES)
           ["sukanya_samriddhi"; "beti_bachao"]
           ["beti_bachao"; "sukanya_samriddhi"]).
  - apply perm_swap.
  - intros s Hs.
    repeat (apply elem_of_cons in Hs as [->|Hs];
            [vm_compute; repeat constructor|]).
    by apply elem_of_nil in Hs.
Defined.

Lemma scan_appends g frontier st st' :
  Chain.scan g frontier st = Ok st' ->
  exists new,
    Chain.dependents st' = Chain.dependents st ++ new /\
    Chain.next_frontier st' = Chain.next_frontier st ++ new.
Proof.
  revert st. induction frontier as [|c rest IH]; intros st; simpl.
  - intros [= ->]. exists []. by rewrite !app_nil_r.
  - destruct (DiGraph.predecessors g c) as [preds|e]; [|done]. simpl.
    intros H. apply IH in H as (new2 & Hd2 & Hn2).
    destruct (visit_fold g c preds st) as (new1 & _ & Hd1 & Hn1 & _).
    simpl in Hd1, Hn1. rewrite Hd1 in Hd2. rewrite Hn1 in Hn2.
    exists (new1 ++ new2). by rewrite !app_assoc.
Qed.

Lemma loop_stable g h : forall frontier vis deps l,
  Chain.loop g h frontier vis deps = Ok l ->
  Chain.loop g (S h) frontier vis deps = Ok l ->
  forall k, Chain.loop g (h + k) frontier vis deps = Ok l.
Proof.
  induction h as [|h IH]; intros frontier vis deps l.
  - cbn [Chain.loop]. intros [= <-].
    destruct (Chain.scan g frontier _) as [st|e] eqn:Hscan; [|done].
    cbn [mbind result_bind].
    destruct (scan_appends _ _ _ _ Hscan) as (new & Hd & Hn). simpl in Hd, Hn.
    destruct (Chain.next_frontier st) as [|n ns] eqn:Hnext.
    + intros [= Hdeps] [|k]; [done|]. cbn [Nat.add Chain.loop].
      rewrite Hscan. cbn [mbind result_bind]. by rewrite Hnext, Hdeps.
    + intros [= Hdeps]. exfalso. rewrite Hd in Hdeps.
      rewrite <- (app_nil_r deps) in Hdeps at 2.
      apply app_inv_head in Hdeps. by rewrite Hdeps in Hn.
  - intros H1 H2 k. cbn [Nat.add]. revert H1 H2.
    cbn [Chain.loop].
    destruct (Chain.scan g frontier _) as [st|e]; [|done].
    cbn [mbind result_bind].
    destruct (Chain.next_frontier st) as [|n ns]; [done|].
    intros H1 H2. by apply IH.
Qed.

(** X14. When one more hop changes nothing, no larger bound does: if the chain
    is the same for the bounds h and h + 1, it is that list for every
    bound from h on. *)
Theorem find_benefit_chain_stable_after_repeat (g : DiGraph.t)
    (scheme_id : string) (h : Z) (l : list string) :
  0 <= h ->
  find_benefit_chain g scheme_id h = Ok l ->
  find_benefit_chain g scheme_id (h + 1) = Ok l ->
  forall h', h <= h' -> find_benefit_chain g scheme_id h' = Ok l.
Proof.
  unfold find_benefit_chain. intros Hh H1 H2 h' Hle.
  replace (Z.to_nat (h + 1)) with (S (Z.to_nat h)) in H2 by lia.
  replace (Z.to_nat h') with (Z.to_nat h + (Z.to_nat h' - Z.to_nat h))%nat by lia.
  by apply loop_stable.
Qed.

Lemma find_benefit_chain_stable_after_repeat_witness :
  find_benefit_chain (_build SCHEMES) "pm_jan_dhan" 100
  = Ok ["pmay"; "standup_india"].
Proof.
  apply (find_benefit_chain_stable_after_repeat (_build SCHEMES) "pm_jan_dhan" 2
           ["pmay"; "standup_india"]);
    [lia|vm_compute; reflexivity|vm_compute; reflexivity|lia].
Defined.

Lemma catalog_ids_lookup catalog i :
  i ∈ catalog_ids catalog -> exists s, scheme_map catalog !! i = Some s.
Proof.
  intros Hi. apply in_scheme_map_ids in Hi. unfold in_scheme_map in Hi.
  by apply bool_decide_eq_true in Hi as [s Hs]; exists s.
Qed.

Lemma conflict_edge_ids catalog a b :
  has_edge (_build catalog) CONFLICTS_WITH a b ->
  a ∈ catalog_ids catalog /\ b ∈ catalog_ids catalog.
Proof.
  intros He. apply has_edge_inv, build_declared in He as (s & Hs & He).
  cbn in He.
  destruct He as [(Ha & _ & Hb)|(Hb & _ & Ha)].
  - split; [|done]. rewrite Ha. by apply list_elem_of_fmap_2.
  - split; [done|]. rewrite Hb. by apply list_elem_of_fmap_2.
Qed.

(** X15. On the graph built from a catalog, the agent's [detect_conflicts]
    returns one report per conflicting pair, in the same order, carrying
    the two ids and the catalog names of both schemes: the fallback to the
    bare id is never taken. *)
Theorem agent_detect_conflicts_names_both (catalog : list Scheme.t)
    (scheme_ids : list string) :
  (forall s, s ∈ scheme_ids -> s ∈ DiGraph.nodes (_build catalog)) ->
  exists pairs reports,
    detect_conflicts (_build catalog) scheme_ids = Ok pairs /\
    EligibilityAgent.detect_conflicts catalog (_build catalog) scheme_ids
      = Ok reports /\
    Forall2 (report_names catalog) pairs reports.
Proof.
  intros Hn.
  destruct (detect_conflicts_spec _ scheme_ids Hn) as (r & Hr & _ & Hmem).
  exists r, (map (EligibilityAgent.report_of catalog) r).
  unfold EligibilityAgent.detect_conflicts. rewrite Hr.
  split_and!; [done..|].
  assert (Forall (fun p => p.1 ∈ catalog_ids catalog /\
                           p.2 ∈ catalog_ids catalog) r) as Hall.
  { apply Forall_forall. intros p Hp.
    apply Hmem in Hp as (s & n & _ & _ & He & ->).
    apply conflict_edge_ids in He as [Hs Hn'].
    by destruct (sorted_pair_cases s n) as [-> | ->]. }
  clear Hr Hmem. induction Hall as [|p r [Ha Hb] _ IH]; [constructor|].
  simpl. constructor; [|exact IH].
  destruct (catalog_ids_lookup _ _ Ha) as [sa Hsa].
  destruct (catalog_ids_lookup _ _ Hb) as [sb Hsb].
  unfold report_names, EligibilityAgent.report_of, EligibilityAgent.name_or_id.
  simpl. rewrite Hsa, Hsb. split_and!; [done|done|by exists sa|by exists sb].
Qed.

Lemma agent_detect_conflicts_names_both_witness :
  exists pairs reports,
    detect_conflicts (_build SCHEMES) ["sukanya_samriddhi"; "beti_bachao"]
      = Ok pairs /\
    EligibilityAgent.detect_conflicts SCHEMES (_build SCHEMES)
      ["sukanya_samriddhi"; "beti_bachao"] = Ok reports /\
    Forall2 (report_names SCHEMES) pairs reports.
Proof.
  apply (agent_detect_conflicts_names_both SCHEMES
           ["sukanya_samriddhi"; "beti_bachao"]).
  intros s Hs.
  repeat (apply elem_of_cons in Hs as [->|Hs];
          [vm_compute; repeat constructor|]).
  by apply elem_of_nil in Hs.
Defined.





(** The rounded value is within one half of the argument. *)
Lemma round_half_even_near (x : Q) :
  (inject_Z (Py.round_half_even x) - (1 # 2) <= x
   <= inject_Z (Py.round_half_even x) + (1 # 2))%Q.
Proof.
  destruct x as [n d]. unfold Qle, Py.round_half_even. simpl.
  pose proof (Z.div_mod n (Zpos d) ltac:(lia)) as Hdiv.
  pose proof (Z.mod_pos_bound n (Zpos d) ltac:(lia)) as Hmod.
  set (q := n / Zpos d) in *. set (r := n mod Zpos d) in *.
  destruct (Z.compare_spec (2 * r) (Zpos d)); try destruct (Z.even q);
    split; rewrite ?Pos2Z.inj_mul; nia.
Qed.

Lemma round_fraction_full (k n : Z) :
  0 <= k <= n -> 0 < n < 200 ->
  (Py.round (inject_Z k / inject_Z n) 2 == 1)%Q -> k = n.
Proof.
  intros Hk Hn Hr.
  assert (0 < inject_Z n)%Q as Hn' by (rewrite <- (Zlt_Qlt 0); lia).
  set (t := (inject_Z k / inject_Z n)%Q) in *.
  assert (t * inject_Z n == inject_Z k)%Q as Ht.
  { unfold t. field. intros H0. rewrite H0 in Hn'. by apply Qlt_irrefl in Hn'. }
  change (Py.round t 2)
    with (inject_Z (Py.round_half_even (t * inject_Z 100)) / inject_Z 100)%Q in Hr.
  pose proof (round_half_even_near (t * inject_Z 100)) as [Hlo _].
  set (z := Py.round_half_even (t * inject_Z 100)) in *.
  assert (inject_Z z == 100)%Q as Hz.
  { assert (inject_Z z == inject_Z z / inject_Z 100 * 100)%Q as -> by field.
    rewrite Hr. reflexivity. }
  rewrite Hz in Hlo.
  assert (199 # 200 <= t)%Q as Hge.
  { change (inject_Z 100) with (100 # 1)%Q in Hlo. lra. }
  assert ((199 # 200) * inject_Z n <= inject_Z k)%Q as Hkn.
  { rewrite <- Ht. apply Qmult_le_compat_r; [done|by apply Qlt_le_weak]. }
  assert (inject_Z (199 * n) <= inject_Z (200 * k))%Q as Hz2.
  { rewrite !inject_Z_mult. change (inject_Z 199) with (199 # 1)%Q.
    change (inject_Z 200) with (200 # 1)%Q. lra. }
  rewrite <- Zle_Qle in Hz2. lia.
Qed.

Lemma discover_schemes_shape catalog c :
  catalog_parses catalog = true ->
  exists ms0,
    match_all catalog (_build catalog) c catalog = Ok ms0 /\
    discover_schemes catalog (_build catalog) c
      = Ok (assign_ranks (sort_desc match_lt ms0)) /\
    Forall2 (fun s m => match_scheme catalog (_build catalog) c s = Ok m)
      catalog ms0.
Proof.
  intros Hparse.
  destruct (match_all_spec catalog (_build catalog) c catalog)
    as (ms0 & Hms0 & Hall);
    [apply build_wf|apply build_has_scheme|done|].
  exists ms0. unfold discover_schemes. by rewrite Hms0.
Qed.

Lemma catalog_parses_scheme catalog s :
  catalog_parses catalog = true -> s ∈ catalog ->
  forallb rule_parses (Scheme.eligibility_rules s) = true.
Proof.
  unfold catalog_parses. rewrite forallb_forall.
  intros H Hs. by apply H, list_elem_of_In.
Qed.

Lemma elem_of_assign_ranks m ms :
  m ∈ assign_ranks ms ->
  exists i m', ms !! i = Some m' /\ m = SchemeMatch.set_rank m' (Z.of_nat i + 1).
Proof.
  unfold assign_ranks. intros [i Hi]%list_elem_of_lookup_1.
  apply list_lookup_imap_Some in Hi as (m' & Hm' & ->). by exists i, m'.
Qed.

(** Every match that discovery returns is the match of one catalog scheme,
    with a rank. *)
Lemma discover_schemes_member catalog c ms0 m :
  catalog_parses catalog = true ->
  Forall2 (fun s m => match_scheme catalog (_build catalog) c s = Ok m)
    catalog ms0 ->
  m ∈ assign_ranks (sort_desc match_lt ms0) ->
  exists s unlocks r,
    s ∈ catalog /\
    m = SchemeMatch.mk s
          (Py.round (satisfied_fraction c s) 2)
          (rule_label <$> List.filter (holds c) (Scheme.eligibility_rules s))
          (rule_label <$> List.filter (fails c) (Scheme.eligibility_rules s))
          (missing_docs (Scheme.required_documents s) (CitizenProfile.documents c))
          (Scheme.benefit_amount s)
          (Py.round (satisfied_fraction c s * Scheme.approval_rate s) 2)
          (bool_decide (List.filter (fails c) (Scheme.eligibility_rules s) = []))
          r
          (scheme_names catalog (Scheme.conflicts_with s))
          (scheme_names catalog unlocks).
Proof.
  intros Hparse Hall Hm.
  apply elem_of_assign_ranks in Hm as (i & m' & Hm'%list_elem_of_lookup_2 & ->).
  rewrite sort_desc_perm in Hm'.
  destruct (Forall2_elem_of_r _ _ _ _ Hall Hm') as (s & Hs & Hmatch).
  destruct (match_scheme_spec catalog (_build catalog) c s)
    as (unlocks & _ & Hspec);
    [apply build_wf|by apply build_has_scheme|by eapply catalog_parses_scheme|].
  rewrite Hspec in Hmatch. injection Hmatch as <-.
  by exists s, unlocks, (Z.of_nat i + 1).
Qed.

Lemma satisfied_fraction_cases c s :
  (Scheme.eligibility_rules s = [] /\ satisfied_fraction c s = 1%Q) \/
  ((0 < length (Scheme.eligibility_rules s))%nat /\
   satisfied_fraction c s
   = (inject_Z (Z.of_nat (length (List.filter (holds c)
                                    (Scheme.eligibility_rules s))))
      / inject_Z (Z.of_nat (length (Scheme.eligibility_rules s))))%Q).
Proof.
  unfold satisfied_fraction.
  destruct (Scheme.eligibility_rules s) as [|r rules]; [by left|right].
  split; [simpl; lia|done].
Qed.

Lemma filter_holds_fails c (l : list EligibilityRule.t) :
  (length (List.filter (holds c) l) + length (List.filter (fails c) l)
   = length l)%nat.
Proof. apply (List.filter_length (holds c) l). Qed.

Lemma satisfied_fraction_unit c s :
  (0 <= satisfied_fraction c s <= 1)%Q.
Proof.
  destruct (satisfied_fraction_cases c s) as [[_ ->]|[Hpos ->]];
    [split; discriminate|].
  pose proof (filter_holds_fails c (Scheme.eligibility_rules s)) as Hle.
  assert (0 < inject_Z (Z.of_nat (length (Scheme.eligibility_rules s))))%Q as Hn
    by (rewrite <- (Zlt_Qlt 0); lia).
  split.
  - apply Qle_shift_div_l; [done|]. rewrite Qmult_0_l.
    rewrite <- (Zle_Qle 0). lia.
  - apply Qle_shift_div_r; [done|]. rewrite Qmult_1_l.
    rewrite <- Zle_Qle. lia.
Qed.

Lemma satisfied_fraction_full c s :
  List.filter (fails c) (Scheme.eligibility_rules s) = [] ->
  (satisfied_fraction c s == 1)%Q.
Proof.
  intros Hf.
  destruct (satisfied_fraction_cases c s) as [[_ ->]|[Hpos ->]]; [reflexivity|].
  pose proof (filter_holds_fails c (Scheme.eligibility_rules s)) as Hlen.
  rewrite Hf, Nat.add_0_r in Hlen. rewrite Hlen.
  assert (0 < inject_Z (Z.of_nat (length (Scheme.eligibility_rules s))))%Q as Hn
    by (rewrite <- (Zlt_Qlt 0); lia).
  field. intros H0. rewrite H0 in Hn. by apply Qlt_irrefl in Hn.
Qed.

Lemma satisfied_fraction_round_full c s :
  (length (Scheme.eligibility_rules s) < 200)%nat ->
  (Py.round (satisfied_fraction c s) 2 == 1)%Q ->
  List.filter (fails c) (Scheme.eligibility_rules s) = [].
Proof.
  intros Hn Hr.
  destruct (satisfied_fraction_cases c s) as [[Hnil _]|[Hpos Heq]].
  { by rewrite Hnil. }
  rewrite Heq in Hr.
  pose proof (filter_holds_fails c (Scheme.eligibility_rules s)) as Hlen.
  apply round_fraction_full in Hr; [|lia|lia].
  apply length_zero_iff_nil. lia.
Qed.

(** X16. For a catalog whose rules parse, every match has an eligibility score
    between 0 and 1; an eligible match has score 1; for a scheme with fewer
    than 200 rules score 1 conversely means eligible; and the approval
    probability lies between 0 and 1 when the scheme's approval rate does. *)
Theorem eligible_iff_full_score (catalog : list Scheme.t)
    (citizen : CitizenProfile.t) :
  catalog_parses catalog = true ->
  exists ms,
    discover_schemes catalog (_build catalog) citizen = Ok ms /\
    forall m, m ∈ ms ->
      (0 <= SchemeMatch.eligibility_score m <= 1)%Q /\
      (SchemeMatch.is_eligible m = true ->
       (SchemeMatch.eligibility_score m == 1)%Q) /\
      ((length (Scheme.eligibility_rules (SchemeMatch.scheme m)) < 200)%nat ->
       (SchemeMatch.eligibility_score m == 1)%Q ->
       SchemeMatch.is_eligible m = true) /\
      ((0 <= Scheme.approval_rate (SchemeMatch.scheme m) <= 1)%Q ->
       (0 <= SchemeMatch.approval_probability m <= 1)%Q).
Proof.
  intros Hparse.
  destruct (discover_schemes_shape catalog citizen Hparse)
    as (ms0 & _ & Hms & Hall).
  eexists. split; [exact Hms|]. intros m Hm.
  destruct (discover_schemes_member _ _ _ _ Hparse Hall Hm)
    as (s & unlocks & r & Hs & ->).
  cbn [SchemeMatch.eligibility_score SchemeMatch.is_eligible SchemeMatch.scheme
       SchemeMatch.approval_probability].
  pose proof (satisfied_fraction_unit citizen s) as Hunit.
  split; [by apply round_2_unit|]. split; [|split].
  - intros Hel%bool_decide_eq_true.
    rewrite (round_proper _ 1 2) by by apply satisfied_fraction_full.
    apply round_one.
  - intros Hn Hr. apply bool_decide_eq_true.
    by apply satisfied_fraction_round_full.
  - intros [Ha0 Ha1]. apply round_2_unit. split.
    + apply Qmult_le_0_compat; tauto.
    + apply Qle_trans with (1 * Scheme.approval_rate s)%Q.
      * apply Qmult_le_compat_r; tauto.
      * by rewrite Qmult_1_l.
Qed.

Lemma eligible_iff_full_score_witness :
  exists ms,
    discover_schemes SCHEMES (_build SCHEMES) citizen_two_of_three = Ok ms /\
    forall m, m ∈ ms ->
      (0 <= SchemeMatch.eligibility_score m <= 1)%Q /\
      (SchemeMatch.is_eligible m = true ->
       (SchemeMatch.eligibility_score m == 1)%Q) /\
      ((length (Scheme.eligibility_rules (SchemeMatch.scheme m)) < 200)%nat ->
       (SchemeMatch.eligibility_score m == 1)%Q ->
       SchemeMatch.is_eligible m = true) /\
      ((0 <= Scheme.approval_rate (SchemeMatch.scheme m) <= 1)%Q ->
       (0 <= SchemeMatch.approval_probability m <= 1)%Q).
Proof.
  apply (eligible_iff_full_score SCHEMES citizen_two_of_three).
  vm_compute. reflexivity.
Defined.

Lemma find_first {A} (p : A -> bool) l x :
  List.find p l = Some x ->
  exists i, l !! i = Some x /\ p x = true /\
    forall j y, (j < i)%nat -> l !! j = Some y -> p y = false.
Proof.
  induction l as [|a l IH]; simpl; [done|].
  destruct (p a) eqn:Hp.
  - intros [= ->]. exists 0%nat. split_and!; [done|done|]. intros; lia.
  - intros H. destruct (IH H) as (i & Hi & Hx & Hbefore).
    exists (S i). split_and!; [done|done|].
    intros [|j] y Hj Hy; simpl in Hy; [by injection Hy as <-|].
    apply (Hbefore j); [lia|done].
Qed.

Lemma find_is_Some {A} (p : A -> bool) l x :
  x ∈ l -> p x = true -> is_Some (List.find p l).
Proof.
  intros Hx Hp. destruct (List.find p l) eqn:Hf; [done|].
  apply list_elem_of_In in Hx.
  by rewrite (find_none _ _ Hf _ Hx) in Hp.
Qed.

Lemma scheme_assign_ranks ms :
  SchemeMatch.scheme <$> assign_ranks ms = SchemeMatch.scheme <$> ms.
Proof.
  unfold assign_ranks. rewrite fmap_imap.
  rewrite (imap_ext _ (const SchemeMatch.scheme)) by (by intros ? [] ?).
  by rewrite imap_const.
Qed.

Lemma discover_schemes_schemes catalog c ms0 :
  Forall2 (fun s m => match_scheme catalog (_build catalog) c s = Ok m)
    catalog ms0 ->
  SchemeMatch.scheme <$> assign_ranks (sort_desc match_lt ms0) ≡ₚ catalog.
Proof.
  intros [Hs _]%Forall2_match_scheme_fields.
  by rewrite scheme_assign_ranks, sort_desc_perm, Hs.
Qed.

Lemma lookup_assign_ranks ms i m :
  assign_ranks ms !! i = Some m -> SchemeMatch.rank m = Z.of_nat i + 1.
Proof.
  unfold assign_ranks. intros (m' & _ & ->)%list_lookup_imap_Some.
  by destruct m'.
Qed.

(** X17. For a catalog whose rules parse, [verify_eligibility] returns nothing
    exactly for an id outside the catalog; for a catalog id it returns the
    best-ranked match of the ranking whose scheme has that id, with its
    rank. *)
Theorem verify_eligibility_first_match (catalog : list Scheme.t)
    (citizen : CitizenProfile.t) (scheme_id : string) :
  catalog_parses catalog = true ->
  exists ms,
    discover_schemes catalog (_build catalog) citizen = Ok ms /\
    (scheme_id ∉ catalog_ids catalog ->
     EligibilityAgent.verify_eligibility catalog (_build catalog) citizen
       scheme_id = Ok None) /\
    (scheme_id ∈ catalog_ids catalog ->
     exists i m,
       EligibilityAgent.verify_eligibility catalog (_build catalog) citizen
         scheme_id = Ok (Some m) /\
       ms !! i = Some m /\
       Scheme.scheme_id (SchemeMatch.scheme m) = scheme_id /\
       SchemeMatch.rank m = Z.of_nat i + 1 /\
       forall j m', (j < i)%nat -> ms !! j = Some m' ->
         Scheme.scheme_id (SchemeMatch.scheme m') ≠ scheme_id).
Proof.
  intros Hparse.
  destruct (discover_schemes_shape catalog citizen Hparse)
    as (ms0 & _ & Hms & Hall).
  eexists. split; [exact Hms|]. split.
  - intros Hid. apply verify_eligibility_unknown.
    destruct (scheme_map catalog !! scheme_id) eqn:Hl; [|done].
    exfalso. apply Hid, in_scheme_map_ids. unfold in_scheme_map.
    apply bool_decide_eq_true. by rewrite Hl.
  - intros Hid. unfold EligibilityAgent.verify_eligibility.
    destruct (catalog_ids_lookup _ _ Hid) as [s0 ->]. rewrite Hms. simpl.
    set (ms := assign_ranks (sort_desc match_lt ms0)) in *.
    set (p := fun m => String.eqb (Scheme.scheme_id (SchemeMatch.scheme m))
                                  scheme_id).
    assert (is_Some (List.find p ms)) as [m Hm].
    { unfold catalog_ids in Hid.
      rewrite <- (discover_schemes_schemes _ _ _ Hall), <- list_fmap_compose in Hid.
      apply list_elem_of_fmap in Hid as (m & Hm & Hin).
      apply (find_is_Some p ms m Hin). unfold p. simpl in Hm.
      rewrite <- Hm. apply String.eqb_refl. }
    rewrite Hm. destruct (find_first _ _ _ Hm) as (i & Hi & Hp & Hbefore).
    exists i, m. split_and!; [done|done| | |].
    + by apply String.eqb_eq.
    + by eapply lookup_assign_ranks.
    + intros j m' Hj Hm'. apply String.eqb_neq. by apply (Hbefore j).
Qed.

Lemma verify_eligibility_first_match_witness :
  exists ms,
    discover_schemes SCHEMES (_build SCHEMES) CitizenProfile.default = Ok ms /\
    ("pmay" ∉ catalog_ids SCHEMES ->
     EligibilityAgent.verify_eligibility SCHEMES (_build SCHEMES)
       CitizenProfile.default "pmay" = Ok None) /\
    ("pmay" ∈ catalog_ids SCHEMES ->
     exists i m,
       EligibilityAgent.verify_eligibility SCHEMES (_build SCHEMES)
         CitizenProfile.default "pmay" = Ok (Some m) /\
       ms !! i = Some m /\
       Scheme.scheme_id (SchemeMatch.scheme m) = "pmay" /\
       SchemeMatch.rank m = Z.of_nat i + 1 /\
       forall j m', (j < i)%nat -> ms !! j = Some m' ->
         Scheme.scheme_id (SchemeMatch.scheme m') ≠ "pmay").
Proof.
  apply (verify_eligibility_first_match SCHEMES CitizenProfile.default "pmay").
  vm_compute. reflexivity.
Defined.





Lemma Ok_inj {A} (a b : A) : Ok a = Ok b -> a = b.
Proof. by intros [= ->]. Qed.

Lemma evaluate_rule_set_documents r c docs :
  evaluate_rule r (set_documents c docs) = evaluate_rule r c.
Proof. unfold evaluate_rule. by destruct (EligibilityRule.rule_type r). Qed.

Lemma eval_rules_set_documents c docs rules matched failed :
  eval_rules (set_documents c docs) rules matched failed
  = eval_rules c rules matched failed.
Proof.
  revert matched failed. induction rules as [|r rules IH]; intros; simpl; [done|].
  rewrite evaluate_rule_set_documents.
  destruct (evaluate_rule r c) as [[]|]; simpl; [apply IH..|done].
Qed.

Lemma match_scheme_set_documents catalog g c docs s :
  result_map clear_missing (match_scheme catalog g (set_documents c docs) s)
  = result_map clear_missing (match_scheme catalog g c s).
Proof.
  unfold match_scheme. rewrite eval_rules_set_documents.
  destruct (eval_rules c _ [] []) as [[matched failed]|]; simpl; [|done].
  by destruct (find_benefit_chain g _ MAX_HOPS).
Qed.

Lemma match_all_set_documents catalog g c docs schemes :
  result_map (map clear_missing)
    (match_all catalog g (set_documents c docs) schemes)
  = result_map (map clear_missing) (match_all catalog g c schemes).
Proof.
  induction schemes as [|s schemes IH]; simpl; [done|].
  pose proof (match_scheme_set_documents catalog g c docs s) as Hs.
  destruct (match_scheme catalog g (set_documents c docs) s) as [m1|e1],
    (match_scheme catalog g c s) as [m2|e2]; simpl in *; try done;
    [|by injection Hs as ->].
  apply Ok_inj in Hs.
  destruct (match_all catalog g (set_documents c docs) schemes) as [ms1|e1],
    (match_all catalog g c schemes) as [ms2|e2]; simpl in *; try done.
  apply Ok_inj in IH. by rewrite Hs, IH.
Qed.

Lemma insert_desc_fmap {A} (lt : A -> A -> bool) (f : A -> A) x l :
  (forall x y, lt (f x) (f y) = lt x y) ->
  insert_desc lt (f x) (f <$> l) = f <$> insert_desc lt x l.
Proof.
  intros Hf. induction l as [|y l IH]; [done|].
  rewrite fmap_cons. simpl. rewrite Hf.
  destruct (lt x y); [|done]. rewrite fmap_cons. f_equal. exact IH.
Qed.

Lemma sort_desc_fmap {A} (lt : A -> A -> bool) (f : A -> A) l :
  (forall x y, lt (f x) (f y) = lt x y) ->
  sort_desc lt (f <$> l) = f <$> sort_desc lt l.
Proof.
  intros Hf. induction l as [|x l IH]; [done|].
  rewrite fmap_cons. unfold sort_desc in *. simpl.
  rewrite IH. by apply insert_desc_fmap.
Qed.

Lemma assign_ranks_clear_missing ms :
  clear_missing <$> assign_ranks ms = assign_ranks (clear_missing <$> ms).
Proof.
  unfold assign_ranks. rewrite fmap_imap, imap_fmap. by apply imap_ext.
Qed.

(** X19. The documents a citizen has uploaded affect nothing but the list of
    missing documents: for any catalog and graph, discovery for the same
    citizen with another document list gives the same outcome, the same
    matches in the same order with the same scores, eligibility and
    ranks, up to the missing-documents field. *)
Theorem discover_schemes_ignores_documents (catalog : list Scheme.t)
    (g : DiGraph.t) (citizen : CitizenProfile.t) (docs : list string) :
  result_map (map clear_missing)
    (discover_schemes catalog g (set_documents citizen docs))
  = result_map (map clear_missing) (discover_schemes catalog g citizen).
Proof.
  unfold discover_schemes.
  pose proof (match_all_set_documents catalog g citizen docs catalog) as H.
  destruct (match_all catalog g (set_documents citizen docs) catalog) as [ms1|e1],
    (match_all catalog g citizen catalog) as [ms2|e2]; simpl in *; try done.
  apply Ok_inj in H. f_equal.
  change (map clear_missing) with (fmap (M:=list) clear_missing) in *.
  rewrite !assign_ranks_clear_missing.
  rewrite <- !(sort_desc_fmap match_lt clear_missing) by done.
  by rewrite H.
Qed.

Lemma income_step_adds income rules :
  numeric_rules_parse rules = true ->
  exists fs delta,
    Forall (named "Income Near Threshold") fs /\ (0 <= delta)%Q /\
    adds (Validation.income_step income rules) fs delta.
Proof.
  induction rules as [|r rules IH]; intros Hp.
  - exists [], 0%Q. split_and!; [constructor|discriminate|].
    intros a. exists a.2. simpl. rewrite app_nil_r. split; [by destruct a|lra].
  - simpl in Hp. apply andb_prop in Hp as [Hr Hp].
    destruct (IH Hp) as (fs & delta & Hfs & Hd & Hadds). simpl.
    destruct (is_income_rule r) eqn:Hi;
      [|by exists fs, delta].
    destruct (income_rule_parses r Hr Hi) as [x Hx]. rewrite Hx. simpl.
    destruct (ratio_to income x) as [ratio|]; [|by exists fs, delta].
    destruct (Py.Qlt_bool 0.85 ratio) eqn:Hlt; [|by exists fs, delta].
    apply Qlt_bool_true in Hlt.
    set (risk := (0.20 * Py.Qmin (ratio - 0.85) 0.15 / 0.15)%Q).
    set (f := RiskFactor.mk _ _ _).
    assert (0 <= risk)%Q as Hrisk.
    { unfold risk.
      destruct (Qmin_spec (ratio - 0.85) 0.15) as [_ [Heq|Heq]]; rewrite Heq.
      - apply Qle_shift_div_l; [reflexivity|]. lra.
      - discriminate. }
    exists (f :: fs), (risk + delta)%Q. split_and!.
    + by constructor.
    + lra.
    + intros a. destruct (Hadds (Validation.add_factor a f risk)) as (q & Hq & Hqe).
      exists q. rewrite Hq. simpl. rewrite <- app_assoc. split; [done|].
      rewrite Hqe. simpl. lra.
Qed.

Lemma age_step_adds age rules :
  numeric_rules_parse rules = true ->
  exists fs delta,
    Forall (named "Age Boundary Risk") fs /\ (0 <= delta)%Q /\
    adds (Validation.age_step age rules) fs delta.
Proof.
  induction rules as [|r rules IH]; intros Hp.
  - exists [], 0%Q. split_and!; [constructor|discriminate|].
    intros a. exists a.2. simpl. rewrite app_nil_r. split; [by destruct a|lra].
  - simpl in Hp. apply andb_prop in Hp as [Hr Hp].
    destruct (IH Hp) as (fs & delta & Hfs & Hd & Hadds). simpl.
    destruct (is_age_rule r) eqn:Hi;
      [|by exists fs, delta].
    destruct (age_rule_parses r Hr Hi) as [n Hn]. rewrite Hn. simpl.
    destruct (Z.abs (age - n) <=? 1); [|by exists fs, delta].
    set (f := RiskFactor.mk _ _ _).
    exists (f :: fs), (0.08 + delta)%Q. split_and!.
    + by constructor.
    + lra.
    + intros a. destruct (Hadds (Validation.add_factor a f 0.08)) as (q & Hq & Hqe).
      exists q. rewrite Hq. simpl. rewrite <- app_assoc. split; [done|].
      rewrite Hqe. simpl. lra.
Qed.

Lemma adds_id : adds (fun a => Ok a) [] 0.
Proof.
  intros a. exists a.2. rewrite app_nil_r. split; [by destruct a|lra].
Qed.

Lemma validation_shape c s :
  numeric_rules_parse (Scheme.eligibility_rules s) = true ->
  exists fi fg delta,
    Forall (named "Income Near Threshold") fi /\
    Forall (named "Age Boundary Risk") fg /\
    (0 <= delta)%Q /\
    forall docs,
      let missing := missing_docs (Scheme.required_documents s) docs in
      let a1 := Validation.docs_step s missing ([], 0%Q) in
      let factors :=
        a1.1 ++ fi
        ++ (if Py.truthy (CitizenProfile.aadhaar_number c) then []
            else [aadhaar_factor])
        ++ (if Py.truthy (CitizenProfile.bank_account c) then []
            else [bank_factor])
        ++ fg in
      exists total,
        (total == a1.2 + delta + (1 - Scheme.approval_rate s) * 0.3)%Q /\
        Validation.predict_rejection (set_documents c docs) s =
        Ok (RejectionAnalysis.mk
              (Py.round (Py.Qmin (Py.Qmax total 0) 1) 2)
              (risk_ladder (Py.Qmin (Py.Qmax total 0) 1))
              factors
              (Validation._generate_recommendations factors missing)
              (take 3 Validation.REJECTION_PATTERNS)).
Proof.
  intros Hp.
  set (rules := Scheme.eligibility_rules s) in *.
  assert (exists fi di, Forall (named "Income Near Threshold") fi /\ (0 <= di)%Q /\
            adds (fun a => if Py.Qlt_bool 0 (CitizenProfile.annual_income c)
                           then Validation.income_step
                                  (CitizenProfile.annual_income c) rules a
                           else Ok a) fi di) as (fi & di & Hfi & Hdi & Hi).
  { destruct (Py.Qlt_bool 0 _).
    - by apply income_step_adds.
    - exists [], 0%Q. split_and!; [constructor|discriminate|apply adds_id]. }
  assert (exists fg dg, Forall (named "Age Boundary Risk") fg /\ (0 <= dg)%Q /\
            adds (fun a => match CitizenProfile.age c with
                           | Some age => if age =? 0 then Ok a
                                         else Validation.age_step age rules a
                           | None => Ok a
                           end) fg dg) as (fg & dg & Hfg & Hdg & Hg).
  { destruct (CitizenProfile.age c) as [age|]; [destruct (age =? 0)|].
    - exists [], 0%Q. split_and!; [constructor|discriminate|apply adds_id].
    - by apply age_step_adds.
    - exists [], 0%Q. split_and!; [constructor|discriminate|apply adds_id]. }
  set (da := (if Py.truthy (CitizenProfile.aadhaar_number c) then 0 else 0.25)%Q).
  set (db := (if Py.truthy (CitizenProfile.bank_account c) then 0 else 0.15)%Q).
  exists fi, fg, (di + da + db + dg)%Q.
  split_and!; [done|done| |].
  { unfold da, db. destruct (Py.truthy _), (Py.truthy _); lra. }
  intros docs missing a1 factors.
  unfold Validation.predict_rejection, Validation._check_missing_docs.
  change (CitizenProfile.documents (set_documents c docs)) with docs.
  change (CitizenProfile.annual_income (set_documents c docs))
    with (CitizenProfile.annual_income c).
  change (CitizenProfile.aadhaar_number (set_documents c docs))
    with (CitizenProfile.aadhaar_number c).
  change (CitizenProfile.bank_account (set_documents c docs))
    with (CitizenProfile.bank_account c).
  change (CitizenProfile.age (set_documents c docs))
    with (CitizenProfile.age c).
  fold rules. fold missing. fold a1.
  destruct (Hi a1) as (q2 & Hq2 & He2). cbv beta in Hq2. rewrite Hq2.
  cbn [mbind result_bind].
  set (a3 := if Py.truthy (CitizenProfile.aadhaar_number c) then _ else _).
  set (a4 := if Py.truthy (CitizenProfile.bank_account c) then _ else _).
  destruct (Hg a4) as (q5 & Hq5 & He5). cbv beta in Hq5.
  match goal with
  | |- context [mbind _ ?X] => assert (X = Ok (a4.1 ++ fg, q5)) as -> by exact Hq5
  end.
  cbn [mbind result_bind fst snd].
  assert (a4.1 ++ fg = factors) as Hfactors.
  { unfold factors, a4, a3.
    destruct (Py.truthy (CitizenProfile.aadhaar_number c)),
      (Py.truthy (CitizenProfile.bank_account c)); simpl;
      rewrite <- ?app_assoc; done. }
  rewrite Hfactors.
  exists (q5 + (1 - Scheme.approval_rate s) * 0.3)%Q. split; [|done].
  rewrite He5.
  assert (a4.2 == a1.2 + di + da + db)%Q as ->; [|lra].
  unfold a4, a3, da, db.
  destruct (Py.truthy (CitizenProfile.aadhaar_number c)),
    (Py.truthy (CitizenProfile.bank_account c)); simpl; rewrite He2; lra.
Qed.

Lemma set_documents_id c : set_documents c (CitizenProfile.documents c) = c.
Proof. by destruct c. Qed.

Lemma factor_recs_named missing f name line :
  Validation.factor_recs missing (RiskFactor.mk name "" 0) = [line] ->
  named name f -> Validation.factor_recs missing f = [line].
Proof. unfold named, Validation.factor_recs. simpl. by intros H ->. Qed.

Lemma elem_of_flat_map_named missing fs name line x :
  Validation.factor_recs missing (RiskFactor.mk name "" 0) = [line] ->
  Forall (named name) fs ->
  x ∈ flat_map (Validation.factor_recs missing) fs <-> fs ≠ [] /\ x = line.
Proof.
  intros Hline Hfs. induction Hfs as [|f fs Hf _ IH]; simpl.
  - rewrite elem_of_nil. by intros; split; [|intros []].
  - rewrite (factor_recs_named _ _ _ _ Hline Hf). simpl.
    rewrite elem_of_cons, IH. split; [intros [->|[_ ->]]; done|intros [_ ->]; by left].
Qed.

Lemma docs_step_recs s missing :
  flat_map (Validation.factor_recs missing)
    (Validation.docs_step s missing ([], 0%Q)).1
  = map Validation.upload_line missing.
Proof.
  destruct missing as [|d missing]; [done|].
  cbn [Validation.docs_step Validation.add_factor fst app flat_map].
  rewrite app_nil_r. reflexivity.
Qed.

Lemma docs_step_factors s missing :
  (Validation.docs_step s missing ([], 0%Q)).1 = [] <-> missing = [].
Proof. by destruct missing. Qed.

Lemma upload_line_first d :
  exists rest, Validation.upload_line d = String "U" rest.
Proof. by eexists. Qed.

Lemma not_upload_line line missing :
  (forall rest, line ≠ String "U" rest) ->
  line ∉ map Validation.upload_line missing.
Proof.
  intros Hl Hin. apply list_elem_of_In, in_map_iff in Hin as (d & Hd & _).
  destruct (upload_line_first d) as [rest Hrest]. rewrite Hrest in Hd.
  by apply (Hl rest).
Qed.

(** X20. The recommendations of the rule-based scorer: every line is the upload
    line of a missing document or one of the four fixed lines; every
    missing document has its upload line; the Aadhaar line is there
    exactly when the Aadhaar number is empty, the bank line exactly when
    the bank account is empty; and the list is empty exactly when no risk
    factor was found. *)
Theorem rule_based_recommendations_content (citizen : CitizenProfile.t)
    (scheme : Scheme.t) :
  numeric_rules_parse (Scheme.eligibility_rules scheme) = true ->
  exists analysis,
    Validation.predict_rejection citizen scheme = Ok analysis /\
    let recs := RejectionAnalysis.recommendations analysis in
    let missing := Validation._check_missing_docs citizen scheme in
    (forall rec, rec ∈ recs ->
       rec ∈ map Validation.upload_line missing \/
       rec ∈ [AADHAAR_LINE; BANK_LINE; INCOME_LINE; AGE_LINE]) /\
    (forall d, d ∈ missing -> Validation.upload_line d ∈ recs) /\
    (AADHAAR_LINE ∈ recs <-> CitizenProfile.aadhaar_number citizen = "") /\
    (BANK_LINE ∈ recs <-> CitizenProfile.bank_account citizen = "") /\
    (recs = [] <-> RejectionAnalysis.risk_factors analysis = []).
Proof.
  intros Hp.
  destruct (validation_shape citizen scheme Hp)
    as (fi & fg & delta & Hfi & Hfg & _ & Hshape).
  destruct (Hshape (CitizenProfile.documents citizen)) as (total & _ & Hpred).
  rewrite set_documents_id in Hpred.
  eexists. split; [exact Hpred|].
  cbn [RejectionAnalysis.recommendations RejectionAnalysis.risk_factors].
  unfold Validation._check_missing_docs.
  set (missing := missing_docs _ _) in *.
  set (a1 := Validation.docs_step scheme missing ([], 0%Q)) in *.
  set (fa := if Py.truthy (CitizenProfile.aadhaar_number citizen) then []
             else [aadhaar_factor]) in *.
  set (fb := if Py.truthy (CitizenProfile.bank_account citizen) then []
             else [bank_factor]) in *.
  assert (Forall (named "Missing Aadhaar") fa) as Hfa
    by (unfold fa; destruct (Py.truthy (CitizenProfile.aadhaar_number citizen));
        by repeat constructor).
  assert (Forall (named "No Bank Account Linked") fb) as Hfb
    by (unfold fb; destruct (Py.truthy (CitizenProfile.bank_account citizen));
        by repeat constructor).
  assert (forall x,
    x ∈ Validation._generate_recommendations (a1.1 ++ fi ++ fa ++ fb ++ fg) missing
    <-> x ∈ map Validation.upload_line missing \/
        (fi ≠ [] /\ x = INCOME_LINE) \/ (fa ≠ [] /\ x = AADHAAR_LINE) \/
        (fb ≠ [] /\ x = BANK_LINE) \/ (fg ≠ [] /\ x = AGE_LINE)) as Hmem.
  { intros x. unfold Validation._generate_recommendations.
    destruct (dedup_spec ∅ (flat_map (Validation.factor_recs missing)
                              (a1.1 ++ fi ++ fa ++ fb ++ fg))) as (_ & -> & _).
    rewrite !flat_map_app, !elem_of_app. unfold a1. rewrite docs_step_recs.
    rewrite (elem_of_flat_map_named missing fi "Income Near Threshold" INCOME_LINE)
      by (reflexivity || done).
    rewrite (elem_of_flat_map_named missing fa "Missing Aadhaar" AADHAAR_LINE)
      by (reflexivity || done).
    rewrite (elem_of_flat_map_named missing fb "No Bank Account Linked" BANK_LINE)
      by (reflexivity || done).
    rewrite (elem_of_flat_map_named missing fg "Age Boundary Risk" AGE_LINE)
      by (reflexivity || done).
    rewrite elem_of_empty. tauto. }
  assert (fa ≠ [] <-> CitizenProfile.aadhaar_number citizen = "") as Hfa'.
  { unfold fa. by destruct (CitizenProfile.aadhaar_number citizen). }
  assert (fb ≠ [] <-> CitizenProfile.bank_account citizen = "") as Hfb'.
  { unfold fb. by destruct (CitizenProfile.bank_account citizen). }
  clearbody fa fb.
  split_and!.
  - intros rec Hrec. apply Hmem in Hrec
      as [H|[[_ ->]|[[_ ->]|[[_ ->]|[_ ->]]]]]; [by left|right..];
      unfold AADHAAR_LINE, BANK_LINE, INCOME_LINE, AGE_LINE;
      rewrite !elem_of_cons; tauto.
  - intros d Hd. apply Hmem. left. apply list_elem_of_In, in_map.
    by apply list_elem_of_In.
  - rewrite Hmem, <- Hfa'. split; [|tauto].
    intros [H|[[_ H]|[[H _]|[[_ H]|[_ H]]]]]; try done.
    by apply not_upload_line in H.
  - rewrite Hmem, <- Hfb'. split; [|tauto].
    intros [H|[[_ H]|[[_ H]|[[H _]|[_ H]]]]]; try done.
    by apply not_upload_line in H.
  - split.
    + intros Hnil.
      assert (forall x, ~ (x ∈ map Validation.upload_line missing \/
        (fi ≠ [] /\ x = INCOME_LINE) \/ (fa ≠ [] /\ x = AADHAAR_LINE) \/
        (fb ≠ [] /\ x = BANK_LINE) \/ (fg ≠ [] /\ x = AGE_LINE))) as Hno.
      { intros x Hx. apply Hmem in Hx. rewrite Hnil in Hx.
        by apply elem_of_nil in Hx. }
      assert (missing = []) as Hm.
      { destruct missing as [|d m]; [done|]. exfalso.
        apply (Hno (Validation.upload_line d)). left. simpl. by left. }
      assert (fi = []) as ->.
      { destruct fi; [done|]. exfalso. apply (Hno INCOME_LINE).
        right; left. by split. }
      assert (fa = []) as ->.
      { destruct fa; [done|]. exfalso. apply (Hno AADHAAR_LINE).
        right; right; left. by split. }
      assert (fb = []) as ->.
      { destruct fb; [done|]. exfalso. apply (Hno BANK_LINE).
        right; right; right; left. by split. }
      assert (fg = []) as ->.
      { destruct fg; [done|]. exfalso. apply (Hno AGE_LINE).
        right; right; right; right. by split. }
      rewrite !app_nil_r. by apply docs_step_factors.
    + intros ->. done.
Qed.

Lemma rule_based_recommendations_content_witness :
  exists analysis,
    Validation.predict_rejection citizen_no_documents Catalog.mudra_loan
      = Ok analysis /\
    let recs := RejectionAnalysis.recommendations analysis in
    let missing :=
      Validation._check_missing_docs citizen_no_documents Catalog.mudra_loan in
    (forall rec, rec ∈ recs ->
       rec ∈ map Validation.upload_line missing \/
       rec ∈ [AADHAAR_LINE; BANK_LINE; INCOME_LINE; AGE_LINE]) /\
    (forall d, d ∈ missing -> Validation.upload_line d ∈ recs) /\
    (AADHAAR_LINE ∈ recs <->
     CitizenProfile.aadhaar_number citizen_no_documents = "") /\
    (BANK_LINE ∈ recs <-> CitizenProfile.bank_account citizen_no_documents = "") /\
    (recs = [] <-> RejectionAnalysis.risk_factors analysis = []).
Proof.
  apply (rule_based_recommendations_content citizen_no_documents
           Catalog.mudra_loan).
  vm_compute. reflexivity.
Defined.


















Lemma batch_predict_loop_spec catalog citizen ids noise : forall draws results,
  Forall (fun sid => forall s, scheme_map catalog !! sid = Some s ->
            numeric_rules_parse (Scheme.eligibility_rules s) = true) ids ->
  exists res,
    AdversarialAgent.batch_predict_loop catalog citizen ids noise draws results
      = Ok res /\
    (forall sid,
       is_Some (res !! sid) <->
       is_Some (results !! sid) \/ (sid ∈ ids /\ sid ∈ catalog_ids catalog)) /\
    (forall sid a, res !! sid = Some a ->
       results !! sid = Some a \/
       exists k, AdversarialAgent.predict_rejection catalog citizen sid (noise k)
                 = Ok (Some a)).
Proof.
  induction ids as [|i ids IH]; intros draws results Hall.
  - exists results. split_and!; [done| |by left].
    intros sid. rewrite elem_of_nil. tauto.
  - apply Forall_cons in Hall as [Hi Hall].
    cbn [AdversarialAgent.batch_predict_loop].
    destruct (AdversarialAgent.predict_rejection catalog citizen i (noise draws))
      as [[a|]|e] eqn:Hpred.
    + cbn [mbind result_bind].
      destruct (IH (S draws) (<[i := a]> results) Hall)
        as (res & Hres & Hdom & Hval).
      assert (i ∈ catalog_ids catalog) as Hin.
      { apply in_scheme_map_ids. unfold in_scheme_map.
        apply bool_decide_eq_true.
        destruct (scheme_map catalog !! i) eqn:Hs; [done|].
        by rewrite (predict_rejection_unknown _ _ _ _ Hs) in Hpred. }
      exists res. split_and!; [exact Hres| |].
      * intros sid. rewrite Hdom, lookup_insert_is_Some, elem_of_cons.
        destruct (decide (i = sid)) as [<-|Hne]; intuition congruence.
      * intros sid a' Ha'. apply Hval in Ha' as [Ha'|Ha']; [|by right].
        destruct (decide (i = sid)) as [<-|Hne].
        -- rewrite lookup_insert_eq in Ha'. injection Ha' as <-.
           right. by exists draws.
        -- rewrite lookup_insert_ne in Ha' by done. by left.
    + cbn [mbind result_bind].
      destruct (IH draws results Hall) as (res & Hres & Hdom & Hval).
      assert (i ∉ catalog_ids catalog) as Hout.
      { intros Hi'. destruct (catalog_ids_lookup _ _ Hi') as [s Hs].
        destruct (validation_predict_rejection_ok citizen s (Hi s Hs))
          as (factors & total & Hv).
        destruct (predict_rejection_probability_ok citizen s (noise draws)
                    (Hi s Hs)) as (p & Hpr & _).
        unfold AdversarialAgent.predict_rejection in Hpred.
        rewrite Hs, Hv, Hpr in Hpred. done. }
      exists res. split_and!; [exact Hres| |exact Hval].
      intros sid. rewrite Hdom, elem_of_cons.
      destruct (decide (sid = i)) as [->|Hne]; intuition congruence.
    + exfalso.
      destruct (scheme_map catalog !! i) as [s|] eqn:Hs.
      * destruct (validation_predict_rejection_ok citizen s (Hi s eq_refl))
          as (factors & total & Hv).
        destruct (predict_rejection_probability_ok citizen s (noise draws)
                    (Hi s eq_refl)) as (p & Hpr & _).
        unfold AdversarialAgent.predict_rejection in Hpred.
        rewrite Hs, Hv, Hpr in Hpred. done.
      * by rewrite (predict_rejection_unknown _ _ _ _ Hs) in Hpred.
Qed.

(** X22. For a catalog whose numeric rules parse, [batch_predict] returns a
    dictionary whose keys are exactly the requested ids that are in the
    catalog; ids outside the catalog are skipped silently, and every
    value is the analysis that [predict_rejection] gives for its key with
    one of the noise draws. *)
Theorem batch_predict_skips_unknown (catalog : list Scheme.t)
    (citizen : CitizenProfile.t) (scheme_ids : list string) (noise : nat -> Q) :
  forallb (fun s => numeric_rules_parse (Scheme.eligibility_rules s)) catalog
    = true ->
  exists results,
    AdversarialAgent.batch_predict catalog citizen scheme_ids noise
      = Ok results /\
    (forall sid,
       is_Some (results !! sid) <->
       sid ∈ scheme_ids /\ sid ∈ catalog_ids catalog) /\
    (forall sid a, results !! sid = Some a ->
       exists k, AdversarialAgent.predict_rejection catalog citizen sid (noise k)
                 = Ok (Some a)).
Proof.
  intros Hp.
  destruct (batch_predict_loop_spec catalog citizen scheme_ids noise 0 ∅)
    as (res & Hres & Hdom & Hval).
  { apply Forall_forall. intros sid _ s Hs.
    apply scheme_map_lookup in Hs as [Hs _].
    rewrite forallb_forall in Hp. by apply Hp, list_elem_of_In. }
  exists res. split_and!; [exact Hres| |].
  - intros sid. rewrite Hdom, lookup_empty.
    split; [intros [[? [=]]|?]; done|by right].
  - intros sid a Ha. by destruct (Hval sid a Ha) as [H|H].
Qed.

Lemma batch_predict_skips_unknown_witness :
  exists results,
    AdversarialAgent.batch_predict SCHEMES citizen_no_documents
      ["mudra_loan"; "no_such_scheme"; "pmay"] constant_noise
      = Ok results /\
    (forall sid,
       is_Some (results !! sid) <->
       sid ∈ ["mudra_loan"; "no_such_scheme"; "pmay"] /\
       sid ∈ catalog_ids SCHEMES) /\
    (forall sid a, results !! sid = Some a ->
       exists k, AdversarialAgent.predict_rejection SCHEMES citizen_no_documents
                   sid (constant_noise k) = Ok (Some a)).
Proof.
  apply (batch_predict_skips_unknown SCHEMES citizen_no_documents
           ["mudra_loan"; "no_such_scheme"; "pmay"] constant_noise).
  vm_compute. reflexivity.
Defined.
